(** * Grid placement and collision engine of the terrain map application

    A shallow embedding of [src/Script.js]: the terrain registry, the
    footprint computation, the free-position scan, drag validation and the
    90-degree rotation, together with the properties of the placement
    engine.

    Numbers.  JavaScript numbers that hold cell coordinates are integers
    ([Z]).  Bounding-box dimensions and world coordinates are real valued
    in the program; they are modelled by exact rationals ([Q]), so
    [Math.ceil], [Math.round] and [/] on them are the exact operations.
    The rotation angle is compared for equality after repeated additions
    of [Math.PI / 2], so it is kept as the binary64 number it is, with the
    remainder operator of the language. *)

From Stdlib Require Import ZArith QArith Qround Lia Lqa String.
From Stdlib Require Import Floats.PrimFloat Floats.SpecFloat Floats.FloatOps.
From stdpp Require Import base option list.

Local Open Scope Z_scope.

(** ** Numeric primitives *)

(** [Math.ceil]. *)
Definition Math_ceil (q : Q) : Z := Qceiling q.

(** [Math.round]: the nearest integer, halves going up. *)
Definition Math_round (q : Q) : Z := Qfloor (q + (1 # 2)).

(** [Math.PI], the binary64 number closest to pi. *)
Definition Math_PI : float := 0x1.921fb54442d18p+1%float.

(** [n % d] on binary64 numbers.  The result is [n - d * q] computed
    exactly, where [q] is the quotient [n / d] truncated toward zero; it
    has the sign of the dividend and is always representable.  A
    not-a-number operand, an infinite dividend or a zero divisor give
    not-a-number; an infinite divisor or a zero dividend give the
    dividend. *)
Definition js_rem (n d : float) : float :=
  match Prim2SF n, Prim2SF d with
  | S754_nan, _ => nan
  | _, S754_nan => nan
  | S754_infinity _, _ => nan
  | _, S754_infinity _ => n
  | _, S754_zero _ => nan
  | S754_zero _, _ => n
  | S754_finite sn mn en, S754_finite _ md ed =>
      let e := Z.min en ed in
      let N := Z.pos mn * 2 ^ (en - e) in
      let D := Z.pos md * 2 ^ (ed - e) in
      let R := N mod D in
      if R =? 0 then SF2Prim (S754_zero sn)
      else SF2Prim (binary_normalize prec emax (if sn then - R else R) e false)
  end.

(** ** Data model *)

(** [let grid = { size: 10, cellSize: 10 }].  The cell size is a positive
    number: the footprint division is only meaningful for such sizes. *)
Module Grid.
Record t := mk { size : Z; cellSize : positive }.
End Grid.

(** [gridPosition: { x, z }]. *)
Module GridPosition.
Record t := mk { x : Z; z : Z }.
End GridPosition.

(** [dimensions: { width, depth, height }]. *)
Module Dimensions.
Record t := mk { width : Q; depth : Q; height : Q }.
End Dimensions.

(** The renderable object owned by a terrain: an opaque mesh handle and
    the three fields of it that the script writes, [position.x],
    [position.z] and [rotation.y]. *)
Module Model.
Record t := mk { mesh : nat; position_x : Q; position_z : Q; rotation_y : float }.
End Model.

(** The object built by [createTerrainObject]. *)
Module Terrain.
Record t := mk {
  id : Z;
  name : string;
  model : Model.t;
  gridPosition : GridPosition.t;
  dimensions : Dimensions.t;
  rotation : float;
  visible : bool
}.

(** Field assignments. *)
Definition set_gridPosition (p : GridPosition.t) (terrain : t) : t :=
  mk (id terrain) (name terrain) (model terrain) p (dimensions terrain)
     (rotation terrain) (visible terrain).
Definition set_model (m : Model.t) (terrain : t) : t :=
  mk (id terrain) (name terrain) m (gridPosition terrain) (dimensions terrain)
     (rotation terrain) (visible terrain).
Definition set_dimensions (d : Dimensions.t) (terrain : t) : t :=
  mk (id terrain) (name terrain) (model terrain) (gridPosition terrain) d
     (rotation terrain) (visible terrain).
Definition set_rotation (r : float) (terrain : t) : t :=
  mk (id terrain) (name terrain) (model terrain) (gridPosition terrain)
     (dimensions terrain) r (visible terrain).
End Terrain.

(** Terrain objects are JavaScript objects reached through references: the
    [terrains] array and [selectedTerrain] hold references to the same
    objects.  The store [heap] maps an address (an index) to the object;
    objects are never freed.  [scene] lists the terrains whose model is a
    child of the scene, [dragOffset] holds the [x] and [z] of the vector,
    and [controls_target] is [controls.target] once [centerOnTerrain] has
    set it. *)
Record State := mkState {
  heap : list Terrain.t;
  terrains : list nat;
  scene : list nat;
  selectedTerrain : option nat;
  isDragging : bool;
  dragOffset : Q * Q;
  controls_enabled : bool;
  controls_target : option (Q * Q * Q)
}.

(** The state after the script has been loaded: [terrains = []],
    [selectedTerrain = null], [isDragging = false]. *)
Definition initialState : State :=
  mkState [] [] [] None false (0%Q, 0%Q) true None.

(** The objects that a list of references points to. *)
Definition deref (h : list Terrain.t) (refs : list nat) : list Terrain.t :=
  omap (fun a => h !! a) refs.

(** The objects of the [terrains] array, in array order. *)
Definition registry (st : State) : list Terrain.t :=
  deref (heap st) (terrains st).

Definition set_heap (h : list Terrain.t) (st : State) : State :=
  mkState h (terrains st) (scene st) (selectedTerrain st) (isDragging st)
          (dragOffset st) (controls_enabled st) (controls_target st).

(** [obj.field = ...] on the object at address [a]. *)
Definition store (a : nat) (t : Terrain.t) (st : State) : State :=
  set_heap (<[a := t]> (heap st)) st.

(** ** Counted loops with early return *)

(** [n] iterations of a loop body starting at [i]; the body returns
    [Some r] for [return r] and [None] to go on with [i + 1]. *)
Fixpoint for_loop {A : Type} (n : nat) (i : Z) (body : Z -> option A) : option A :=
  match n with
  | O => None
  | S n' =>
      match body i with
      | Some r => Some r
      | None => for_loop n' (i + 1) body
      end
  end.

(** [for (let i = lo; i < hi; i++) body]. *)
Definition for_range {A : Type} (lo hi : Z) (body : Z -> option A) : option A :=
  for_loop (Z.to_nat (hi - lo)) lo body.

(** ** Footprint *)

(** [Math.ceil(terrain.dimensions.width / grid.cellSize)]. *)
Definition cellsWide (grid : Grid.t) (terrain : Terrain.t) : Z :=
  Math_ceil (Dimensions.width (Terrain.dimensions terrain)
             / inject_Z (Z.pos (Grid.cellSize grid))).

(** [Math.ceil(terrain.dimensions.depth / grid.cellSize)]. *)
Definition cellsDeep (grid : Grid.t) (terrain : Terrain.t) : Z :=
  Math_ceil (Dimensions.depth (Terrain.dimensions terrain)
             / inject_Z (Z.pos (Grid.cellSize grid))).

(** ** Placement engine *)

(** The [noOverlap] test of [isPositionOccupied] for the candidate
    rectangle [(x, z, width, depth)] and one terrain. *)
Definition noOverlap (grid : Grid.t) (x z width depth : Z) (terrain : Terrain.t) : bool :=
  let terrainWidth := cellsWide grid terrain in
  let terrainDepth := cellsDeep grid terrain in
  (x + width <=? GridPosition.x (Terrain.gridPosition terrain))
  || (GridPosition.x (Terrain.gridPosition terrain) + terrainWidth <=? x)
  || (z + depth <=? GridPosition.z (Terrain.gridPosition terrain))
  || (GridPosition.z (Terrain.gridPosition terrain) + terrainDepth <=? z).

(** [isPositionOccupied]: the loop over [terrains]. *)
Fixpoint isPositionOccupied (grid : Grid.t) (terrains : list Terrain.t)
    (x z width depth : Z) (excludeTerrainId : Z) : bool :=
  match terrains with
  | [] => false
  | terrain :: rest =>
      if Terrain.id terrain =? excludeTerrainId
      then isPositionOccupied grid rest x z width depth excludeTerrainId
      else if negb (noOverlap grid x z width depth terrain)
      then true
      else isPositionOccupied grid rest x z width depth excludeTerrainId
  end.

(** The two nested loops of [findAvailableGridPosition]; [None] when they
    run to completion. *)
Definition scanGrid (grid : Grid.t) (terrains : list Terrain.t)
    (cellsWide cellsDeep : Z) (excludeTerrainId : Z) : option GridPosition.t :=
  let searchRange := Grid.size grid in
  for_range (- searchRange) (Grid.size grid - cellsDeep + 1) (fun z =>
    for_range (- searchRange) (Grid.size grid - cellsWide + 1) (fun x =>
      if negb (isPositionOccupied grid terrains x z cellsWide cellsDeep excludeTerrainId)
      then Some (GridPosition.mk x z)
      else None)).

(** [findAvailableGridPosition]. *)
Definition findAvailableGridPosition (grid : Grid.t) (terrains : list Terrain.t)
    (terrain : Terrain.t) : GridPosition.t :=
  match scanGrid grid terrains (cellsWide grid terrain) (cellsDeep grid terrain)
                 (Terrain.id terrain) with
  | Some position => position
  | None => GridPosition.mk 0 0
  end.

(** [isValidGridPosition]. *)
Definition isValidGridPosition (grid : Grid.t) (terrains : list Terrain.t)
    (x z width depth : Z) (excludeTerrainId : Z) : bool :=
  (x + width <=? Grid.size grid)
  && (z + depth <=? Grid.size grid)
  && negb (isPositionOccupied grid terrains x z width depth excludeTerrainId).

(** [updateTerrainPosition]: the new value of the terrain object. *)
Definition updateTerrainPosition (grid : Grid.t) (terrain : Terrain.t) : Terrain.t :=
  let cellSize := inject_Z (Z.pos (Grid.cellSize grid)) in
  let cellsWide := cellsWide grid terrain in
  let cellsDeep := cellsDeep grid terrain in
  let offsetX :=
    ((inject_Z cellsWide * cellSize - Dimensions.width (Terrain.dimensions terrain)) / 2)%Q in
  let offsetZ :=
    ((inject_Z cellsDeep * cellSize - Dimensions.depth (Terrain.dimensions terrain)) / 2)%Q in
  Terrain.set_model
    (Model.mk (Model.mesh (Terrain.model terrain))
       (inject_Z (GridPosition.x (Terrain.gridPosition terrain)) * cellSize + offsetX)%Q
       (inject_Z (GridPosition.z (Terrain.gridPosition terrain)) * cellSize + offsetZ)%Q
       (Terrain.rotation terrain))
    terrain.

(** ** Terrain creation and placement *)

(** [calculateTerrainDimensions]: [size] is the size of the model's
    bounding box, as [(size.x, size.z, size.y)]. *)
Definition calculateTerrainDimensions (size : Dimensions.t) (terrain : Terrain.t) : Terrain.t :=
  Terrain.set_dimensions
    (Dimensions.mk (Dimensions.width size) (Dimensions.depth size) (Dimensions.height size))
    terrain.

(** [createTerrainObject(model, name)]; [now] is the value of
    [Date.now()]. *)
Definition createTerrainObject (now : Z) (size : Dimensions.t) (model : Model.t)
    (name : string) : Terrain.t :=
  let terrain :=
    Terrain.mk now name model (GridPosition.mk 0 0) (Dimensions.mk 0 0 0) 0 true in
  calculateTerrainDimensions size terrain.

(** [positionTerrainOnGrid(terrain)] for the object at address [a]. *)
Definition positionTerrainOnGrid (grid : Grid.t) (a : nat) (st : State) : State :=
  match heap st !! a with
  | Some terrain =>
      let position := findAvailableGridPosition grid (registry st) terrain in
      store a (updateTerrainPosition grid (Terrain.set_gridPosition position terrain)) st
  | None => st
  end.

(** [terrains.push(terrain); scene.add(terrain.model)] for a newly created
    object, which gets the next free address. *)
Definition pushTerrain (terrain : Terrain.t) (st : State) : State :=
  let a := length (heap st) in
  mkState (heap st ++ [terrain]) (terrains st ++ [a]) (scene st ++ [a])
          (selectedTerrain st) (isDragging st) (dragOffset st)
          (controls_enabled st) (controls_target st).

(** The success callback of [loader.load] in [loadTerrain]: the new object
    is pushed to [terrains], its model is added to the scene, and it is
    positioned. *)
Definition loadTerrain (grid : Grid.t) (now : Z) (size : Dimensions.t) (model : Model.t)
    (name : string) (st : State) : State :=
  let terrain := createTerrainObject now size model name in
  let a := length (heap st) in
  positionTerrainOnGrid grid a (pushTerrain terrain st).

(** ** Pointer interaction *)

(** [onMouseDown].  The raycast is external: [hit] is [None] when no mesh
    is hit; otherwise it carries the index in [terrains] of the terrain
    found by walking up from the clicked object (if any) and the
    intersection point [(x, z)]. *)
Definition onMouseDown (hit : option (option nat * (Q * Q))) (st : State) : State :=
  match hit with
  | None => st
  | Some (found, (px, pz)) =>
      let selected :=
        match found ≫= (fun i => terrains st !! i) with
        | Some a => Some a
        | None => selectedTerrain st
        end in
      match selected ≫= (fun a => heap st !! a) with
      | Some terrain =>
          mkState (heap st) (terrains st) (scene st) selected true
                  ((px - Model.position_x (Terrain.model terrain))%Q,
                   (pz - Model.position_z (Terrain.model terrain))%Q)
                  false (controls_target st)
      | None =>
          mkState (heap st) (terrains st) (scene st) selected (isDragging st)
                  (dragOffset st) (controls_enabled st) (controls_target st)
      end
  end.

(** [onMouseMove]; [point] is the intersection of the pointer ray with the
    ground plane, [(intersectionPoint.x, intersectionPoint.z)]. *)
Definition onMouseMove (grid : Grid.t) (point : Q * Q) (st : State) : State :=
  if negb (isDragging st) then st else
  match selectedTerrain st with
  | None => st
  | Some a =>
      match heap st !! a with
      | None => st
      | Some terrain =>
          let worldX := (fst point - fst (dragOffset st))%Q in
          let worldZ := (snd point - snd (dragOffset st))%Q in
          let gridX := Math_round (worldX / inject_Z (Z.pos (Grid.cellSize grid))) in
          let gridZ := Math_round (worldZ / inject_Z (Z.pos (Grid.cellSize grid))) in
          let cellsWide := cellsWide grid terrain in
          let cellsDeep := cellsDeep grid terrain in
          if isValidGridPosition grid (registry st) gridX gridZ cellsWide cellsDeep
               (Terrain.id terrain)
          then
            store a
              (updateTerrainPosition grid
                 (Terrain.set_gridPosition (GridPosition.mk gridX gridZ) terrain)) st
          else st
      end
  end.

(** [onMouseUp]. *)
Definition onMouseUp (st : State) : State :=
  mkState (heap st) (terrains st) (scene st) None false (dragOffset st) true
          (controls_target st).

(** ** Commands addressed by terrain id *)

(** [terrains.find(p)]: the reference to the first object satisfying [p]. *)
Fixpoint find_terrain (h : list Terrain.t) (refs : list nat) (p : Terrain.t -> bool)
    : option nat :=
  match refs with
  | [] => None
  | a :: rest =>
      match h !! a with
      | Some terrain => if p terrain then Some a else find_terrain h rest p
      | None => find_terrain h rest p
      end
  end.

(** [terrains.findIndex(p)]; [None] stands for [-1]. *)
Fixpoint findIndex_terrain (h : list Terrain.t) (refs : list nat) (p : Terrain.t -> bool)
    : option nat :=
  match refs with
  | [] => None
  | a :: rest =>
      match h !! a with
      | Some terrain =>
          if p terrain then Some O else S <$> findIndex_terrain h rest p
      | None => S <$> findIndex_terrain h rest p
      end
  end.

(** [scene.remove(object)]: the first occurrence is taken out. *)
Fixpoint scene_remove (a : nat) (children : list nat) : list nat :=
  match children with
  | [] => []
  | c :: rest => if Nat.eqb c a then rest else c :: scene_remove a rest
  end.

Section Commands.

(** The external bounding-box computation
    [new THREE.Box3().setFromObject(model).getCenter(...)]. *)
Variable Box3_center : Model.t -> Q * Q * Q.

(** The order of the nearest-position search, which the specification
    leaves open: the largest radius and the offsets scanned at a radius. *)
Variable maxRadius : nat.
Variable ringOffsets : nat -> list (Z * Z).

(** Modelled from the spec: the body of [findNearestValidPosition] is not
    in [src/Script.js], only its call in [rotateTerrain].  The candidates
    at one radius: the offsets are tried in the fixed order of the list,
    the first valid candidate is returned. *)
Fixpoint scanOffsets (grid : Grid.t) (terrains : list Terrain.t) (terrain : Terrain.t)
    (previousPosition : GridPosition.t) (offsets : list (Z * Z)) : option GridPosition.t :=
  match offsets with
  | [] => None
  | (dx, dz) :: rest =>
      let x := GridPosition.x previousPosition + dx in
      let z := GridPosition.z previousPosition + dz in
      if isValidGridPosition grid terrains x z (cellsWide grid terrain)
           (cellsDeep grid terrain) (Terrain.id terrain)
      then Some (GridPosition.mk x z)
      else scanOffsets grid terrains terrain previousPosition rest
  end.

(** Modelled from the spec: the expanding-radius scan of
    [findNearestValidPosition], missing from [src/Script.js]; [n] radii
    are scanned, starting at radius [r]. *)
Fixpoint scanRadii (grid : Grid.t) (terrains : list Terrain.t) (terrain : Terrain.t)
    (previousPosition : GridPosition.t) (n r : nat) : option GridPosition.t :=
  match n with
  | O => None
  | S n' =>
      match scanOffsets grid terrains terrain previousPosition (ringOffsets r) with
      | Some position => Some position
      | None => scanRadii grid terrains terrain previousPosition n' (S r)
      end
  end.

(** Modelled from the spec: [findNearestValidPosition], called by
    [rotateTerrain] and missing from [src/Script.js].  Radii 0, 1, ...,
    [maxRadius] around [previousPosition] are scanned; when the bound is
    exhausted the result is that of [findAvailableGridPosition]. *)
Definition findNearestValidPosition (grid : Grid.t) (terrains : list Terrain.t)
    (terrain : Terrain.t) (previousPosition : GridPosition.t) : GridPosition.t :=
  match scanRadii grid terrains terrain previousPosition (S maxRadius) O with
  | Some position => position
  | None => findAvailableGridPosition grid terrains terrain
  end.

(** The first two assignments of [rotateTerrain]: the rotation advances by
    a quarter turn and width and depth are swapped. *)
Definition rotateObject (terrain : Terrain.t) : Terrain.t :=
  let terrain1 :=
    Terrain.set_rotation
      (js_rem (Terrain.rotation terrain + Math_PI / 2) (Math_PI * 2))%float terrain in
  Terrain.set_dimensions
    (Dimensions.mk (Dimensions.depth (Terrain.dimensions terrain1))
                   (Dimensions.width (Terrain.dimensions terrain1))
                   (Dimensions.height (Terrain.dimensions terrain1)))
    terrain1.

(** The position chosen by [rotateTerrain] once the dimensions are
    swapped. *)
Definition resolveAfterRotation (grid : Grid.t) (terrains : list Terrain.t)
    (terrain : Terrain.t) (currentGridPos : GridPosition.t) : GridPosition.t :=
  let cellsWide := cellsWide grid terrain in
  let cellsDeep := cellsDeep grid terrain in
  if isValidGridPosition grid terrains (GridPosition.x currentGridPos)
       (GridPosition.z currentGridPos) cellsWide cellsDeep (Terrain.id terrain)
  then currentGridPos
  else findNearestValidPosition grid terrains terrain currentGridPos.

(** [window.rotateTerrain]. *)
Definition rotateTerrain (grid : Grid.t) (terrainId : Z) (st : State) : State :=
  match find_terrain (heap st) (terrains st) (fun t => Terrain.id t =? terrainId) with
  | None => st
  | Some a =>
      match heap st !! a with
      | None => st
      | Some terrain =>
          let currentGridPos := Terrain.gridPosition terrain in
          let rotated := rotateObject terrain in
          let st1 := store a rotated st in
          let position := resolveAfterRotation grid (registry st1) rotated currentGridPos in
          store a (updateTerrainPosition grid (Terrain.set_gridPosition position rotated)) st1
      end
  end.

(** [window.centerOnTerrain]. *)
Definition centerOnTerrain (terrainId : Z) (st : State) : State :=
  match find_terrain (heap st) (terrains st) (fun t => Terrain.id t =? terrainId) with
  | None => st
  | Some a =>
      match heap st !! a with
      | None => st
      | Some terrain =>
          mkState (heap st) (terrains st) (scene st) (selectedTerrain st) (isDragging st)
                  (dragOffset st) (controls_enabled st)
                  (Some (Box3_center (Terrain.model terrain)))
      end
  end.

(** [window.removeTerrain]. *)
Definition removeTerrain (terrainId : Z) (st : State) : State :=
  match findIndex_terrain (heap st) (terrains st) (fun t => Terrain.id t =? terrainId) with
  | None => st
  | Some terrainIndex =>
      match terrains st !! terrainIndex with
      | None => st
      | Some a =>
          mkState (heap st) (delete terrainIndex (terrains st)) (scene_remove a (scene st))
                  (selectedTerrain st) (isDragging st) (dragOffset st)
                  (controls_enabled st) (controls_target st)
      end
  end.

(** ** Event sequences *)

(** The events that reach the engine. *)
Inductive Event :=
  | TerrainLoaded (now : Z) (size : Dimensions.t) (model : Model.t) (name : string)
  | PointerDown (hit : option (option nat * (Q * Q)))
  | PointerMove (point : Q * Q)
  | PointerUp
  | Rotate (terrainId : Z)
  | Focus (terrainId : Z)
  | Remove (terrainId : Z).

Definition handle (grid : Grid.t) (st : State) (e : Event) : State :=
  match e with
  | TerrainLoaded now size model name => loadTerrain grid now size model name st
  | PointerDown hit => onMouseDown hit st
  | PointerMove point => onMouseMove grid point st
  | PointerUp => onMouseUp st
  | Rotate terrainId => rotateTerrain grid terrainId st
  | Focus terrainId => centerOnTerrain terrainId st
  | Remove terrainId => removeTerrain terrainId st
  end.

Definition run (grid : Grid.t) (st : State) (events : list Event) : State :=
  fold_left (handle grid) events st.

(** ** Predicates and scenario data used by the properties *)

(** A position of the scanned range: the footprint lies between
    [-grid.size] and [grid.size] on both axes. *)
Definition inScanRange (grid : Grid.t) (cellsWide cellsDeep x z : Z) : Prop :=
  - Grid.size grid <= x <= Grid.size grid - cellsWide /\
  - Grid.size grid <= z <= Grid.size grid - cellsDeep.

(** Row-major order of the scan: rows by ascending [z], then ascending
    [x] within a row. *)
Definition scannedBefore (x' z' x z : Z) : Prop :=
  z' < z \/ (z' = z /\ x' < x).

(** The default grid, [{ size: 10, cellSize: 10 }]. *)
Definition defaultGrid : Grid.t := Grid.mk 10 10.

(** A grid of one cell per half axis. *)
Definition smallGrid : Grid.t := Grid.mk 1 10.

(** A terrain object with the given id, bounding box and position. *)
Definition terrainAt (i : Z) (w d : Q) (x z : Z) : Terrain.t :=
  Terrain.mk i EmptyString (Model.mk O 0 0 0) (GridPosition.mk x z)
             (Dimensions.mk w d 1) 0 true.

(** The cell [(i, j)] belongs to the closed-open rectangle
    [[x, x + width) * [z, z + depth)]. *)
Definition cellIn (x z width depth i j : Z) : Prop :=
  x <= i < x + width /\ z <= j < z + depth.

(** The cells of a terrain's footprint. *)
Definition occupies (grid : Grid.t) (terrain : Terrain.t) (i j : Z) : Prop :=
  cellIn (GridPosition.x (Terrain.gridPosition terrain))
         (GridPosition.z (Terrain.gridPosition terrain))
         (cellsWide grid terrain) (cellsDeep grid terrain) i j.

(** One rectangle's minimum edge on some axis is at or beyond the other's
    maximum edge on that axis. *)
Definition edgesApart (x z width depth tx tz tw td : Z) : Prop :=
  x + width <= tx \/ tx + tw <= x \/ z + depth <= tz \/ tz + td <= z.


(** The world coordinate that centers a footprint of real extent
    [dimension] in its block of cells starting at cell [gridCoordinate]. *)
Definition centeredCoordinate (cellSize : Q) (gridCoordinate : Z) (dimension : Q) : Q :=
  (inject_Z gridCoordinate * cellSize
   + (inject_Z (Qceiling (dimension / cellSize)) * cellSize - dimension) / 2)%Q.

(** The model of a terrain sits at the centered world position of its
    grid position. *)
Definition positioned (grid : Grid.t) (terrain : Terrain.t) : Prop :=
  Model.position_x (Terrain.model terrain)
  = centeredCoordinate (inject_Z (Z.pos (Grid.cellSize grid)))
      (GridPosition.x (Terrain.gridPosition terrain))
      (Dimensions.width (Terrain.dimensions terrain)) /\
  Model.position_z (Terrain.model terrain)
  = centeredCoordinate (inject_Z (Z.pos (Grid.cellSize grid)))
      (GridPosition.z (Terrain.gridPosition terrain))
      (Dimensions.depth (Terrain.dimensions terrain)).

(** ** Invariants of the registry *)

(** NO-OVERLAP: no cell belongs to the footprints of two distinct entries
    of the registry. *)
Definition NO_OVERLAP (grid : Grid.t) (ts : list Terrain.t) : Prop :=
  forall (i j : nat) (A B : Terrain.t),
    i <> j -> ts !! i = Some A -> ts !! j = Some B ->
    forall cx cz, ~ (occupies grid A cx cz /\ occupies grid B cx cz).

(** UPPER-BOUND for one terrain and for the registry. *)
Definition withinUpperBound (grid : Grid.t) (terrain : Terrain.t) : Prop :=
  GridPosition.x (Terrain.gridPosition terrain) + cellsWide grid terrain <= Grid.size grid /\
  GridPosition.z (Terrain.gridPosition terrain) + cellsDeep grid terrain <= Grid.size grid.

Definition UPPER_BOUND (grid : Grid.t) (ts : list Terrain.t) : Prop :=
  forall terrain, terrain ∈ ts -> withinUpperBound grid terrain.

(** The two invariants restricted to the entries other than entry [i],
    the one that an operation is about to commit. *)
Definition NO_OVERLAP_others (grid : Grid.t) (i : nat) (ts : list Terrain.t) : Prop :=
  forall (j k : nat) (A B : Terrain.t),
    j <> k -> j <> i -> k <> i -> ts !! j = Some A -> ts !! k = Some B ->
    forall cx cz, ~ (occupies grid A cx cz /\ occupies grid B cx cz).

Definition UPPER_BOUND_others (grid : Grid.t) (i : nat) (ts : list Terrain.t) : Prop :=
  forall (j : nat) (A : Terrain.t),
    j <> i -> ts !! j = Some A -> withinUpperBound grid A.

(** Terrain ids are unique in the registry. *)
Definition uniqueIds (ts : list Terrain.t) : Prop :=
  NoDup (Terrain.id <$> ts).

(** The [terrains] array holds each object once, and only allocated
    ones. *)
Definition wellFormed (st : State) : Prop :=
  NoDup (terrains st) /\
  forall a, a ∈ terrains st -> (a < length (heap st))%nat.

(** The state that the commits maintain. *)
Definition consistent (grid : Grid.t) (st : State) : Prop :=
  wellFormed st /\ uniqueIds (registry st) /\
  NO_OVERLAP grid (registry st) /\ UPPER_BOUND grid (registry st).

(** NO-OVERLAP between the entries that [isPositionOccupied] tells
    apart, those with different ids. *)
Definition NO_OVERLAP_ids (grid : Grid.t) (ts : list Terrain.t) : Prop :=
  forall (i j : nat) (A B : Terrain.t),
    ts !! i = Some A -> ts !! j = Some B -> Terrain.id A <> Terrain.id B ->
    forall cx cz, ~ (occupies grid A cx cz /\ occupies grid B cx cz).

Definition NO_OVERLAP_ids_others (grid : Grid.t) (i : nat) (ts : list Terrain.t) : Prop :=
  forall (j k : nat) (A B : Terrain.t),
    j <> i -> k <> i -> ts !! j = Some A -> ts !! k = Some B ->
    Terrain.id A <> Terrain.id B ->
    forall cx cz, ~ (occupies grid A cx cz /\ occupies grid B cx cz).

(** The state that the commits maintain whatever the ids are. *)
Definition separated (grid : Grid.t) (st : State) : Prop :=
  wellFormed st /\
  NO_OVERLAP_ids grid (registry st) /\ UPPER_BOUND grid (registry st).

(** The footprint of [terrain] has no free position in the scanned
    range. *)
Definition noFreeInRange (grid : Grid.t) (ts : list Terrain.t) (terrain : Terrain.t) : Prop :=
  forall x z,
    inScanRange grid (cellsWide grid terrain) (cellsDeep grid terrain) x z ->
    isPositionOccupied grid ts x z (cellsWide grid terrain) (cellsDeep grid terrain)
      (Terrain.id terrain) = true.

(** The arguments with which an event reaches the scan of
    [findAvailableGridPosition], if it does: the registry it reads and the
    terrain being positioned.  A loaded terrain always does; a rotation
    does when the position is not kept and the nearest-position search
    finds nothing. *)
Definition placementSearch (grid : Grid.t) (st : State) (e : Event)
    : option (list Terrain.t * Terrain.t) :=
  match e with
  | TerrainLoaded now size model name =>
      let terrain := createTerrainObject now size model name in
      Some (registry (pushTerrain terrain st), terrain)
  | Rotate terrainId =>
      match find_terrain (heap st) (terrains st) (fun t => Terrain.id t =? terrainId) with
      | None => None
      | Some a =>
          match heap st !! a with
          | None => None
          | Some terrain =>
              let rotated := rotateObject terrain in
              let ts := registry (store a rotated st) in
              let current := Terrain.gridPosition terrain in
              if isValidGridPosition grid ts (GridPosition.x current) (GridPosition.z current)
                   (cellsWide grid rotated) (cellsDeep grid rotated) (Terrain.id rotated)
              then None
              else
                match scanRadii grid ts rotated current (S maxRadius) O with
                | Some _ => None
                | None => Some (ts, rotated)
                end
          end
      end
  | _ => None
  end.

(** The event ends in the [(0,0)] fallback of
    [findAvailableGridPosition]. *)
Definition fallbackTaken (grid : Grid.t) (st : State) (e : Event) : bool :=
  match placementSearch grid st e with
  | Some (ts, terrain) =>
      match scanGrid grid ts (cellsWide grid terrain) (cellsDeep grid terrain)
                     (Terrain.id terrain) with
      | Some _ => false
      | None => true
      end
  | None => false
  end.

(** [Date.now()] gives a loaded terrain an id that no terrain of the
    registry has. *)
Definition freshId (st : State) (e : Event) : bool :=
  match e with
  | TerrainLoaded now _ _ _ =>
      forallb (fun t => negb (Terrain.id t =? now)) (registry st)
  | _ => true
  end.

(** A sequence of events with fresh ids in which the fallback is never
    taken. *)
Fixpoint admissible (grid : Grid.t) (st : State) (events : list Event) : bool :=
  match events with
  | [] => true
  | e :: rest =>
      freshId st e && negb (fallbackTaken grid st e)
      && admissible grid (handle grid st e) rest
  end.

(** A sequence of events in which the fallback is never taken, whatever
    the ids. *)
Fixpoint fallbackFree (grid : Grid.t) (st : State) (events : list Event) : bool :=
  match events with
  | [] => true
  | e :: rest =>
      negb (fallbackTaken grid st e) && fallbackFree grid (handle grid st e) rest
  end.

(** ** The nearest-position search in the specification's words *)

(** The candidates of the expanding-radius scan around
    [previousPosition], in scan order: radius 0, 1, ..., [maxRadius], and
    at each radius the offsets in their fixed order. *)
Definition nearestCandidates (previousPosition : GridPosition.t) : list GridPosition.t :=
  flat_map
    (fun r =>
       map (fun d : Z * Z =>
              GridPosition.mk (GridPosition.x previousPosition + fst d)
                              (GridPosition.z previousPosition + snd d))
           (ringOffsets r))
    (seq 0 (S maxRadius)).

(** Two terrain objects that differ at most in their grid position and in
    the position of their model. *)
Definition sameExceptPosition (t t' : Terrain.t) : Prop :=
  Terrain.id t' = Terrain.id t /\
  Terrain.name t' = Terrain.name t /\
  Terrain.dimensions t' = Terrain.dimensions t /\
  Terrain.rotation t' = Terrain.rotation t /\
  Terrain.visible t' = Terrain.visible t /\
  Model.mesh (Terrain.model t') = Model.mesh (Terrain.model t) /\
  (Model.rotation_y (Terrain.model t) = Terrain.rotation t ->
   Model.rotation_y (Terrain.model t') = Model.rotation_y (Terrain.model t)).

(** The angle after one more quarter turn. *)
Definition quarterTurn (r : float) : float :=
  js_rem (r + Math_PI / 2)%float (Math_PI * 2)%float.

(** The rotation of a terrain is the angle reached from 0 by some number
    of quarter turns. *)
Definition rotationInRange (t : Terrain.t) : Prop :=
  exists k : nat, Terrain.rotation t = Nat.iter k quarterTurn 0%float.

(** The state of scenario B: two terrains of 2 by 2 cells at [(0,0)] and
    [(2,0)] on the default grid, the second one being dragged. *)
Definition scenarioB : State :=
  mkState [updateTerrainPosition defaultGrid (terrainAt 1 20 20 0 0);
           updateTerrainPosition defaultGrid (terrainAt 2 20 20 2 0)]
          [O; 1%nat] [O; 1%nat] (Some 1%nat) true (0%Q, 0%Q) false None.

(** ** An instance of the collaborators, for the scenarios *)

(** A bounding-box center: the model origin on the ground plane. *)
Definition modelOrigin (m : Model.t) : Q * Q * Q :=
  (Model.position_x m, 0%Q, Model.position_z m).

(** The integers from [-r] to [r]. *)
Definition offsetsUpTo (r : nat) : list Z :=
  map (fun k => Z.of_nat k - Z.of_nat r) (seq 0 (2 * r + 1)).

(** The offsets at distance [r] in the maximum norm, row by row. *)
Definition squareRing (r : nat) : list (Z * Z) :=
  List.filter
    (fun d : Z * Z => Z.max (Z.abs (fst d)) (Z.abs (snd d)) =? Z.of_nat r)
    (flat_map (fun dz => map (fun dx => (dx, dz)) (offsetsUpTo r)) (offsetsUpTo r)).

(** A session on the default grid: two terrains are loaded, the second
    one is dragged to [(9,0)], released and rotated. *)
Definition sessionEvents : list Event :=
  [TerrainLoaded 1 (Dimensions.mk 15 5 1) (Model.mk O 0 0 0) EmptyString;
   TerrainLoaded 2 (Dimensions.mk 10 30 1) (Model.mk 1%nat 0 0 0) EmptyString;
   PointerDown (Some (Some 1%nat, ((-80)%Q, (-100)%Q)));
   PointerMove (90%Q, 0%Q);
   PointerUp;
   Rotate 2].

(** Two terrains of 2 by 1 cells loaded on the default grid within the
    same millisecond: [Date.now()] gives both the id 1. *)
Definition sameIdEvents : list Event :=
  [TerrainLoaded 1 (Dimensions.mk 15 5 1) (Model.mk O 0 0 0) EmptyString;
   TerrainLoaded 1 (Dimensions.mk 15 5 1) (Model.mk 1%nat 0 0 0) EmptyString].

(** ** Further parts of the script *)

(** [updateMousePosition]: the pointer position in normalized device
    coordinates, from [event.clientX], [event.clientY],
    [window.innerWidth] and [window.innerHeight]. *)
Definition updateMousePosition (clientX clientY innerWidth innerHeight : Q) : Q * Q :=
  ((clientX / innerWidth * 2 - 1)%Q, (- (clientY / innerHeight) * 2 + 1)%Q).

(** A material: one that came with the asset, with its optional [color],
    or the [MeshPhongMaterial] that [highlightTerrain] builds, with its
    [color], [emissive] and [emissiveIntensity]. *)
Inductive Material :=
  | AssetMaterial (handle : nat) (color : option Z)
  | PhongMaterial (color : Z) (emissive : Z) (emissiveIntensity : Q).

(** [material.color], when the material has one. *)
Definition material_color (m : Material) : option Z :=
  match m with
  | AssetMaterial _ color => color
  | PhongMaterial color _ _ => Some color
  end.

(** A node visited by [model.traverse]: [isMesh], [material] and
    [userData.originalMaterial]. *)
Record Object3D := mkObject3D {
  isMesh : bool;
  material : Material;
  originalMaterial : option Material
}.

(** The callback of [highlightTerrain] on one node. *)
Definition highlightChild (highlight : bool) (child : Object3D) : Object3D :=
  if isMesh child then
    if highlight then
      let originalColor :=
        match material_color (material child) with
        | Some color => color
        | None => 0xffffff
        end in
      mkObject3D (isMesh child)
        (PhongMaterial originalColor 0x00ff00 (3 # 10))
        (Some (material child))
    else
      match originalMaterial child with
      | Some original => mkObject3D (isMesh child) original (originalMaterial child)
      | None => child
      end
  else child.

(** [highlightTerrain(terrain, highlight)] on the nodes of
    [terrain.model], in traversal order. *)
Definition highlightTerrain (highlight : bool) (nodes : list Object3D) : list Object3D :=
  map (highlightChild highlight) nodes.

(** ** Predicates used by the further properties *)

(** What stays of a terrain object over its life: id, name, visibility,
    height and mesh; width and depth are kept or exchanged. *)
Definition sameTerrain (t t' : Terrain.t) : Prop :=
  Terrain.id t' = Terrain.id t /\
  Terrain.name t' = Terrain.name t /\
  Terrain.visible t' = Terrain.visible t /\
  Model.mesh (Terrain.model t') = Model.mesh (Terrain.model t) /\
  Dimensions.height (Terrain.dimensions t') = Dimensions.height (Terrain.dimensions t) /\
  ((Dimensions.width (Terrain.dimensions t') = Dimensions.width (Terrain.dimensions t) /\
    Dimensions.depth (Terrain.dimensions t') = Dimensions.depth (Terrain.dimensions t)) \/
   (Dimensions.width (Terrain.dimensions t') = Dimensions.depth (Terrain.dimensions t) /\
    Dimensions.depth (Terrain.dimensions t') = Dimensions.width (Terrain.dimensions t))).

(** The drag state: orbit controls are enabled exactly when no drag is in
    progress, a drag is in progress exactly when a terrain is selected,
    and the selected object is allocated. *)
Definition dragState (st : State) : Prop :=
  controls_enabled st = negb (isDragging st) /\
  (isDragging st = true <-> is_Some (selectedTerrain st)) /\
  (forall a, selectedTerrain st = Some a -> (a < length (heap st))%nat).

(** The scene holds allocated objects only. *)
Definition sceneAllocated (st : State) : Prop :=
  forall a, a ∈ scene st -> (a < length (heap st))%nat.

(** The model of a terrain is where [updateTerrainPosition] puts it. *)
Definition synchronized (grid : Grid.t) (t : Terrain.t) : Prop :=
  positioned grid t /\ Model.rotation_y (Terrain.model t) = Terrain.rotation t.

(** ** Further scenario data *)

(** The start of a session: two terrains are loaded and the second one is
    picked up at its own position. *)
Definition dragEvents : list Event :=
  [TerrainLoaded 1 (Dimensions.mk 15 5 1) (Model.mk O 0 0 0) EmptyString;
   TerrainLoaded 2 (Dimensions.mk 10 30 1) (Model.mk 1%nat 0 0 0) EmptyString;
   PointerDown (Some (Some 1%nat, ((-80)%Q, (-100)%Q)))].

(** A terrain of 21 by 1 cells is loaded on the default grid, where it
    gets the [(0,0)] fallback, and is picked up at its own position. *)
Definition oversizeDragEvents : list Event :=
  [TerrainLoaded 1 (Dimensions.mk 205 10 1) (Model.mk O 0 0 0) EmptyString;
   PointerDown (Some (Some O, ((5 # 2)%Q, 0%Q)))].

(** One terrain of 3 by 1 cells is loaded. *)
Definition loneEvents : list Event :=
  [TerrainLoaded 1 (Dimensions.mk 30 10 1) (Model.mk O 0 0 0) EmptyString].

(** ** Properties of the counted loops *)

Lemma for_loop_Some {A : Type} (n : nat) (i : Z) (body : Z -> option A) (r : A) :
  for_loop n i body = Some r ->
  exists k, i <= k < i + Z.of_nat n /\ body k = Some r /\
            forall j, i <= j < k -> body j = None.
Proof.
  revert i. induction n as [|n IH]; intros i; simpl; [discriminate|].
  destruct (body i) as [r'|] eqn:Hb.
  - intros [= ->]. exists i. split; [lia|]. split; [exact Hb|]. intros j Hj. lia.
  - intros Hrest. destruct (IH _ Hrest) as (k & Hk & Hbk & Hbefore).
    exists k. split; [lia|]. split; [exact Hbk|].
    intros j Hj. destruct (Z.eq_dec j i) as [->|Hne]; [exact Hb|].
    apply Hbefore. lia.
Qed.

Lemma for_loop_None {A : Type} (n : nat) (i : Z) (body : Z -> option A) :
  for_loop n i body = None <->
  forall j, i <= j < i + Z.of_nat n -> body j = None.
Proof.
  revert i. induction n as [|n IH]; intros i; simpl.
  - split; [intros _ j Hj; lia | reflexivity].
  - destruct (body i) as [r'|] eqn:Hb.
    + split; [discriminate|]. intros Hall.
      rewrite Hall in Hb by lia. discriminate.
    + rewrite IH. split; intros Hall j Hj.
      * destruct (Z.eq_dec j i) as [->|Hne]; [exact Hb|]. apply Hall. lia.
      * apply Hall. lia.
Qed.

Lemma for_range_Some {A : Type} (lo hi : Z) (body : Z -> option A) (r : A) :
  for_range lo hi body = Some r ->
  exists k, lo <= k < hi /\ body k = Some r /\
            forall j, lo <= j < k -> body j = None.
Proof.
  unfold for_range. intros H. apply for_loop_Some in H.
  destruct H as (k & Hk & Hbk & Hbefore). exists k.
  split; [lia|]. split; assumption.
Qed.

Lemma for_range_None {A : Type} (lo hi : Z) (body : Z -> option A) :
  for_range lo hi body = None <->
  forall j, lo <= j < hi -> body j = None.
Proof.
  unfold for_range. rewrite for_loop_None.
  split; intros Hall j Hj; apply Hall; lia.
Qed.

(** ** Properties of the scan of [findAvailableGridPosition] *)

Lemma scanGrid_Some (grid : Grid.t) (ts : list Terrain.t) (cw cd ex : Z)
    (p : GridPosition.t) :
  scanGrid grid ts cw cd ex = Some p ->
  inScanRange grid cw cd (GridPosition.x p) (GridPosition.z p) /\
  isPositionOccupied grid ts (GridPosition.x p) (GridPosition.z p) cw cd ex = false /\
  forall x' z', inScanRange grid cw cd x' z' ->
    scannedBefore x' z' (GridPosition.x p) (GridPosition.z p) ->
    isPositionOccupied grid ts x' z' cw cd ex = true.
Proof.
  unfold scanGrid. intros H.
  apply for_range_Some in H. destruct H as (z & Hz & Hrow & Hrows).
  apply for_range_Some in Hrow. destruct Hrow as (x & Hx & Hcell & Hcells).
  destruct (isPositionOccupied grid ts x z cw cd ex) eqn:Hocc; simpl in Hcell;
    [discriminate|].
  injection Hcell as <-. simpl.
  split; [unfold inScanRange; lia|]. split; [exact Hocc|].
  intros x' z' [Hx' Hz'] [Hlt|[-> Hlt]].
  - specialize (Hrows z' ltac:(lia)).
    rewrite for_range_None in Hrows. specialize (Hrows x' ltac:(lia)).
    destruct (isPositionOccupied grid ts x' z' cw cd ex); [reflexivity|discriminate].
  - specialize (Hcells x' ltac:(lia)).
    destruct (isPositionOccupied grid ts x' z cw cd ex); [reflexivity|discriminate].
Qed.

Lemma scanGrid_None (grid : Grid.t) (ts : list Terrain.t) (cw cd ex : Z) :
  scanGrid grid ts cw cd ex = None <->
  forall x z, inScanRange grid cw cd x z ->
    isPositionOccupied grid ts x z cw cd ex = true.
Proof.
  unfold scanGrid. rewrite for_range_None. split.
  - intros Hall x z [Hx Hz]. specialize (Hall z ltac:(lia)).
    rewrite for_range_None in Hall. specialize (Hall x ltac:(lia)).
    destruct (isPositionOccupied grid ts x z cw cd ex); [reflexivity|discriminate].
  - intros Hall z Hz. apply for_range_None. intros x Hx.
    rewrite Hall; [reflexivity|unfold inScanRange; lia].
Qed.

(** ** The result of [findAvailableGridPosition] *)

Lemma findAvailableGridPosition_found (grid : Grid.t) (ts : list Terrain.t)
    (terrain : Terrain.t) (x z : Z) :
  inScanRange grid (cellsWide grid terrain) (cellsDeep grid terrain) x z ->
  isPositionOccupied grid ts x z (cellsWide grid terrain) (cellsDeep grid terrain)
    (Terrain.id terrain) = false ->
  scanGrid grid ts (cellsWide grid terrain) (cellsDeep grid terrain) (Terrain.id terrain)
  = Some (findAvailableGridPosition grid ts terrain).
Proof.
  intros Hrange Hfree. unfold findAvailableGridPosition.
  destruct (scanGrid grid ts _ _ _) as [p|] eqn:Hscan; [reflexivity|].
  rewrite scanGrid_None in Hscan. rewrite (Hscan x z Hrange) in Hfree. discriminate.
Qed.

Lemma findAvailableGridPosition_fallback (grid : Grid.t) (ts : list Terrain.t)
    (terrain : Terrain.t) :
  (forall x z,
     inScanRange grid (cellsWide grid terrain) (cellsDeep grid terrain) x z ->
     isPositionOccupied grid ts x z (cellsWide grid terrain) (cellsDeep grid terrain)
       (Terrain.id terrain) = true) ->
  findAvailableGridPosition grid ts terrain = GridPosition.mk 0 0.
Proof.
  intros Hfull. apply scanGrid_None in Hfull.
  unfold findAvailableGridPosition. rewrite Hfull. reflexivity.
Qed.

(** C3.  [findAvailableGridPosition] scans the rows [z] from [-grid.size]
    to [grid.size - cellsDeep] in ascending order and, in each row, [x]
    from [-grid.size] to [grid.size - cellsWide] in ascending order: when
    some scanned position is free the result is the first free one in that
    order; when none is free the result is [(0,0)], and there are
    registries where that position overlaps an existing terrain.  On the
    empty default grid a terrain of width 15 and depth 5 occupies 2 by 1
    cells and is placed at [(-10,-10)]. *)
Theorem findAvailableGridPosition_row_major_scan :
  (forall (grid : Grid.t) (ts : list Terrain.t) (terrain : Terrain.t),
      let cw := cellsWide grid terrain in
      let cd := cellsDeep grid terrain in
      let p := findAvailableGridPosition grid ts terrain in
      ((exists x z, inScanRange grid cw cd x z /\
                    isPositionOccupied grid ts x z cw cd (Terrain.id terrain) = false) ->
       inScanRange grid cw cd (GridPosition.x p) (GridPosition.z p) /\
       isPositionOccupied grid ts (GridPosition.x p) (GridPosition.z p) cw cd
         (Terrain.id terrain) = false /\
       forall x' z', inScanRange grid cw cd x' z' ->
         scannedBefore x' z' (GridPosition.x p) (GridPosition.z p) ->
         isPositionOccupied grid ts x' z' cw cd (Terrain.id terrain) = true) /\
      ((forall x z, inScanRange grid cw cd x z ->
                    isPositionOccupied grid ts x z cw cd (Terrain.id terrain) = true) ->
       p = GridPosition.mk 0 0)) /\
  (exists (grid : Grid.t) (ts : list Terrain.t) (terrain : Terrain.t),
      (forall x z,
          inScanRange grid (cellsWide grid terrain) (cellsDeep grid terrain) x z ->
          isPositionOccupied grid ts x z (cellsWide grid terrain) (cellsDeep grid terrain)
            (Terrain.id terrain) = true) /\
      findAvailableGridPosition grid ts terrain = GridPosition.mk 0 0 /\
      isPositionOccupied grid ts 0 0 (cellsWide grid terrain) (cellsDeep grid terrain)
        (Terrain.id terrain) = true) /\
  (forall (now : Z) (h : Q) (model : Model.t) (name : string),
      exists terrain,
        registry (loadTerrain defaultGrid now (Dimensions.mk 15 5 h) model name initialState)
        = [terrain] /\
        cellsWide defaultGrid terrain = 2 /\
        cellsDeep defaultGrid terrain = 1 /\
        Terrain.gridPosition terrain = GridPosition.mk (-10) (-10)).
Proof.
  split; [|split].
  - intros grid ts terrain cw cd p. split.
    + intros (x & z & Hrange & Hfree).
      pose proof (findAvailableGridPosition_found grid ts terrain x z Hrange Hfree) as Hscan.
      apply scanGrid_Some in Hscan. exact Hscan.
    + apply findAvailableGridPosition_fallback.
  - exists smallGrid, [terrainAt 1 20 20 (-1) (-1)], (terrainAt 2 10 10 0 0).
    assert (Hnone : scanGrid smallGrid [terrainAt 1 20 20 (-1) (-1)]
                      (cellsWide smallGrid (terrainAt 2 10 10 0 0))
                      (cellsDeep smallGrid (terrainAt 2 10 10 0 0)) 2 = None)
      by (vm_compute; reflexivity).
    split; [|split].
    + apply scanGrid_None. exact Hnone.
    + vm_compute. reflexivity.
    + vm_compute. reflexivity.
  - intros now h model name. eexists. split; [|split; [|split]].
    + unfold loadTerrain, positionTerrainOnGrid, registry. simpl.
      reflexivity.
    + vm_compute. reflexivity.
    + vm_compute. reflexivity.
    + unfold updateTerrainPosition, findAvailableGridPosition. simpl.
      set (terrain := createTerrainObject _ _ _ _).
      change (cellsWide defaultGrid terrain) with 2.
      change (cellsDeep defaultGrid terrain) with 1.
      unfold scanGrid, for_range. simpl. rewrite Z.eqb_refl. reflexivity.
Qed.

(** ** The overlap test *)

Lemma noOverlap_edges (grid : Grid.t) (x z width depth : Z) (terrain : Terrain.t) :
  noOverlap grid x z width depth terrain = true <->
  edgesApart x z width depth
    (GridPosition.x (Terrain.gridPosition terrain))
    (GridPosition.z (Terrain.gridPosition terrain))
    (cellsWide grid terrain) (cellsDeep grid terrain).
Proof.
  unfold noOverlap, edgesApart.
  rewrite !orb_true_iff, !Z.leb_le. lia.
Qed.

Lemma edgesApart_no_common_cell (x z width depth tx tz tw td : Z) :
  edgesApart x z width depth tx tz tw td ->
  forall i j, ~ (cellIn x z width depth i j /\ cellIn tx tz tw td i j).
Proof. unfold edgesApart, cellIn. intros H i j. lia. Qed.

Lemma common_cell_of_overlap (x z width depth tx tz tw td : Z) :
  0 < width -> 0 < depth -> 0 < tw -> 0 < td ->
  ~ edgesApart x z width depth tx tz tw td ->
  exists i j, cellIn x z width depth i j /\ cellIn tx tz tw td i j.
Proof.
  unfold edgesApart, cellIn. intros Hw Hd Htw Htd Hnot.
  exists (Z.max x tx), (Z.max z tz). lia.
Qed.

Lemma isPositionOccupied_true (grid : Grid.t) (ts : list Terrain.t)
    (x z width depth ex : Z) :
  isPositionOccupied grid ts x z width depth ex = true <->
  exists terrain, terrain ∈ ts /\ Terrain.id terrain <> ex /\
                  noOverlap grid x z width depth terrain = false.
Proof.
  induction ts as [|t ts IH]; simpl.
  - split; [discriminate|]. intros (terrain & Hin & _). inversion Hin.
  - destruct (Terrain.id t =? ex) eqn:Hid.
    + apply Z.eqb_eq in Hid. rewrite IH. split.
      * intros (terrain & Hin & Hne & Hov). exists terrain.
        split; [right; exact Hin|]. split; assumption.
      * intros (terrain & Hin & Hne & Hov).
        apply elem_of_cons in Hin as [->|Hin]; [contradiction|].
        exists terrain. split; [exact Hin|]. split; assumption.
    + apply Z.eqb_neq in Hid.
      destruct (noOverlap grid x z width depth t) eqn:Hno; simpl.
      * rewrite IH. split.
        -- intros (terrain & Hin & Hne & Hov). exists terrain.
           split; [right; exact Hin|]. split; assumption.
        -- intros (terrain & Hin & Hne & Hov).
           apply elem_of_cons in Hin as [->|Hin]; [congruence|].
           exists terrain. split; [exact Hin|]. split; assumption.
      * split; [|reflexivity]. intros _. exists t.
        split; [left|]. split; assumption.
Qed.

Lemma isPositionOccupied_false (grid : Grid.t) (ts : list Terrain.t)
    (x z width depth ex : Z) :
  isPositionOccupied grid ts x z width depth ex = false <->
  forall terrain, terrain ∈ ts -> Terrain.id terrain <> ex ->
                  noOverlap grid x z width depth terrain = true.
Proof.
  split.
  - intros Hfree terrain Hin Hne.
    destruct (noOverlap grid x z width depth terrain) eqn:Hno; [reflexivity|].
    assert (Hocc : isPositionOccupied grid ts x z width depth ex = true)
      by (apply isPositionOccupied_true; eauto).
    congruence.
  - intros Hall.
    destruct (isPositionOccupied grid ts x z width depth ex) eqn:Hocc; [|reflexivity].
    apply isPositionOccupied_true in Hocc as (terrain & Hin & Hne & Hov).
    rewrite (Hall terrain Hin Hne) in Hov. discriminate.
Qed.

(** C5.  The overlap test of [isPositionOccupied] is the closed-open one:
    a candidate rectangle and a terrain do not overlap exactly when the
    minimum edge of one is at or beyond the maximum edge of the other on
    some axis; [isPositionOccupied] reports a position occupied exactly
    when some terrain other than the excluded one fails that test; so
    rectangles that only touch along an edge do not overlap, and for
    rectangles with at least one cell the test fails exactly when they
    share a cell. *)
Theorem isPositionOccupied_closed_open :
  forall (grid : Grid.t) (x z width depth : Z),
    (forall terrain : Terrain.t,
        let tx := GridPosition.x (Terrain.gridPosition terrain) in
        let tz := GridPosition.z (Terrain.gridPosition terrain) in
        let tw := cellsWide grid terrain in
        let td := cellsDeep grid terrain in
        (noOverlap grid x z width depth terrain = true <->
         (tx >= x + width \/ x >= tx + tw \/ tz >= z + depth \/ z >= tz + td)) /\
        (x + width = tx \/ tx + tw = x \/ z + depth = tz \/ tz + td = z ->
         noOverlap grid x z width depth terrain = true) /\
        (0 < width -> 0 < depth -> 0 < tw -> 0 < td ->
         (noOverlap grid x z width depth terrain = false <->
          exists i j, cellIn x z width depth i j /\ occupies grid terrain i j))) /\
    (forall (ts : list Terrain.t) (ex : Z),
        isPositionOccupied grid ts x z width depth ex = true <->
        exists terrain, terrain ∈ ts /\ Terrain.id terrain <> ex /\
                        noOverlap grid x z width depth terrain = false).
Proof.
  intros grid x z width depth. split.
  - intros terrain tx tz tw td. split; [|split].
    + rewrite noOverlap_edges. unfold edgesApart. subst tx tz tw td. lia.
    + intros Htouch. apply noOverlap_edges. unfold edgesApart.
      subst tx tz tw td. lia.
    + intros Hw Hd Htw Htd. split.
      * intros Hov. apply common_cell_of_overlap; try assumption.
        intros Hapart. apply noOverlap_edges in Hapart. congruence.
      * intros (i & j & Hc).
        destruct (noOverlap grid x z width depth terrain) eqn:Hno; [|reflexivity].
        apply noOverlap_edges in Hno.
        exfalso. exact (edgesApart_no_common_cell _ _ _ _ _ _ _ _ Hno i j Hc).
  - intros ts ex. apply isPositionOccupied_true.
Qed.

(** ** Footprint and world position *)

Lemma cellSize_pos (grid : Grid.t) : (0 < inject_Z (Z.pos (Grid.cellSize grid)))%Q.
Proof. rewrite <- (Zlt_Qlt 0). lia. Qed.












(** ** References and the registry *)

Lemma deref_cons (h : list Terrain.t) (a : nat) (refs : list nat) :
  deref h (a :: refs)
  = match h !! a with
    | Some t => t :: deref h refs
    | None => deref h refs
    end.
Proof. reflexivity. Qed.

Lemma deref_insert_notin (h : list Terrain.t) (refs : list nat) (a : nat) (t : Terrain.t) :
  a ∉ refs -> deref (<[a := t]> h) refs = deref h refs.
Proof.
  induction refs as [|b refs IH]; intros Hnotin; [reflexivity|].
  apply not_elem_of_cons in Hnotin as [Hne Hnotin].
  rewrite !deref_cons, list_lookup_insert_ne by exact Hne.
  rewrite IH by exact Hnotin. reflexivity.
Qed.

Lemma deref_insert_in (h : list Terrain.t) (refs : list nat) (i a : nat) (t : Terrain.t) :
  NoDup refs ->
  (forall b, b ∈ refs -> (b < length h)%nat) ->
  refs !! i = Some a ->
  deref (<[a := t]> h) refs = <[i := t]> (deref h refs).
Proof.
  revert i. induction refs as [|b refs IH]; intros i Hnd Hvalid Hi; [discriminate|].
  apply NoDup_cons in Hnd as [Hb Hnd].
  assert (Hlt : (b < length h)%nat) by (apply Hvalid; left).
  destruct (lookup_lt_is_Some_2 h b Hlt) as [tb Htb].
  rewrite !deref_cons, Htb.
  destruct i as [|i]; simpl in Hi.
  - injection Hi as ->.
    rewrite list_lookup_insert_eq by exact Hlt.
    rewrite deref_insert_notin by exact Hb. reflexivity.
  - assert (Hne : a <> b).
    { intros ->. apply Hb. apply list_elem_of_lookup. eauto. }
    rewrite list_lookup_insert_ne by exact Hne. rewrite Htb. simpl.
    f_equal. apply IH; [exact Hnd| |exact Hi].
    intros c Hc. apply Hvalid. right. exact Hc.
Qed.

Lemma deref_lookup (h : list Terrain.t) (refs : list nat) (i a : nat) :
  (forall b, b ∈ refs -> (b < length h)%nat) ->
  refs !! i = Some a ->
  deref h refs !! i = h !! a.
Proof.
  revert i. induction refs as [|b refs IH]; intros i Hvalid Hi; [discriminate|].
  assert (Hlt : (b < length h)%nat) by (apply Hvalid; left).
  destruct (lookup_lt_is_Some_2 h b Hlt) as [tb Htb].
  rewrite deref_cons, Htb. destruct i as [|i]; simpl in Hi |- *.
  - injection Hi as <-. symmetry. exact Htb.
  - apply IH; [|exact Hi]. intros c Hc. apply Hvalid. right. exact Hc.
Qed.

Lemma deref_length (h : list Terrain.t) (refs : list nat) :
  (forall b, b ∈ refs -> (b < length h)%nat) ->
  length (deref h refs) = length refs.
Proof.
  induction refs as [|b refs IH]; intros Hvalid; [reflexivity|].
  assert (Hlt : (b < length h)%nat) by (apply Hvalid; left).
  destruct (lookup_lt_is_Some_2 h b Hlt) as [tb Htb].
  rewrite deref_cons, Htb. simpl. f_equal. apply IH.
  intros c Hc. apply Hvalid. right. exact Hc.
Qed.

Lemma deref_app_heap (h : list Terrain.t) (refs : list nat) (t : Terrain.t) :
  (forall b, b ∈ refs -> (b < length h)%nat) ->
  deref (h ++ [t]) refs = deref h refs.
Proof.
  induction refs as [|b refs IH]; intros Hvalid; [reflexivity|].
  assert (Hlt : (b < length h)%nat) by (apply Hvalid; left).
  rewrite !deref_cons, lookup_app_l by exact Hlt.
  rewrite IH; [reflexivity|]. intros c Hc. apply Hvalid. right. exact Hc.
Qed.

Lemma deref_push (h : list Terrain.t) (refs : list nat) (t : Terrain.t) :
  (forall b, b ∈ refs -> (b < length h)%nat) ->
  deref (h ++ [t]) (refs ++ [length h]) = deref h refs ++ [t].
Proof.
  intros Hvalid. unfold deref. rewrite omap_app. fold (deref (h ++ [t]) refs).
  rewrite deref_app_heap by exact Hvalid. f_equal.
  simpl. rewrite list_lookup_middle by reflexivity. reflexivity.
Qed.

Lemma deref_delete (h : list Terrain.t) (refs : list nat) (i : nat) :
  (forall b, b ∈ refs -> (b < length h)%nat) ->
  deref h (delete i refs) = delete i (deref h refs).
Proof.
  revert i. induction refs as [|b refs IH]; intros i Hvalid; [reflexivity|].
  assert (Hlt : (b < length h)%nat) by (apply Hvalid; left).
  destruct (lookup_lt_is_Some_2 h b Hlt) as [tb Htb].
  destruct i as [|i].
  - rewrite deref_cons, Htb. reflexivity.
  - change (delete (S i) (b :: refs)) with (b :: delete i refs).
    rewrite !deref_cons, Htb.
    change (delete (S i) (tb :: deref h refs)) with (tb :: delete i (deref h refs)).
    f_equal. apply IH.
    intros c Hc. apply Hvalid. right. exact Hc.
Qed.

Lemma elem_of_deref (h : list Terrain.t) (refs : list nat) (t : Terrain.t) :
  t ∈ deref h refs <-> exists a, a ∈ refs /\ h !! a = Some t.
Proof. unfold deref. apply list_elem_of_omap. Qed.

Lemma find_terrain_Some (h : list Terrain.t) (refs : list nat) (p : Terrain.t -> bool)
    (a : nat) :
  find_terrain h refs p = Some a ->
  exists i t, refs !! i = Some a /\ h !! a = Some t /\ p t = true.
Proof.
  induction refs as [|b refs IH]; simpl; [discriminate|].
  destruct (h !! b) as [tb|] eqn:Htb.
  - destruct (p tb) eqn:Hp.
    + intros [= <-]. exists O, tb. auto.
    + intros Hfind. destruct (IH Hfind) as (i & t & Hi & Ht & Hpt).
      exists (S i), t. auto.
  - intros Hfind. destruct (IH Hfind) as (i & t & Hi & Ht & Hpt).
    exists (S i), t. auto.
Qed.

Lemma find_terrain_None (h : list Terrain.t) (refs : list nat) (p : Terrain.t -> bool) :
  find_terrain h refs p = None <->
  forall t, t ∈ deref h refs -> p t = false.
Proof.
  induction refs as [|b refs IH].
  - split; [|reflexivity]. intros _ t Hin. inversion Hin.
  - rewrite deref_cons. cbn [find_terrain].
    destruct (h !! b) as [tb|] eqn:Htb; [|exact IH].
    destruct (p tb) eqn:Hp.
    + split; [discriminate|]. intros Hall.
      rewrite (Hall tb) in Hp by left. discriminate.
    + rewrite IH. split.
      * intros Hall t Hin. apply elem_of_cons in Hin as [->|Hin]; auto.
      * intros Hall t Hin. apply Hall. right. exact Hin.
Qed.

Lemma findIndex_terrain_None (h : list Terrain.t) (refs : list nat)
    (p : Terrain.t -> bool) :
  findIndex_terrain h refs p = None <-> find_terrain h refs p = None.
Proof.
  induction refs as [|b refs IH]; simpl; [reflexivity|].
  destruct (h !! b) as [tb|].
  - destruct (p tb); [split; discriminate|].
    rewrite <- IH. destruct (findIndex_terrain h refs p); simpl; split; congruence.
  - rewrite <- IH. destruct (findIndex_terrain h refs p); simpl; split; congruence.
Qed.

Lemma findIndex_terrain_Some (h : list Terrain.t) (refs : list nat)
    (p : Terrain.t -> bool) (i : nat) :
  findIndex_terrain h refs p = Some i -> is_Some (refs !! i).
Proof.
  revert i. induction refs as [|b refs IH]; intros i; simpl; [discriminate|].
  assert (Hrest : S <$> findIndex_terrain h refs p = Some i -> is_Some ((b :: refs) !! i)).
  { destruct (findIndex_terrain h refs p) as [k|]; simpl; [|discriminate].
    intros [= <-]. simpl. apply IH. reflexivity. }
  destruct (h !! b) as [tb|]; [|exact Hrest].
  destruct (p tb); [|exact Hrest].
  intros [= <-]. simpl. eauto.
Qed.

(** A store that keeps the value of [p] on the stored object does not
    change what [find] returns. *)
Lemma find_terrain_insert (h : list Terrain.t) (refs : list nat) (p : Terrain.t -> bool)
    (a : nat) (t t' : Terrain.t) :
  h !! a = Some t -> p t' = p t ->
  find_terrain (<[a := t']> h) refs p = find_terrain h refs p.
Proof.
  intros Ha Hp. induction refs as [|b refs IH]; simpl; [reflexivity|].
  destruct (decide (b = a)) as [->|Hne].
  - rewrite list_lookup_insert_eq by (eapply lookup_lt_Some; exact Ha).
    rewrite Ha, Hp, IH. reflexivity.
  - rewrite list_lookup_insert_ne by congruence. rewrite IH. reflexivity.
Qed.

(** ** Commits preserve the invariants *)

Lemma isValidGridPosition_true (grid : Grid.t) (ts : list Terrain.t)
    (x z width depth ex : Z) :
  isValidGridPosition grid ts x z width depth ex = true <->
  x + width <= Grid.size grid /\ z + depth <= Grid.size grid /\
  isPositionOccupied grid ts x z width depth ex = false.
Proof.
  unfold isValidGridPosition.
  rewrite !andb_true_iff, negb_true_iff, !Z.leb_le.
  split; [intros [[Hx Hz] Hfree]|intros (Hx & Hz & Hfree)]; auto.
Qed.

Lemma noOverlap_disjoint (grid : Grid.t) (A B : Terrain.t) :
  noOverlap grid (GridPosition.x (Terrain.gridPosition A))
    (GridPosition.z (Terrain.gridPosition A)) (cellsWide grid A) (cellsDeep grid A) B
  = true ->
  forall cx cz, ~ (occupies grid A cx cz /\ occupies grid B cx cz).
Proof.
  intros Hno. apply noOverlap_edges in Hno.
  exact (edgesApart_no_common_cell _ _ _ _ _ _ _ _ Hno).
Qed.

Lemma uniqueIds_lookup (ts : list Terrain.t) (i j : nat) (A B : Terrain.t) :
  uniqueIds ts -> ts !! i = Some A -> ts !! j = Some B ->
  Terrain.id A = Terrain.id B -> i = j.
Proof.
  unfold uniqueIds. intros Hnd HA HB Hid.
  apply (NoDup_lookup (Terrain.id <$> ts) i j (Terrain.id A) Hnd).
  - rewrite list_lookup_fmap, HA. reflexivity.
  - rewrite list_lookup_fmap, HB, Hid. reflexivity.
Qed.

Lemma uniqueIds_insert (ts : list Terrain.t) (i : nat) (t1 t' : Terrain.t) :
  ts !! i = Some t1 -> Terrain.id t' = Terrain.id t1 ->
  uniqueIds ts -> uniqueIds (<[i := t']> ts).
Proof.
  unfold uniqueIds. intros Hi Hid Hnd.
  rewrite list_fmap_insert, list_insert_id; [exact Hnd|].
  rewrite list_lookup_fmap, Hi, Hid. reflexivity.
Qed.

(** The commit of a position validated by [isValidGridPosition]. *)
Lemma commit_preserves (grid : Grid.t) (ts : list Terrain.t) (i : nat)
    (t1 t' : Terrain.t) :
  ts !! i = Some t1 ->
  Terrain.id t' = Terrain.id t1 ->
  uniqueIds ts ->
  NO_OVERLAP_others grid i ts ->
  UPPER_BOUND_others grid i ts ->
  isValidGridPosition grid ts
    (GridPosition.x (Terrain.gridPosition t')) (GridPosition.z (Terrain.gridPosition t'))
    (cellsWide grid t') (cellsDeep grid t') (Terrain.id t') = true ->
  NO_OVERLAP grid (<[i := t']> ts) /\
  UPPER_BOUND grid (<[i := t']> ts) /\
  uniqueIds (<[i := t']> ts).
Proof.
  intros Hi Hid Huniq Hno Hub Hvalid.
  apply isValidGridPosition_true in Hvalid as (Hx & Hz & Hfree).
  assert (Hothers : forall j u, j <> i -> ts !! j = Some u ->
            forall cx cz, ~ (occupies grid t' cx cz /\ occupies grid u cx cz)).
  { intros j u Hj Hu. apply noOverlap_disjoint.
    apply (proj1 (isPositionOccupied_false _ _ _ _ _ _ _) Hfree).
    - apply list_elem_of_lookup. eauto.
    - rewrite Hid. intros Heq. apply Hj.
      exact (uniqueIds_lookup ts j i u t1 Huniq Hu Hi Heq). }
  pose proof (lookup_lt_Some _ _ _ Hi) as Hlt.
  split; [|split].
  - intros j k A B Hjk HA HB cx cz.
    destruct (decide (j = i)) as [->|Hj]; destruct (decide (k = i)) as [->|Hk].
    + contradiction.
    + rewrite list_lookup_insert_eq in HA by exact Hlt. injection HA as <-.
      rewrite list_lookup_insert_ne in HB by congruence.
      exact (Hothers k B Hk HB cx cz).
    + rewrite list_lookup_insert_eq in HB by exact Hlt. injection HB as <-.
      rewrite list_lookup_insert_ne in HA by congruence.
      intros [HcA HcB]. exact (Hothers j A Hj HA cx cz (conj HcB HcA)).
    + rewrite list_lookup_insert_ne in HA by congruence.
      rewrite list_lookup_insert_ne in HB by congruence.
      exact (Hno j k A B Hjk Hj Hk HA HB cx cz).
  - intros u Hu. apply list_elem_of_lookup in Hu as [j Hj].
    destruct (decide (j = i)) as [->|Hne].
    + rewrite list_lookup_insert_eq in Hj by exact Hlt. injection Hj as <-.
      split; assumption.
    + rewrite list_lookup_insert_ne in Hj by congruence.
      exact (Hub j u Hne Hj).
  - exact (uniqueIds_insert ts i t1 t' Hi Hid Huniq).
Qed.

Lemma NO_OVERLAP_weaken (grid : Grid.t) (i : nat) (ts : list Terrain.t) :
  NO_OVERLAP grid ts -> NO_OVERLAP_others grid i ts.
Proof. intros Hno j k A B Hjk _ _. apply Hno. exact Hjk. Qed.

Lemma UPPER_BOUND_weaken (grid : Grid.t) (i : nat) (ts : list Terrain.t) :
  UPPER_BOUND grid ts -> UPPER_BOUND_others grid i ts.
Proof.
  intros Hub j A _ Hj. apply Hub. apply list_elem_of_lookup. eauto.
Qed.

Lemma NO_OVERLAP_others_insert (grid : Grid.t) (i : nat) (ts : list Terrain.t)
    (t : Terrain.t) :
  NO_OVERLAP_others grid i ts -> NO_OVERLAP_others grid i (<[i := t]> ts).
Proof.
  intros Hno j k A B Hjk Hj Hk HA HB.
  rewrite list_lookup_insert_ne in HA by congruence.
  rewrite list_lookup_insert_ne in HB by congruence.
  exact (Hno j k A B Hjk Hj Hk HA HB).
Qed.

Lemma UPPER_BOUND_others_insert (grid : Grid.t) (i : nat) (ts : list Terrain.t)
    (t : Terrain.t) :
  UPPER_BOUND_others grid i ts -> UPPER_BOUND_others grid i (<[i := t]> ts).
Proof.
  intros Hub j A Hj HA.
  rewrite list_lookup_insert_ne in HA by congruence.
  exact (Hub j A Hj HA).
Qed.

Lemma NO_OVERLAP_others_push (grid : Grid.t) (ts : list Terrain.t) (t : Terrain.t) :
  NO_OVERLAP grid ts -> NO_OVERLAP_others grid (length ts) (ts ++ [t]).
Proof.
  intros Hno j k A B Hjk Hj Hk HA HB.
  assert (Hjlt : (j < length ts)%nat).
  { apply lookup_lt_Some in HA. rewrite length_app in HA. simpl in HA. lia. }
  assert (Hklt : (k < length ts)%nat).
  { apply lookup_lt_Some in HB. rewrite length_app in HB. simpl in HB. lia. }
  rewrite lookup_app_l in HA by exact Hjlt.
  rewrite lookup_app_l in HB by exact Hklt.
  exact (Hno j k A B Hjk HA HB).
Qed.

Lemma UPPER_BOUND_others_push (grid : Grid.t) (ts : list Terrain.t) (t : Terrain.t) :
  UPPER_BOUND grid ts -> UPPER_BOUND_others grid (length ts) (ts ++ [t]).
Proof.
  intros Hub j A Hj HA.
  assert (Hjlt : (j < length ts)%nat).
  { apply lookup_lt_Some in HA. rewrite length_app in HA. simpl in HA. lia. }
  rewrite lookup_app_l in HA by exact Hjlt.
  apply Hub. apply list_elem_of_lookup. eauto.
Qed.

Lemma uniqueIds_push (ts : list Terrain.t) (t : Terrain.t) :
  uniqueIds ts ->
  forallb (fun u => negb (Terrain.id u =? Terrain.id t)) ts = true ->
  uniqueIds (ts ++ [t]).
Proof.
  unfold uniqueIds. intros Hnd Hfresh. rewrite fmap_app.
  apply NoDup_app. split; [exact Hnd|]. split; [|apply NoDup_singleton].
  intros i Hi Hin. apply list_elem_of_singleton in Hin. subst i.
  apply list_elem_of_fmap in Hi as (u & Hid & Hu).
  rewrite forallb_forall in Hfresh.
  specialize (Hfresh u (proj1 (list_elem_of_In _ _) Hu)).
  apply negb_true_iff, Z.eqb_neq in Hfresh. congruence.
Qed.

Lemma NO_OVERLAP_delete (grid : Grid.t) (i : nat) (ts : list Terrain.t) :
  NO_OVERLAP grid ts -> NO_OVERLAP grid (delete i ts).
Proof.
  intros Hno j k A B Hjk HA HB.
  destruct (decide (j < i)%nat) as [Hj|Hj]; destruct (decide (k < i)%nat) as [Hk|Hk].
  - rewrite list_lookup_delete_lt in HA by exact Hj.
    rewrite list_lookup_delete_lt in HB by exact Hk.
    exact (Hno j k A B Hjk HA HB).
  - rewrite list_lookup_delete_lt in HA by exact Hj.
    rewrite list_lookup_delete_ge in HB by lia.
    apply (Hno j (S k) A B); [lia|exact HA|exact HB].
  - rewrite list_lookup_delete_ge in HA by lia.
    rewrite list_lookup_delete_lt in HB by exact Hk.
    apply (Hno (S j) k A B); [lia|exact HA|exact HB].
  - rewrite list_lookup_delete_ge in HA by lia.
    rewrite list_lookup_delete_ge in HB by lia.
    apply (Hno (S j) (S k) A B); [lia|exact HA|exact HB].
Qed.

Lemma UPPER_BOUND_delete (grid : Grid.t) (i : nat) (ts : list Terrain.t) :
  UPPER_BOUND grid ts -> UPPER_BOUND grid (delete i ts).
Proof.
  intros Hub t Ht. apply Hub. exact (elem_of_sublist _ _ _ Ht (sublist_delete ts i)).
Qed.

Lemma uniqueIds_delete (i : nat) (ts : list Terrain.t) :
  uniqueIds ts -> uniqueIds (delete i ts).
Proof.
  unfold uniqueIds. intros Hnd. rewrite list_fmap_delete.
  exact (sublist_NoDup _ _ Hnd (sublist_delete _ i)).
Qed.

(** ** Positions found by the searches are valid *)

Lemma scanGrid_valid (grid : Grid.t) (ts : list Terrain.t) (cw cd ex : Z)
    (p : GridPosition.t) :
  scanGrid grid ts cw cd ex = Some p ->
  isValidGridPosition grid ts (GridPosition.x p) (GridPosition.z p) cw cd ex = true.
Proof.
  intros Hscan. apply scanGrid_Some in Hscan as ([Hx Hz] & Hfree & _).
  apply isValidGridPosition_true. split; [lia|]. split; [lia|exact Hfree].
Qed.

Lemma scanOffsets_valid (grid : Grid.t) (ts : list Terrain.t) (terrain : Terrain.t)
    (prev : GridPosition.t) (offsets : list (Z * Z)) (p : GridPosition.t) :
  scanOffsets grid ts terrain prev offsets = Some p ->
  isValidGridPosition grid ts (GridPosition.x p) (GridPosition.z p)
    (cellsWide grid terrain) (cellsDeep grid terrain) (Terrain.id terrain) = true.
Proof.
  induction offsets as [|[dx dz] offsets IH]; simpl; [discriminate|].
  destruct (isValidGridPosition grid ts (GridPosition.x prev + dx)
              (GridPosition.z prev + dz) (cellsWide grid terrain)
              (cellsDeep grid terrain) (Terrain.id terrain)) eqn:Hvalid; [|exact IH].
  intros [= <-]. exact Hvalid.
Qed.

Lemma scanRadii_valid (grid : Grid.t) (ts : list Terrain.t) (terrain : Terrain.t)
    (prev : GridPosition.t) (n r : nat) (p : GridPosition.t) :
  scanRadii grid ts terrain prev n r = Some p ->
  isValidGridPosition grid ts (GridPosition.x p) (GridPosition.z p)
    (cellsWide grid terrain) (cellsDeep grid terrain) (Terrain.id terrain) = true.
Proof.
  revert r. induction n as [|n IH]; intros r; simpl; [discriminate|].
  destruct (scanOffsets grid ts terrain prev (ringOffsets r)) as [q|] eqn:Hring.
  - intros [= <-]. exact (scanOffsets_valid _ _ _ _ _ _ Hring).
  - apply IH.
Qed.

(** ** Events preserve the invariants *)

Lemma wellFormed_store (a : nat) (t : Terrain.t) (st : State) :
  wellFormed st -> wellFormed (store a t st).
Proof.
  intros [Hnd Hvalid]. split; [exact Hnd|].
  intros b Hb. simpl. rewrite length_insert. exact (Hvalid b Hb).
Qed.

Lemma registry_store_in (a i : nat) (t : Terrain.t) (st : State) :
  wellFormed st -> terrains st !! i = Some a ->
  registry (store a t st) = <[i := t]> (registry st).
Proof.
  intros [Hnd Hvalid] Hi. unfold registry. simpl.
  exact (deref_insert_in _ _ _ _ _ Hnd Hvalid Hi).
Qed.

Lemma registry_store_notin (a : nat) (t : Terrain.t) (st : State) :
  a ∉ terrains st -> registry (store a t st) = registry st.
Proof. intros Hnotin. unfold registry. simpl. exact (deref_insert_notin _ _ _ _ Hnotin). Qed.

Lemma registry_lookup (a i : nat) (st : State) :
  wellFormed st -> terrains st !! i = Some a ->
  registry st !! i = heap st !! a.
Proof. intros [_ Hvalid] Hi. exact (deref_lookup _ _ _ _ Hvalid Hi). Qed.

Lemma store_commit (grid : Grid.t) (st : State) (a i : nat) (t1 t' : Terrain.t) :
  wellFormed st ->
  terrains st !! i = Some a ->
  heap st !! a = Some t1 ->
  Terrain.id t' = Terrain.id t1 ->
  uniqueIds (registry st) ->
  NO_OVERLAP_others grid i (registry st) ->
  UPPER_BOUND_others grid i (registry st) ->
  isValidGridPosition grid (registry st)
    (GridPosition.x (Terrain.gridPosition t')) (GridPosition.z (Terrain.gridPosition t'))
    (cellsWide grid t') (cellsDeep grid t') (Terrain.id t') = true ->
  consistent grid (store a t' st).
Proof.
  intros Hwf Hi Ha Hid Huniq Hno Hub Hvalid.
  split; [exact (wellFormed_store a t' st Hwf)|].
  rewrite (registry_store_in a i t' st Hwf Hi).
  assert (Hreg : registry st !! i = Some t1)
    by (rewrite (registry_lookup a i st Hwf Hi); exact Ha).
  destruct (commit_preserves grid (registry st) i t1 t' Hreg Hid Huniq Hno Hub Hvalid)
    as (H1 & H2 & H3).
  auto.
Qed.

Lemma wellFormed_pushTerrain (t : Terrain.t) (st : State) :
  wellFormed st -> wellFormed (pushTerrain t st).
Proof.
  intros [Hnd Hvalid]. split; simpl.
  - apply NoDup_app. split; [exact Hnd|]. split; [|apply NoDup_singleton].
    intros b Hb Hin. apply list_elem_of_singleton in Hin. subst b.
    specialize (Hvalid _ Hb). lia.
  - intros b Hb. rewrite length_app. simpl.
    apply elem_of_app in Hb as [Hb|Hb].
    + specialize (Hvalid _ Hb). lia.
    + apply list_elem_of_singleton in Hb. subst b. lia.
Qed.

Lemma registry_pushTerrain (t : Terrain.t) (st : State) :
  wellFormed st -> registry (pushTerrain t st) = registry st ++ [t].
Proof. intros [_ Hvalid]. unfold registry. simpl. exact (deref_push _ _ _ Hvalid). Qed.

Lemma registry_length (st : State) :
  wellFormed st -> length (registry st) = length (terrains st).
Proof. intros [_ Hvalid]. exact (deref_length _ _ Hvalid). Qed.

Lemma loadTerrain_consistent (grid : Grid.t) (now : Z) (size : Dimensions.t)
    (model : Model.t) (name : string) (st : State) :
  consistent grid st ->
  freshId st (TerrainLoaded now size model name) = true ->
  fallbackTaken grid st (TerrainLoaded now size model name) = false ->
  consistent grid (loadTerrain grid now size model name st).
Proof.
  intros (Hwf & Huniq & Hno & Hub) Hfresh Hfall.
  unfold loadTerrain, positionTerrainOnGrid.
  set (t0 := createTerrainObject now size model name) in *.
  pose proof (wellFormed_pushTerrain t0 st Hwf) as Hwf1.
  assert (Ha : heap (pushTerrain t0 st) !! length (heap st) = Some t0)
    by (simpl; apply list_lookup_middle; reflexivity).
  rewrite Ha.
  assert (Hi : terrains (pushTerrain t0 st) !! length (terrains st) = Some (length (heap st)))
    by (simpl; apply list_lookup_middle; reflexivity).
  unfold fallbackTaken, placementSearch in Hfall. fold t0 in Hfall.
  unfold findAvailableGridPosition.
  destruct (scanGrid grid (registry (pushTerrain t0 st)) (cellsWide grid t0)
              (cellsDeep grid t0) (Terrain.id t0)) as [p|] eqn:Hscan; [|discriminate].
  apply (store_commit grid _ _ (length (terrains st)) t0); try assumption.
  - reflexivity.
  - rewrite (registry_pushTerrain t0 st Hwf).
    apply uniqueIds_push; [exact Huniq|exact Hfresh].
  - rewrite (registry_pushTerrain t0 st Hwf), <- (registry_length st Hwf).
    apply NO_OVERLAP_others_push. exact Hno.
  - rewrite (registry_pushTerrain t0 st Hwf), <- (registry_length st Hwf).
    apply UPPER_BOUND_others_push. exact Hub.
  - exact (scanGrid_valid _ _ _ _ _ _ Hscan).
Qed.

Lemma onMouseMove_consistent (grid : Grid.t) (point : Q * Q) (st : State) :
  consistent grid st -> consistent grid (onMouseMove grid point st).
Proof.
  intros Hc. pose proof Hc as (Hwf & Huniq & Hno & Hub).
  unfold onMouseMove.
  destruct (isDragging st); simpl; [|exact Hc].
  destruct (selectedTerrain st) as [a|]; [|exact Hc].
  destruct (heap st !! a) as [terrain|] eqn:Ha; [|exact Hc].
  destruct (isValidGridPosition grid (registry st) _ _ _ _ _) eqn:Hvalid; [|exact Hc].
  destruct (decide (a ∈ terrains st)) as [Hin|Hnotin].
  - apply list_elem_of_lookup in Hin as [i Hi].
    apply (store_commit grid st a i terrain); try assumption.
    + reflexivity.
    + apply NO_OVERLAP_weaken. exact Hno.
    + apply UPPER_BOUND_weaken. exact Hub.
  - split; [exact (wellFormed_store _ _ _ Hwf)|].
    rewrite (registry_store_notin _ _ _ Hnotin). auto.
Qed.

Lemma resolveAfterRotation_valid (grid : Grid.t) (ts : list Terrain.t)
    (terrain : Terrain.t) (current : GridPosition.t) :
  let p := resolveAfterRotation grid ts terrain current in
  isValidGridPosition grid ts (GridPosition.x p) (GridPosition.z p)
    (cellsWide grid terrain) (cellsDeep grid terrain) (Terrain.id terrain) = true \/
  (isValidGridPosition grid ts (GridPosition.x current) (GridPosition.z current)
     (cellsWide grid terrain) (cellsDeep grid terrain) (Terrain.id terrain) = false /\
   scanRadii grid ts terrain current (S maxRadius) O = None /\
   scanGrid grid ts (cellsWide grid terrain) (cellsDeep grid terrain)
     (Terrain.id terrain) = None).
Proof.
  unfold resolveAfterRotation, findNearestValidPosition, findAvailableGridPosition.
  destruct (isValidGridPosition grid ts (GridPosition.x current) (GridPosition.z current)
              (cellsWide grid terrain) (cellsDeep grid terrain) (Terrain.id terrain))
    eqn:Hkeep; [left; exact Hkeep|].
  destruct (scanRadii grid ts terrain current (S maxRadius) O) as [p|] eqn:Hnear.
  - left. exact (scanRadii_valid _ _ _ _ _ _ _ Hnear).
  - destruct (scanGrid grid ts (cellsWide grid terrain) (cellsDeep grid terrain)
                (Terrain.id terrain)) as [p|] eqn:Hscan.
    + left. exact (scanGrid_valid _ _ _ _ _ _ Hscan).
    + right. auto.
Qed.

Lemma rotateTerrain_consistent (grid : Grid.t) (terrainId : Z) (st : State) :
  consistent grid st ->
  fallbackTaken grid st (Rotate terrainId) = false ->
  consistent grid (rotateTerrain grid terrainId st).
Proof.
  intros Hc Hfall. pose proof Hc as (Hwf & Huniq & Hno & Hub).
  unfold rotateTerrain. unfold fallbackTaken, placementSearch in Hfall.
  destruct (find_terrain (heap st) (terrains st) (fun t => Terrain.id t =? terrainId))
    as [a|] eqn:Hfind; [|exact Hc].
  destruct (find_terrain_Some _ _ _ _ Hfind) as (i & t & Hi & Ha & _).
  rewrite Ha in Hfall |- *.
  set (rotated := rotateObject t) in *.
  set (st1 := store a rotated st) in *.
  pose proof (wellFormed_store a rotated st Hwf) as Hwf1.
  assert (Hreg : registry st !! i = Some t)
    by (rewrite (registry_lookup a i st Hwf Hi); exact Ha).
  assert (Hreg1 : registry st1 = <[i := rotated]> (registry st))
    by exact (registry_store_in a i rotated st Hwf Hi).
  assert (Ha1 : heap st1 !! a = Some rotated).
  { simpl. apply list_lookup_insert_eq. eapply lookup_lt_Some. exact Ha. }
  apply (store_commit grid st1 a i rotated); try assumption.
  - reflexivity.
  - rewrite Hreg1. exact (uniqueIds_insert _ _ t rotated Hreg eq_refl Huniq).
  - rewrite Hreg1. apply NO_OVERLAP_others_insert, NO_OVERLAP_weaken. exact Hno.
  - rewrite Hreg1. apply UPPER_BOUND_others_insert, UPPER_BOUND_weaken. exact Hub.
  - destruct (resolveAfterRotation_valid grid (registry st1) rotated
                (Terrain.gridPosition t)) as [Hok|(Hkeep & Hnear & Hscan)];
      [exact Hok|].
    exfalso. rewrite Hkeep, Hnear, Hscan in Hfall. discriminate.
Qed.

Lemma removeTerrain_consistent (grid : Grid.t) (terrainId : Z) (st : State) :
  consistent grid st -> consistent grid (removeTerrain terrainId st).
Proof.
  intros Hc. pose proof Hc as ((Hnd & Hvalid) & Huniq & Hno & Hub).
  unfold removeTerrain.
  destruct (findIndex_terrain _ _ _) as [i|]; [|exact Hc].
  destruct (terrains st !! i) as [a|]; [|exact Hc].
  assert (Hreg : registry (mkState (heap st) (delete i (terrains st))
                   (scene_remove a (scene st)) (selectedTerrain st) (isDragging st)
                   (dragOffset st) (controls_enabled st) (controls_target st))
                 = delete i (registry st))
    by exact (deref_delete _ _ _ Hvalid).
  split; [|rewrite Hreg; split; [|split]].
  - split; simpl.
    + exact (sublist_NoDup _ _ Hnd (sublist_delete _ i)).
    + intros b Hb. apply Hvalid.
      exact (elem_of_sublist _ _ _ Hb (sublist_delete _ i)).
  - apply uniqueIds_delete. exact Huniq.
  - apply NO_OVERLAP_delete. exact Hno.
  - apply UPPER_BOUND_delete. exact Hub.
Qed.

Lemma onMouseDown_consistent (grid : Grid.t) (hit : option (option nat * (Q * Q)))
    (st : State) :
  consistent grid st -> consistent grid (onMouseDown hit st).
Proof.
  intros Hc. unfold onMouseDown.
  destruct hit as [[found [px pz]]|]; [|exact Hc].
  destruct (_ ≫= _); exact Hc.
Qed.

Lemma centerOnTerrain_consistent (grid : Grid.t) (terrainId : Z) (st : State) :
  consistent grid st -> consistent grid (centerOnTerrain terrainId st).
Proof.
  intros Hc. unfold centerOnTerrain.
  destruct (find_terrain _ _ _) as [a|]; [|exact Hc].
  destruct (heap st !! a); exact Hc.
Qed.

Lemma handle_consistent (grid : Grid.t) (st : State) (e : Event) :
  consistent grid st ->
  freshId st e = true -> fallbackTaken grid st e = false ->
  consistent grid (handle grid st e).
Proof.
  intros Hc Hfresh Hfall. destruct e; simpl.
  - exact (loadTerrain_consistent grid now size model name st Hc Hfresh Hfall).
  - exact (onMouseDown_consistent grid hit st Hc).
  - exact (onMouseMove_consistent grid point st Hc).
  - exact Hc.
  - exact (rotateTerrain_consistent grid terrainId st Hc Hfall).
  - exact (centerOnTerrain_consistent grid terrainId st Hc).
  - exact (removeTerrain_consistent grid terrainId st Hc).
Qed.

Lemma run_consistent (grid : Grid.t) (events : list Event) (st : State) :
  consistent grid st -> admissible grid st events = true ->
  consistent grid (run grid st events).
Proof.
  revert st. induction events as [|e events IH]; intros st Hc Hadm; [exact Hc|].
  simpl in Hadm. apply andb_true_iff in Hadm as [Hadm Hrest].
  apply andb_true_iff in Hadm as [Hfresh Hfall].
  apply negb_true_iff in Hfall.
  simpl. apply IH; [|exact Hrest].
  exact (handle_consistent grid st e Hc Hfresh Hfall).
Qed.

Lemma initialState_consistent (grid : Grid.t) : consistent grid initialState.
Proof.
  split; [split|split; [|split]].
  - apply NoDup_nil. exact I.
  - intros a Ha. inversion Ha.
  - apply NoDup_nil. exact I.
  - intros i j A B _ HA. discriminate.
  - intros t Ht. inversion Ht.
Qed.

(** ** The invariants between terrains of different ids *)

Lemma commit_preserves_ids (grid : Grid.t) (ts : list Terrain.t) (i : nat)
    (t1 t' : Terrain.t) :
  ts !! i = Some t1 ->
  Terrain.id t' = Terrain.id t1 ->
  NO_OVERLAP_ids_others grid i ts ->
  UPPER_BOUND_others grid i ts ->
  isValidGridPosition grid ts
    (GridPosition.x (Terrain.gridPosition t')) (GridPosition.z (Terrain.gridPosition t'))
    (cellsWide grid t') (cellsDeep grid t') (Terrain.id t') = true ->
  NO_OVERLAP_ids grid (<[i := t']> ts) /\
  UPPER_BOUND grid (<[i := t']> ts).
Proof.
  intros Hi Hid Hno Hub Hvalid.
  apply isValidGridPosition_true in Hvalid as (Hx & Hz & Hfree).
  assert (Hothers : forall j u, ts !! j = Some u -> Terrain.id u <> Terrain.id t' ->
            forall cx cz, ~ (occupies grid t' cx cz /\ occupies grid u cx cz)).
  { intros j u Hu Hne. apply noOverlap_disjoint.
    apply (proj1 (isPositionOccupied_false _ _ _ _ _ _ _) Hfree); [|exact Hne].
    apply list_elem_of_lookup. eauto. }
  pose proof (lookup_lt_Some _ _ _ Hi) as Hlt.
  split.
  - intros j k A B HA HB Hne cx cz.
    destruct (decide (j = i)) as [->|Hj]; destruct (decide (k = i)) as [->|Hk].
    + rewrite HA in HB. injection HB as <-. contradiction.
    + rewrite list_lookup_insert_eq in HA by exact Hlt. injection HA as <-.
      rewrite list_lookup_insert_ne in HB by congruence.
      apply (Hothers k B HB). congruence.
    + rewrite list_lookup_insert_eq in HB by exact Hlt. injection HB as <-.
      rewrite list_lookup_insert_ne in HA by congruence.
      intros [HcA HcB]. exact (Hothers j A HA Hne cx cz (conj HcB HcA)).
    + rewrite list_lookup_insert_ne in HA by congruence.
      rewrite list_lookup_insert_ne in HB by congruence.
      exact (Hno j k A B Hj Hk HA HB Hne cx cz).
  - intros u Hu. apply list_elem_of_lookup in Hu as [j Hj].
    destruct (decide (j = i)) as [->|Hne].
    + rewrite list_lookup_insert_eq in Hj by exact Hlt. injection Hj as <-.
      split; assumption.
    + rewrite list_lookup_insert_ne in Hj by congruence.
      exact (Hub j u Hne Hj).
Qed.

Lemma NO_OVERLAP_ids_weaken (grid : Grid.t) (i : nat) (ts : list Terrain.t) :
  NO_OVERLAP_ids grid ts -> NO_OVERLAP_ids_others grid i ts.
Proof. intros Hno j k A B _ _. apply Hno. Qed.

Lemma NO_OVERLAP_ids_others_insert (grid : Grid.t) (i : nat) (ts : list Terrain.t)
    (t : Terrain.t) :
  NO_OVERLAP_ids_others grid i ts -> NO_OVERLAP_ids_others grid i (<[i := t]> ts).
Proof.
  intros Hno j k A B Hj Hk HA HB.
  rewrite list_lookup_insert_ne in HA by congruence.
  rewrite list_lookup_insert_ne in HB by congruence.
  exact (Hno j k A B Hj Hk HA HB).
Qed.

Lemma NO_OVERLAP_ids_others_push (grid : Grid.t) (ts : list Terrain.t) (t : Terrain.t) :
  NO_OVERLAP_ids grid ts -> NO_OVERLAP_ids_others grid (length ts) (ts ++ [t]).
Proof.
  intros Hno j k A B Hj Hk HA HB.
  assert (Hjlt : (j < length ts)%nat).
  { apply lookup_lt_Some in HA. rewrite length_app in HA. simpl in HA. lia. }
  assert (Hklt : (k < length ts)%nat).
  { apply lookup_lt_Some in HB. rewrite length_app in HB. simpl in HB. lia. }
  rewrite lookup_app_l in HA by exact Hjlt.
  rewrite lookup_app_l in HB by exact Hklt.
  exact (Hno j k A B HA HB).
Qed.

Lemma NO_OVERLAP_ids_delete (grid : Grid.t) (i : nat) (ts : list Terrain.t) :
  NO_OVERLAP_ids grid ts -> NO_OVERLAP_ids grid (delete i ts).
Proof.
  intros Hno j k A B HA HB.
  assert (Hsub : forall n u, delete i ts !! n = Some u -> exists m, ts !! m = Some u).
  { intros n u Hn. destruct (decide (n < i)%nat) as [Hlt|Hge].
    - rewrite list_lookup_delete_lt in Hn by exact Hlt. eauto.
    - rewrite list_lookup_delete_ge in Hn by lia. eauto. }
  destruct (Hsub j A HA) as [j' HA']. destruct (Hsub k B HB) as [k' HB'].
  exact (Hno j' k' A B HA' HB').
Qed.

(** Distinct entries have different ids when ids are unique. *)
Lemma NO_OVERLAP_of_ids (grid : Grid.t) (ts : list Terrain.t) :
  uniqueIds ts -> NO_OVERLAP_ids grid ts -> NO_OVERLAP grid ts.
Proof.
  intros Huniq Hno i j A B Hij HA HB. apply (Hno i j A B HA HB).
  intros Hid. apply Hij. exact (uniqueIds_lookup ts i j A B Huniq HA HB Hid).
Qed.

Lemma store_commit_ids (grid : Grid.t) (st : State) (a i : nat) (t1 t' : Terrain.t) :
  wellFormed st ->
  terrains st !! i = Some a ->
  heap st !! a = Some t1 ->
  Terrain.id t' = Terrain.id t1 ->
  NO_OVERLAP_ids_others grid i (registry st) ->
  UPPER_BOUND_others grid i (registry st) ->
  isValidGridPosition grid (registry st)
    (GridPosition.x (Terrain.gridPosition t')) (GridPosition.z (Terrain.gridPosition t'))
    (cellsWide grid t') (cellsDeep grid t') (Terrain.id t') = true ->
  separated grid (store a t' st).
Proof.
  intros Hwf Hi Ha Hid Hno Hub Hvalid.
  split; [exact (wellFormed_store a t' st Hwf)|].
  rewrite (registry_store_in a i t' st Hwf Hi).
  assert (Hreg : registry st !! i = Some t1)
    by (rewrite (registry_lookup a i st Hwf Hi); exact Ha).
  exact (commit_preserves_ids grid (registry st) i t1 t' Hreg Hid Hno Hub Hvalid).
Qed.

Lemma loadTerrain_separated (grid : Grid.t) (now : Z) (size : Dimensions.t)
    (model : Model.t) (name : string) (st : State) :
  separated grid st ->
  fallbackTaken grid st (TerrainLoaded now size model name) = false ->
  separated grid (loadTerrain grid now size model name st).
Proof.
  intros (Hwf & Hno & Hub) Hfall.
  unfold loadTerrain, positionTerrainOnGrid.
  set (t0 := createTerrainObject now size model name) in *.
  pose proof (wellFormed_pushTerrain t0 st Hwf) as Hwf1.
  assert (Ha : heap (pushTerrain t0 st) !! length (heap st) = Some t0)
    by (simpl; apply list_lookup_middle; reflexivity).
  rewrite Ha.
  assert (Hi : terrains (pushTerrain t0 st) !! length (terrains st) = Some (length (heap st)))
    by (simpl; apply list_lookup_middle; reflexivity).
  unfold fallbackTaken, placementSearch in Hfall. fold t0 in Hfall.
  unfold findAvailableGridPosition.
  destruct (scanGrid grid (registry (pushTerrain t0 st)) (cellsWide grid t0)
              (cellsDeep grid t0) (Terrain.id t0)) as [p|] eqn:Hscan; [|discriminate].
  apply (store_commit_ids grid _ _ (length (terrains st)) t0); try assumption.
  - reflexivity.
  - rewrite (registry_pushTerrain t0 st Hwf), <- (registry_length st Hwf).
    apply NO_OVERLAP_ids_others_push. exact Hno.
  - rewrite (registry_pushTerrain t0 st Hwf), <- (registry_length st Hwf).
    apply UPPER_BOUND_others_push. exact Hub.
  - exact (scanGrid_valid _ _ _ _ _ _ Hscan).
Qed.

Lemma onMouseMove_separated (grid : Grid.t) (point : Q * Q) (st : State) :
  separated grid st -> separated grid (onMouseMove grid point st).
Proof.
  intros Hc. pose proof Hc as (Hwf & Hno & Hub).
  unfold onMouseMove.
  destruct (isDragging st); simpl; [|exact Hc].
  destruct (selectedTerrain st) as [a|]; [|exact Hc].
  destruct (heap st !! a) as [terrain|] eqn:Ha; [|exact Hc].
  destruct (isValidGridPosition grid (registry st) _ _ _ _ _) eqn:Hvalid; [|exact Hc].
  destruct (decide (a ∈ terrains st)) as [Hin|Hnotin].
  - apply list_elem_of_lookup in Hin as [i Hi].
    apply (store_commit_ids grid st a i terrain); try assumption.
    + reflexivity.
    + apply NO_OVERLAP_ids_weaken. exact Hno.
    + apply UPPER_BOUND_weaken. exact Hub.
  - split; [exact (wellFormed_store _ _ _ Hwf)|].
    rewrite (registry_store_notin _ _ _ Hnotin). auto.
Qed.

Lemma rotateTerrain_separated (grid : Grid.t) (terrainId : Z) (st : State) :
  separated grid st ->
  fallbackTaken grid st (Rotate terrainId) = false ->
  separated grid (rotateTerrain grid terrainId st).
Proof.
  intros Hc Hfall. pose proof Hc as (Hwf & Hno & Hub).
  unfold rotateTerrain. unfold fallbackTaken, placementSearch in Hfall.
  destruct (find_terrain (heap st) (terrains st) (fun t => Terrain.id t =? terrainId))
    as [a|] eqn:Hfind; [|exact Hc].
  destruct (find_terrain_Some _ _ _ _ Hfind) as (i & t & Hi & Ha & _).
  rewrite Ha in Hfall |- *.
  set (rotated := rotateObject t) in *.
  set (st1 := store a rotated st) in *.
  pose proof (wellFormed_store a rotated st Hwf) as Hwf1.
  assert (Hreg1 : registry st1 = <[i := rotated]> (registry st))
    by exact (registry_store_in a i rotated st Hwf Hi).
  assert (Ha1 : heap st1 !! a = Some rotated).
  { simpl. apply list_lookup_insert_eq. eapply lookup_lt_Some. exact Ha. }
  apply (store_commit_ids grid st1 a i rotated); try assumption.
  - reflexivity.
  - rewrite Hreg1. apply NO_OVERLAP_ids_others_insert, NO_OVERLAP_ids_weaken. exact Hno.
  - rewrite Hreg1. apply UPPER_BOUND_others_insert, UPPER_BOUND_weaken. exact Hub.
  - destruct (resolveAfterRotation_valid grid (registry st1) rotated
                (Terrain.gridPosition t)) as [Hok|(Hkeep & Hnear & Hscan)];
      [exact Hok|].
    exfalso. rewrite Hkeep, Hnear, Hscan in Hfall. discriminate.
Qed.

Lemma removeTerrain_separated (grid : Grid.t) (terrainId : Z) (st : State) :
  separated grid st -> separated grid (removeTerrain terrainId st).
Proof.
  intros Hc. pose proof Hc as ((Hnd & Hvalid) & Hno & Hub).
  unfold removeTerrain.
  destruct (findIndex_terrain _ _ _) as [i|]; [|exact Hc].
  destruct (terrains st !! i) as [a|]; [|exact Hc].
  assert (Hreg : registry (mkState (heap st) (delete i (terrains st))
                   (scene_remove a (scene st)) (selectedTerrain st) (isDragging st)
                   (dragOffset st) (controls_enabled st) (controls_target st))
                 = delete i (registry st))
    by exact (deref_delete _ _ _ Hvalid).
  split; [|rewrite Hreg; split].
  - split; simpl.
    + exact (sublist_NoDup _ _ Hnd (sublist_delete _ i)).
    + intros b Hb. apply Hvalid.
      exact (elem_of_sublist _ _ _ Hb (sublist_delete _ i)).
  - apply NO_OVERLAP_ids_delete. exact Hno.
  - apply UPPER_BOUND_delete. exact Hub.
Qed.

Lemma onMouseDown_separated (grid : Grid.t) (hit : option (option nat * (Q * Q)))
    (st : State) :
  separated grid st -> separated grid (onMouseDown hit st).
Proof.
  intros Hc. unfold onMouseDown.
  destruct hit as [[found [px pz]]|]; [|exact Hc].
  destruct (_ ≫= _); exact Hc.
Qed.

Lemma centerOnTerrain_separated (grid : Grid.t) (terrainId : Z) (st : State) :
  separated grid st -> separated grid (centerOnTerrain terrainId st).
Proof.
  intros Hc. unfold centerOnTerrain.
  destruct (find_terrain _ _ _) as [a|]; [|exact Hc].
  destruct (heap st !! a); exact Hc.
Qed.

Lemma handle_separated (grid : Grid.t) (st : State) (e : Event) :
  separated grid st -> fallbackTaken grid st e = false ->
  separated grid (handle grid st e).
Proof.
  intros Hc Hfall. destruct e; simpl.
  - exact (loadTerrain_separated grid now size model name st Hc Hfall).
  - exact (onMouseDown_separated grid hit st Hc).
  - exact (onMouseMove_separated grid point st Hc).
  - exact Hc.
  - exact (rotateTerrain_separated grid terrainId st Hc Hfall).
  - exact (centerOnTerrain_separated grid terrainId st Hc).
  - exact (removeTerrain_separated grid terrainId st Hc).
Qed.

Lemma run_separated (grid : Grid.t) (events : list Event) (st : State) :
  separated grid st -> fallbackFree grid st events = true ->
  separated grid (run grid st events).
Proof.
  revert st. induction events as [|e events IH]; intros st Hc Hfree; [exact Hc|].
  simpl in Hfree. apply andb_true_iff in Hfree as [Hfall Hrest].
  apply negb_true_iff in Hfall.
  simpl. apply IH; [|exact Hrest].
  exact (handle_separated grid st e Hc Hfall).
Qed.

Lemma initialState_separated (grid : Grid.t) : separated grid initialState.
Proof.
  split; [split|split].
  - apply NoDup_nil. exact I.
  - intros a Ha. inversion Ha.
  - intros i j A B HA. discriminate.
  - intros t Ht. inversion Ht.
Qed.

(** C1, amended.  Starting from the empty registry, after any sequence of
    events (terrains loaded and placed, pointer events with their drag
    moves, rotations, focus and removal commands) in which the [(0,0)]
    fallback of [findAvailableGridPosition] is not taken, the registry
    satisfies UPPER-BOUND, and NO-OVERLAP between every two terrains with
    different ids; when moreover every loaded terrain gets an id that no
    terrain of the registry has, it satisfies NO-OVERLAP between every
    two distinct terrains.  An event takes the fallback only when the
    footprint being positioned has no free position in the scanned
    range. *)
Theorem registry_invariants_preserved :
  forall grid : Grid.t,
    (forall events : list Event,
        fallbackFree grid initialState events = true ->
        NO_OVERLAP_ids grid (registry (run grid initialState events)) /\
        UPPER_BOUND grid (registry (run grid initialState events))) /\
    (forall events : list Event,
        admissible grid initialState events = true ->
        NO_OVERLAP grid (registry (run grid initialState events)) /\
        UPPER_BOUND grid (registry (run grid initialState events))) /\
    (forall (st : State) (e : Event),
        fallbackTaken grid st e = true ->
        exists ts terrain,
          placementSearch grid st e = Some (ts, terrain) /\
          noFreeInRange grid ts terrain).
Proof.
  intros grid. split; [|split].
  - intros events Hfree.
    destruct (run_separated grid events initialState
                (initialState_separated grid) Hfree) as (_ & Hno & Hub).
    split; assumption.
  - intros events Hadm.
    destruct (run_consistent grid events initialState
                (initialState_consistent grid) Hadm) as (_ & _ & Hno & Hub).
    split; assumption.
  - intros st e Hfall. unfold fallbackTaken in Hfall.
    destruct (placementSearch grid st e) as [[ts terrain]|]; [|discriminate].
    exists ts, terrain. split; [reflexivity|].
    destruct (scanGrid grid ts (cellsWide grid terrain) (cellsDeep grid terrain)
                (Terrain.id terrain)) eqn:Hscan; [discriminate|].
    exact (proj1 (scanGrid_None _ _ _ _ _) Hscan).
Qed.

(** The scan does not look below [-grid.size]: the fallback can be taken
    while a position that [isValidGridPosition] accepts exists to the
    left of the scanned range. *)
Lemma fallback_ignores_positions_below_range :
  scanGrid smallGrid [terrainAt 1 20 20 (-1) (-1)]
    (cellsWide smallGrid (terrainAt 2 10 10 0 0))
    (cellsDeep smallGrid (terrainAt 2 10 10 0 0)) 2 = None /\
  isValidGridPosition smallGrid [terrainAt 1 20 20 (-1) (-1)] (-2) 0
    (cellsWide smallGrid (terrainAt 2 10 10 0 0))
    (cellsDeep smallGrid (terrainAt 2 10 10 0 0)) 2 = true.
Proof. split; vm_compute; reflexivity. Qed.

(** ** Resolution after a rotation *)

Lemma find_app_first {A : Type} (f : A -> bool) (l1 l2 : list A) :
  List.find f (l1 ++ l2)
  = match List.find f l1 with
    | Some x => Some x
    | None => List.find f l2
    end.
Proof.
  induction l1 as [|x l1 IH]; simpl; [reflexivity|].
  destruct (f x); [reflexivity|exact IH].
Qed.

Lemma scanOffsets_find (grid : Grid.t) (ts : list Terrain.t) (terrain : Terrain.t)
    (prev : GridPosition.t) (offsets : list (Z * Z)) :
  scanOffsets grid ts terrain prev offsets
  = List.find
      (fun p => isValidGridPosition grid ts (GridPosition.x p) (GridPosition.z p)
                  (cellsWide grid terrain) (cellsDeep grid terrain) (Terrain.id terrain))
      (map (fun d : Z * Z =>
              GridPosition.mk (GridPosition.x prev + fst d) (GridPosition.z prev + snd d))
           offsets).
Proof.
  induction offsets as [|[dx dz] offsets IH]; simpl; [reflexivity|].
  rewrite IH. reflexivity.
Qed.

Lemma scanRadii_find (grid : Grid.t) (ts : list Terrain.t) (terrain : Terrain.t)
    (prev : GridPosition.t) (n r : nat) :
  scanRadii grid ts terrain prev n r
  = List.find
      (fun p => isValidGridPosition grid ts (GridPosition.x p) (GridPosition.z p)
                  (cellsWide grid terrain) (cellsDeep grid terrain) (Terrain.id terrain))
      (flat_map
         (fun r => map (fun d : Z * Z =>
                          GridPosition.mk (GridPosition.x prev + fst d)
                                          (GridPosition.z prev + snd d))
                       (ringOffsets r))
         (seq r n)).
Proof.
  revert r. induction n as [|n IH]; intros r; simpl; [reflexivity|].
  rewrite find_app_first, <- scanOffsets_find, IH. reflexivity.
Qed.

Lemma rotateTerrain_found (grid : Grid.t) (terrainId : Z) (st : State) (a : nat)
    (t : Terrain.t) :
  find_terrain (heap st) (terrains st) (fun u => Terrain.id u =? terrainId) = Some a ->
  heap st !! a = Some t ->
  let rotated := rotateObject t in
  let position :=
    resolveAfterRotation grid (registry (store a rotated st)) rotated
      (Terrain.gridPosition t) in
  let t' := updateTerrainPosition grid (Terrain.set_gridPosition position rotated) in
  rotateTerrain grid terrainId st = store a t' st /\
  heap (rotateTerrain grid terrainId st) !! a = Some t' /\
  find_terrain (heap (rotateTerrain grid terrainId st))
    (terrains (rotateTerrain grid terrainId st)) (fun u => Terrain.id u =? terrainId)
  = Some a.
Proof.
  intros Hfind Ha rotated position t'.
  assert (Heq : rotateTerrain grid terrainId st = store a t' st).
  { unfold rotateTerrain. rewrite Hfind, Ha. fold rotated. fold position. fold t'.
    unfold store, set_heap. simpl. rewrite list_insert_insert_eq. reflexivity. }
  rewrite Heq. split; [reflexivity|]. split.
  - simpl. apply list_lookup_insert_eq. eapply lookup_lt_Some. exact Ha.
  - simpl. rewrite (find_terrain_insert _ _ _ a t t' Ha); [exact Hfind|reflexivity].
Qed.

(** C2.  After the swap of width and depth, [rotateTerrain] keeps the
    previous grid position when it is valid for the swapped footprint,
    the terrain itself being excluded.  Otherwise the position is that of
    the nearest-position search: the first valid candidate in the scan of
    radius 0, 1, ..., [maxRadius] around the previous position, each
    radius in the fixed order of its offsets; when no candidate is valid
    it is the result of [findAvailableGridPosition]. *)
Theorem resolveAfterRotation_nearest_search :
  forall (grid : Grid.t),
    (forall (ts : list Terrain.t) (terrain : Terrain.t) (previous : GridPosition.t),
        let valid := fun p : GridPosition.t =>
          isValidGridPosition grid ts (GridPosition.x p) (GridPosition.z p)
            (cellsWide grid terrain) (cellsDeep grid terrain) (Terrain.id terrain) in
        (valid previous = true ->
         resolveAfterRotation grid ts terrain previous = previous) /\
        (valid previous = false ->
         resolveAfterRotation grid ts terrain previous
         = match List.find valid (nearestCandidates previous) with
           | Some p => p
           | None => findAvailableGridPosition grid ts terrain
           end)) /\
    (forall (terrainId : Z) (st : State) (a : nat) (t : Terrain.t),
        find_terrain (heap st) (terrains st) (fun u => Terrain.id u =? terrainId) = Some a ->
        heap st !! a = Some t ->
        exists t',
          heap (rotateTerrain grid terrainId st) !! a = Some t' /\
          Dimensions.width (Terrain.dimensions t') = Dimensions.depth (Terrain.dimensions t) /\
          Dimensions.depth (Terrain.dimensions t') = Dimensions.width (Terrain.dimensions t) /\
          Terrain.gridPosition t'
          = resolveAfterRotation grid (registry (store a (rotateObject t) st))
              (rotateObject t) (Terrain.gridPosition t)).
Proof.
  intros grid. split.
  - intros ts terrain previous valid. split.
    + intros Hvalid. unfold resolveAfterRotation.
      destruct previous as [px pz]. unfold valid in Hvalid. simpl in Hvalid |- *.
      rewrite Hvalid. reflexivity.
    + intros Hinvalid. unfold resolveAfterRotation.
      destruct previous as [px pz]. unfold valid in Hinvalid. simpl in Hinvalid |- *.
      rewrite Hinvalid. unfold findNearestValidPosition.
      rewrite scanRadii_find. reflexivity.
  - intros terrainId st a t Hfind Ha.
    destruct (rotateTerrain_found grid terrainId st a t Hfind Ha) as (_ & Hlook & _).
    eexists. split; [exact Hlook|]. simpl. auto.
Qed.

(** ** Drag moves *)

Lemma isValidGridPosition_false (grid : Grid.t) (ts : list Terrain.t)
    (x z width depth ex : Z) :
  isValidGridPosition grid ts x z width depth ex = false <->
  Grid.size grid < x + width \/ Grid.size grid < z + depth \/
  isPositionOccupied grid ts x z width depth ex = true.
Proof.
  unfold isValidGridPosition.
  rewrite !andb_false_iff, negb_false_iff, !Z.leb_gt.
  split; [intros [[Hx|Hz]|Hocc]|intros [Hx|[Hz|Hocc]]]; auto.
Qed.

(** C4.  A drag move whose candidate cell fails [isValidGridPosition]
    (beyond the upper bound, or overlapping a terrain other than the
    dragged one) is not accepted and leaves the whole state as it was.
    With two terrains of 2 by 2 cells at [(0,0)] and [(2,0)], dragging the
    second one to [(1,0)] is rejected and it stays at [(2,0)]. *)
Theorem rejected_drag_leaves_state_unchanged :
  (forall (grid : Grid.t) (point : Q * Q) (st : State) (a : nat) (terrain : Terrain.t),
      selectedTerrain st = Some a ->
      heap st !! a = Some terrain ->
      let gridX :=
        Math_round ((fst point - fst (dragOffset st))
                    / inject_Z (Z.pos (Grid.cellSize grid))) in
      let gridZ :=
        Math_round ((snd point - snd (dragOffset st))
                    / inject_Z (Z.pos (Grid.cellSize grid))) in
      (Grid.size grid < gridX + cellsWide grid terrain \/
       Grid.size grid < gridZ + cellsDeep grid terrain \/
       isPositionOccupied grid (registry st) gridX gridZ (cellsWide grid terrain)
         (cellsDeep grid terrain) (Terrain.id terrain) = true) ->
      onMouseMove grid point st = st) /\
  (Math_round (10 / inject_Z (Z.pos (Grid.cellSize defaultGrid))) = 1 /\
   Math_round (0 / inject_Z (Z.pos (Grid.cellSize defaultGrid))) = 0 /\
   (Terrain.gridPosition <$> registry scenarioB)
   = [GridPosition.mk 0 0; GridPosition.mk 2 0] /\
   onMouseMove defaultGrid (10%Q, 0%Q) scenarioB = scenarioB).
Proof.
  split.
  - intros grid point st a terrain Hsel Ha gridX gridZ Hinvalid.
    apply isValidGridPosition_false in Hinvalid.
    unfold onMouseMove. destruct (isDragging st); simpl; [|reflexivity].
    rewrite Hsel, Ha. fold gridX. fold gridZ. rewrite Hinvalid. reflexivity.
  - split; [vm_compute; reflexivity|]. split; [vm_compute; reflexivity|].
    split; vm_compute; reflexivity.
Qed.

(** C7.  For a terrain id that no terrain of the registry has, rotate,
    focus and remove return the state they were given. *)
Theorem unknown_id_is_noop :
  forall (grid : Grid.t) (terrainId : Z) (st : State),
    (forall t, t ∈ registry st -> Terrain.id t <> terrainId) ->
    rotateTerrain grid terrainId st = st /\
    centerOnTerrain terrainId st = st /\
    removeTerrain terrainId st = st.
Proof.
  intros grid terrainId st Habsent.
  assert (Hfind : find_terrain (heap st) (terrains st)
                    (fun t => Terrain.id t =? terrainId) = None).
  { apply find_terrain_None. intros t Ht. apply Z.eqb_neq. exact (Habsent t Ht). }
  pose proof (proj2 (findIndex_terrain_None _ _ _) Hfind) as Hindex.
  unfold rotateTerrain, centerOnTerrain, removeTerrain.
  rewrite Hfind, Hindex. auto.
Qed.

(** ** What the events store in the heap *)

Lemma loadTerrain_heap (grid : Grid.t) (now : Z) (size : Dimensions.t) (model : Model.t)
    (name : string) (st : State) :
  let t0 := createTerrainObject now size model name in
  let position := findAvailableGridPosition grid (registry (pushTerrain t0 st)) t0 in
  heap (loadTerrain grid now size model name st)
  = heap st ++ [updateTerrainPosition grid (Terrain.set_gridPosition position t0)].
Proof.
  intros t0 position. unfold loadTerrain, positionTerrainOnGrid. fold t0.
  assert (Ha : heap (pushTerrain t0 st) !! length (heap st) = Some t0)
    by (simpl; apply list_lookup_middle; reflexivity).
  rewrite Ha. fold position. simpl.
  rewrite insert_app_r_alt by lia. rewrite Nat.sub_diag. reflexivity.
Qed.

Lemma handle_heap_Forall (P : Terrain.t -> Prop) (grid : Grid.t) :
  (forall now size model name p,
      P (updateTerrainPosition grid
           (Terrain.set_gridPosition p (createTerrainObject now size model name)))) ->
  (forall t p, P t -> P (updateTerrainPosition grid (Terrain.set_gridPosition p t))) ->
  (forall t p,
      P t -> P (updateTerrainPosition grid (Terrain.set_gridPosition p (rotateObject t)))) ->
  forall (st : State) (e : Event),
    Forall P (heap st) -> Forall P (heap (handle grid st e)).
Proof.
  intros Hnew Hmove Hrot st e Hall. destruct e; simpl.
  - rewrite loadTerrain_heap. apply Forall_app. split; [exact Hall|].
    constructor; [apply Hnew|constructor].
  - unfold onMouseDown. destruct hit as [[found [px pz]]|]; [|exact Hall].
    destruct (_ ≫= _); exact Hall.
  - unfold onMouseMove. destruct (isDragging st); simpl; [|exact Hall].
    destruct (selectedTerrain st) as [a|]; [|exact Hall].
    destruct (heap st !! a) as [terrain|] eqn:Ha; [|exact Hall].
    destruct (isValidGridPosition grid (registry st) _ _ _ _ _); [|exact Hall].
    simpl. apply Forall_insert; [exact Hall|]. apply Hmove.
    exact (proj1 (Forall_lookup _ _) Hall a terrain Ha).
  - exact Hall.
  - destruct (find_terrain (heap st) (terrains st) (fun u => Terrain.id u =? terrainId))
      as [a|] eqn:Hfind.
    + destruct (heap st !! a) as [t|] eqn:Ha.
      * destruct (rotateTerrain_found grid terrainId st a t Hfind Ha) as (-> & _).
        simpl. apply Forall_insert; [exact Hall|]. apply Hrot.
        exact (proj1 (Forall_lookup _ _) Hall a t Ha).
      * unfold rotateTerrain. rewrite Hfind, Ha. exact Hall.
    + unfold rotateTerrain. rewrite Hfind. exact Hall.
  - unfold centerOnTerrain. destruct (find_terrain _ _ _) as [a|]; [|exact Hall].
    destruct (heap st !! a); exact Hall.
  - unfold removeTerrain. destruct (findIndex_terrain _ _ _) as [i|]; [|exact Hall].
    destruct (terrains st !! i); exact Hall.
Qed.

Lemma run_heap_Forall (P : Terrain.t -> Prop) (grid : Grid.t) :
  (forall now size model name p,
      P (updateTerrainPosition grid
           (Terrain.set_gridPosition p (createTerrainObject now size model name)))) ->
  (forall t p, P t -> P (updateTerrainPosition grid (Terrain.set_gridPosition p t))) ->
  (forall t p,
      P t -> P (updateTerrainPosition grid (Terrain.set_gridPosition p (rotateObject t)))) ->
  forall (events : list Event) (st : State),
    Forall P (heap st) -> Forall P (heap (run grid st events)).
Proof.
  intros Hnew Hmove Hrot events.
  induction events as [|e events IH]; intros st Hall; [exact Hall|].
  simpl. apply IH. exact (handle_heap_Forall P grid Hnew Hmove Hrot st e Hall).
Qed.

(** ** World position *)

Lemma updateTerrainPosition_positioned (grid : Grid.t) (terrain : Terrain.t) :
  positioned grid (updateTerrainPosition grid terrain).
Proof. split; reflexivity. Qed.

Lemma ceil_margin_nonneg (grid : Grid.t) (dimension : Q) :
  let cellSize := inject_Z (Z.pos (Grid.cellSize grid)) in
  (0 <= (inject_Z (Math_ceil (dimension / cellSize)) * cellSize - dimension) / 2)%Q.
Proof.
  intros cellSize. pose proof (cellSize_pos grid) as Hc. fold cellSize in Hc.
  assert (Hne : ~ (cellSize == 0)%Q)
    by (intros H0; rewrite H0 in Hc; exact (Qlt_irrefl 0 Hc)).
  pose proof (Qle_ceiling (dimension / cellSize)) as Hceil.
  apply (Qmult_le_compat_r _ _ cellSize) in Hceil; [|apply Qlt_le_weak; exact Hc].
  assert (Heq : (dimension / cellSize * cellSize == dimension)%Q) by (field; exact Hne).
  rewrite Heq in Hceil. unfold Math_ceil.
  apply Qle_shift_div_l; [reflexivity|]. lra.
Qed.

(** C9.  [updateTerrainPosition] puts the model, on each axis, at
    [gridPosition * cellSize + (cells * cellSize - dimension) / 2] with
    [cells = ceil(dimension / cellSize)], which leaves the same
    non-negative margin on both sides of the footprint inside its block
    of cells; the grid position and the dimensions are not touched.  As
    every commit of a position or of a rotation ends with this
    recomputation, every terrain object of a state reached from the
    initial one is at its centered world position. *)
Theorem world_position_centered :
  forall grid : Grid.t,
    let cellSize := inject_Z (Z.pos (Grid.cellSize grid)) in
    (forall terrain : Terrain.t,
        let t' := updateTerrainPosition grid terrain in
        let x := GridPosition.x (Terrain.gridPosition terrain) in
        let z := GridPosition.z (Terrain.gridPosition terrain) in
        let width := Dimensions.width (Terrain.dimensions terrain) in
        let depth := Dimensions.depth (Terrain.dimensions terrain) in
        let worldX := Model.position_x (Terrain.model t') in
        let worldZ := Model.position_z (Terrain.model t') in
        worldX = (inject_Z x * cellSize
                  + (inject_Z (Math_ceil (width / cellSize)) * cellSize - width) / 2)%Q /\
        worldZ = (inject_Z z * cellSize
                  + (inject_Z (Math_ceil (depth / cellSize)) * cellSize - depth) / 2)%Q /\
        Terrain.gridPosition t' = Terrain.gridPosition terrain /\
        Terrain.dimensions t' = Terrain.dimensions terrain /\
        (worldX - inject_Z x * cellSize
         == inject_Z (x + cellsWide grid terrain) * cellSize - (worldX + width))%Q /\
        (worldZ - inject_Z z * cellSize
         == inject_Z (z + cellsDeep grid terrain) * cellSize - (worldZ + depth))%Q /\
        (0 <= worldX - inject_Z x * cellSize)%Q /\
        (0 <= worldZ - inject_Z z * cellSize)%Q) /\
    (forall (events : list Event) (terrain : Terrain.t),
        terrain ∈ heap (run grid initialState events) -> positioned grid terrain).
Proof.
  intros grid cellSize. split.
  - intros terrain t' x z width depth worldX worldZ.
    pose proof (ceil_margin_nonneg grid width) as Hmx.
    pose proof (ceil_margin_nonneg grid depth) as Hmz.
    fold cellSize in Hmx, Hmz. simpl in Hmx, Hmz.
    split; [reflexivity|]. split; [reflexivity|].
    split; [reflexivity|]. split; [reflexivity|].
    subst worldX worldZ t'. unfold updateTerrainPosition, cellsWide, cellsDeep.
    simpl. fold cellSize. fold x. fold z. fold width. fold depth.
    rewrite !inject_Z_plus.
    split; [field|]. split; [field|]. split; lra.
  - intros events terrain Hin.
    assert (Hall : Forall (positioned grid) (heap (run grid initialState events))).
    { apply run_heap_Forall.
      - intros. apply updateTerrainPosition_positioned.
      - intros. apply updateTerrainPosition_positioned.
      - intros. apply updateTerrainPosition_positioned.
      - constructor. }
    exact (proj1 (Forall_forall _ _) Hall terrain Hin).
Qed.

(** ** Quarter turns *)

(** Four quarter turns from 0 are exact in binary64: the sums are
    [Math.PI / 2], [Math.PI], three halves of [Math.PI] and
    [Math.PI * 2], and the last remainder is 0. *)
Lemma quarterTurn_cycle : Nat.iter 4 quarterTurn 0%float = 0%float.
Proof. vm_compute. reflexivity. Qed.

Lemma iter_quarterTurn_plus_4 (k : nat) :
  Nat.iter 4 quarterTurn (Nat.iter k quarterTurn 0%float)
  = Nat.iter k quarterTurn 0%float.
Proof.
  rewrite <- Nat.iter_add, Nat.add_comm, Nat.iter_add, quarterTurn_cycle.
  reflexivity.
Qed.

Lemma rotateObject_rotationInRange (t : Terrain.t) :
  rotationInRange t -> rotationInRange (rotateObject t).
Proof.
  intros [k Hk]. exists (S k). simpl. rewrite <- Hk. reflexivity.
Qed.

Lemma run_rotationInRange (grid : Grid.t) (events : list Event) :
  Forall rotationInRange (heap (run grid initialState events)).
Proof.
  apply run_heap_Forall.
  - intros. exists O. reflexivity.
  - intros t p Ht. exact Ht.
  - intros t p Ht. exact (rotateObject_rotationInRange t Ht).
  - constructor.
Qed.

(** One rotation of a terrain that [find] returns: the object at the same
    address is again the one that [find] returns, its rotation is a
    quarter turn further, width and depth are swapped. *)
Lemma rotateTerrain_step (grid : Grid.t) (terrainId : Z) (st : State) (a : nat)
    (t : Terrain.t) :
  find_terrain (heap st) (terrains st) (fun u => Terrain.id u =? terrainId) = Some a ->
  heap st !! a = Some t ->
  exists t',
    find_terrain (heap (rotateTerrain grid terrainId st))
      (terrains (rotateTerrain grid terrainId st)) (fun u => Terrain.id u =? terrainId)
    = Some a /\
    heap (rotateTerrain grid terrainId st) !! a = Some t' /\
    Terrain.rotation t' = quarterTurn (Terrain.rotation t) /\
    Dimensions.width (Terrain.dimensions t') = Dimensions.depth (Terrain.dimensions t) /\
    Dimensions.depth (Terrain.dimensions t') = Dimensions.width (Terrain.dimensions t) /\
    Dimensions.height (Terrain.dimensions t') = Dimensions.height (Terrain.dimensions t) /\
    Terrain.id t' = Terrain.id t /\
    Terrain.name t' = Terrain.name t.
Proof.
  intros Hfind Ha.
  destruct (rotateTerrain_found grid terrainId st a t Hfind Ha) as (_ & Hlook & Hfind').
  eexists. split; [exact Hfind'|]. split; [exact Hlook|]. simpl. auto 10.
Qed.

(** C8.  In a state reached from the initial one, four successive
    rotations of a terrain of the registry bring its rotation back to the
    original angle, as the same binary64 number, and its dimensions back
    to the original width and depth; its grid position is not
    constrained. *)
Theorem four_rotations_restore :
  forall (grid : Grid.t) (events : list Event) (terrainId : Z) (a : nat) (t : Terrain.t),
    let st := run grid initialState events in
    let st4 :=
      rotateTerrain grid terrainId
        (rotateTerrain grid terrainId
           (rotateTerrain grid terrainId (rotateTerrain grid terrainId st))) in
    find_terrain (heap st) (terrains st) (fun u => Terrain.id u =? terrainId) = Some a ->
    heap st !! a = Some t ->
    exists t4,
      heap st4 !! a = Some t4 /\
      find_terrain (heap st4) (terrains st4) (fun u => Terrain.id u =? terrainId) = Some a /\
      Terrain.rotation t4 = Terrain.rotation t /\
      Dimensions.width (Terrain.dimensions t4) = Dimensions.width (Terrain.dimensions t) /\
      Dimensions.depth (Terrain.dimensions t4) = Dimensions.depth (Terrain.dimensions t) /\
      Dimensions.height (Terrain.dimensions t4) = Dimensions.height (Terrain.dimensions t) /\
      Terrain.id t4 = Terrain.id t /\
      Terrain.name t4 = Terrain.name t.
Proof.
  intros grid events terrainId a t st st4 Hfind Ha.
  assert (Hrange : rotationInRange t).
  { exact (proj1 (Forall_lookup _ _) (run_rotationInRange grid events) a t Ha). }
  destruct Hrange as [k Hk].
  destruct (rotateTerrain_step grid terrainId st a t Hfind Ha)
    as (t1 & Hfind1 & Ha1 & Hr1 & Hw1 & Hd1 & Hh1 & Hi1 & Hn1).
  destruct (rotateTerrain_step grid terrainId _ a t1 Hfind1 Ha1)
    as (t2 & Hfind2 & Ha2 & Hr2 & Hw2 & Hd2 & Hh2 & Hi2 & Hn2).
  destruct (rotateTerrain_step grid terrainId _ a t2 Hfind2 Ha2)
    as (t3 & Hfind3 & Ha3 & Hr3 & Hw3 & Hd3 & Hh3 & Hi3 & Hn3).
  destruct (rotateTerrain_step grid terrainId _ a t3 Hfind3 Ha3)
    as (t4 & Hfind4 & Ha4 & Hr4 & Hw4 & Hd4 & Hh4 & Hi4 & Hn4).
  exists t4. split; [exact Ha4|]. split; [exact Hfind4|].
  split; [|repeat split; congruence].
  rewrite Hr4, Hr3, Hr2, Hr1, Hk. exact (iter_quarterTurn_plus_4 k).
Qed.

(** ** The frame of a drag move *)

Lemma run_model_rotation (grid : Grid.t) (events : list Event) :
  Forall (fun t => Model.rotation_y (Terrain.model t) = Terrain.rotation t)
         (heap (run grid initialState events)).
Proof.
  apply run_heap_Forall.
  - intros. reflexivity.
  - intros. reflexivity.
  - intros. reflexivity.
  - constructor.
Qed.

Lemma onMouseMove_frame (grid : Grid.t) (point : Q * Q) (st : State) :
  let st' := onMouseMove grid point st in
  terrains st' = terrains st /\
  scene st' = scene st /\
  selectedTerrain st' = selectedTerrain st /\
  length (heap st') = length (heap st) /\
  (forall (a : nat) (t : Terrain.t),
      heap st !! a = Some t ->
      exists t', heap st' !! a = Some t' /\
                 sameExceptPosition t t' /\
                 (selectedTerrain st <> Some a -> t' = t)) /\
  Forall2 sameExceptPosition (registry st) (registry st').
Proof.
  intros st'.
  assert (Hrefl : forall t, sameExceptPosition t t) by (intros t; repeat split; auto).
  assert (Hsame : st' = st ->
            terrains st' = terrains st /\ scene st' = scene st /\
            selectedTerrain st' = selectedTerrain st /\
            length (heap st') = length (heap st) /\
            (forall (a : nat) (t : Terrain.t),
                heap st !! a = Some t ->
                exists t', heap st' !! a = Some t' /\ sameExceptPosition t t' /\
                           (selectedTerrain st <> Some a -> t' = t)) /\
            Forall2 sameExceptPosition (registry st) (registry st')).
  { intros ->. do 4 (split; [reflexivity|]). split.
    - intros a t Ha. exists t. auto.
    - apply Forall2_same_length_lookup_2; [reflexivity|].
      intros i x y Hx Hy. rewrite Hx in Hy. injection Hy as <-. apply Hrefl. }
  subst st'. unfold onMouseMove in *.
  destruct (isDragging st); simpl in *; [|apply Hsame; reflexivity].
  destruct (selectedTerrain st) as [a|] eqn:Hsel; [|apply Hsame; reflexivity].
  destruct (heap st !! a) as [terrain|] eqn:Ha; [|apply Hsame; reflexivity].
  destruct (isValidGridPosition grid (registry st) _ _ _ _ _);
    [|apply Hsame; reflexivity].
  clear Hsame. set (t' := updateTerrainPosition grid _).
  assert (Ht' : sameExceptPosition terrain t') by (repeat split; auto).
  assert (Hobjects : forall (b : nat) (t : Terrain.t),
            heap st !! b = Some t ->
            exists u, <[a := t']> (heap st) !! b = Some u /\ sameExceptPosition t u /\
                      (Some a <> Some b -> u = t)).
  { intros b t Hb. destruct (decide (a = b)) as [->|Hne].
    - exists t'. rewrite list_lookup_insert_eq by (eapply lookup_lt_Some; exact Hb).
      rewrite Ha in Hb. injection Hb as <-.
      split; [reflexivity|]. split; [exact Ht'|]. congruence.
    - exists t. rewrite list_lookup_insert_ne by exact Hne. auto. }
  simpl. do 2 (split; [reflexivity|]). split; [exact Hsel|].
  split; [apply length_insert|]. split; [exact Hobjects|].
  - unfold registry. simpl. induction (terrains st) as [|b refs IH]; [constructor|].
    rewrite !deref_cons. destruct (heap st !! b) as [t|] eqn:Hb.
    + destruct (Hobjects b t Hb) as (u & Hu & Hsameu & _). rewrite Hu.
      constructor; assumption.
    + rewrite (proj2 (lookup_ge_None _ _)); [exact IH|].
      rewrite length_insert. apply lookup_ge_None. exact Hb.
Qed.

(** C10.  A drag-move event, accepted or not, keeps the [terrains] array,
    the scene and the selection, so no terrain is added or removed; every
    object other than the dragged one is unchanged, and the dragged one
    keeps its id, name, dimensions, rotation and visibility: it changes at
    most in its grid position and in the position of its model.  In a
    state reached from the initial one the rotation of its model is
    unchanged as well. *)
Theorem drag_move_frame :
  forall (grid : Grid.t) (point : Q * Q),
    (forall st : State,
        let st' := onMouseMove grid point st in
        terrains st' = terrains st /\
        scene st' = scene st /\
        selectedTerrain st' = selectedTerrain st /\
        length (heap st') = length (heap st) /\
        (forall (a : nat) (t : Terrain.t),
            heap st !! a = Some t ->
            exists t', heap st' !! a = Some t' /\
                       sameExceptPosition t t' /\
                       (selectedTerrain st <> Some a -> t' = t)) /\
        Forall2 sameExceptPosition (registry st) (registry st')) /\
    (forall (events : list Event) (a : nat) (t t' : Terrain.t),
        heap (run grid initialState events) !! a = Some t ->
        heap (onMouseMove grid point (run grid initialState events)) !! a = Some t' ->
        Model.rotation_y (Terrain.model t') = Model.rotation_y (Terrain.model t)).
Proof.
  intros grid point. split; [intros st; apply onMouseMove_frame|].
  intros events a t t' Ha Ha'.
  destruct (onMouseMove_frame grid point (run grid initialState events))
    as (_ & _ & _ & _ & Hobjects & _).
  destruct (Hobjects a t Ha) as (u & Hu & Hsame & _).
  rewrite Hu in Ha'. injection Ha' as <-.
  destruct Hsame as (_ & _ & _ & _ & _ & _ & Hrot). apply Hrot.
  exact (proj1 (Forall_lookup _ _) (run_model_rotation grid events) a t Ha).
Qed.

(** ** Occupancy depends on the set of the other terrains *)

Lemma for_loop_ext {A : Type} (n : nat) (i : Z) (f g : Z -> option A) :
  (forall j, i <= j < i + Z.of_nat n -> f j = g j) ->
  for_loop n i f = for_loop n i g.
Proof.
  revert i. induction n as [|n IH]; intros i Hext; simpl; [reflexivity|].
  rewrite (Hext i) by lia. destruct (g i); [reflexivity|].
  apply IH. intros j Hj. apply Hext. lia.
Qed.

Lemma for_range_ext {A : Type} (lo hi : Z) (f g : Z -> option A) :
  (forall j, lo <= j < hi -> f j = g j) ->
  for_range lo hi f = for_range lo hi g.
Proof.
  intros Hext. unfold for_range. apply for_loop_ext.
  intros j Hj. apply Hext. lia.
Qed.

Lemma scanGrid_ext (grid : Grid.t) (ts ts' : list Terrain.t) (cw cd ex : Z) :
  (forall x z, isPositionOccupied grid ts x z cw cd ex
               = isPositionOccupied grid ts' x z cw cd ex) ->
  scanGrid grid ts cw cd ex = scanGrid grid ts' cw cd ex.
Proof.
  intros Hocc. unfold scanGrid.
  apply for_range_ext. intros z _. apply for_range_ext. intros x _.
  rewrite Hocc. reflexivity.
Qed.

Lemma isPositionOccupied_mono (grid : Grid.t) (ts ts' : list Terrain.t)
    (x z width depth ex : Z) :
  (forall t, t ∈ ts -> Terrain.id t <> ex -> t ∈ ts') ->
  isPositionOccupied grid ts x z width depth ex = true ->
  isPositionOccupied grid ts' x z width depth ex = true.
Proof.
  intros Hsub Hocc. apply isPositionOccupied_true in Hocc as (t & Hin & Hne & Hov).
  apply isPositionOccupied_true. exists t. auto.
Qed.

Lemma isPositionOccupied_same_others (grid : Grid.t) (ts ts' : list Terrain.t)
    (x z width depth ex : Z) :
  (forall t, Terrain.id t <> ex -> (t ∈ ts <-> t ∈ ts')) ->
  isPositionOccupied grid ts x z width depth ex
  = isPositionOccupied grid ts' x z width depth ex.
Proof.
  intros Hsame.
  destruct (isPositionOccupied grid ts x z width depth ex) eqn:H1;
    destruct (isPositionOccupied grid ts' x z width depth ex) eqn:H2;
    try reflexivity.
  - rewrite <- H2. symmetry.
    apply (isPositionOccupied_mono grid ts ts'); [|exact H1].
    intros t Hin Hne. apply (Hsame t Hne). exact Hin.
  - rewrite <- H1.
    apply (isPositionOccupied_mono grid ts' ts); [|exact H2].
    intros t Hin Hne. apply (Hsame t Hne). exact Hin.
Qed.

(** X1.  The occupancy test, the validity test and the placement search
    read the registry as a set: two registries with the same terrains, in
    any order and with any repetition, give the same results. *)
Theorem placement_ignores_registry_order :
  forall (grid : Grid.t) (ts ts' : list Terrain.t),
    (forall t, t ∈ ts <-> t ∈ ts') ->
    (forall x z width depth ex,
        isPositionOccupied grid ts x z width depth ex
        = isPositionOccupied grid ts' x z width depth ex) /\
    (forall x z width depth ex,
        isValidGridPosition grid ts x z width depth ex
        = isValidGridPosition grid ts' x z width depth ex) /\
    (forall terrain,
        findAvailableGridPosition grid ts terrain
        = findAvailableGridPosition grid ts' terrain).
Proof.
  intros grid ts ts' Hsame.
  assert (Hocc : forall x z width depth ex,
             isPositionOccupied grid ts x z width depth ex
             = isPositionOccupied grid ts' x z width depth ex).
  { intros. apply isPositionOccupied_same_others. intros t _. apply Hsame. }
  split; [exact Hocc|]. split.
  - intros. unfold isValidGridPosition. rewrite Hocc. reflexivity.
  - intros terrain. unfold findAvailableGridPosition.
    rewrite (scanGrid_ext grid ts ts'); [reflexivity|]. intros. apply Hocc.
Qed.

(** X2.  Occupancy is monotone in the registry: a position occupied in a
    registry is occupied in every larger one, so a position that is valid
    stays valid when terrains are taken away. *)
Theorem fewer_terrains_keep_positions_valid :
  forall (grid : Grid.t) (ts ts' : list Terrain.t) (x z width depth ex : Z),
    (forall t, t ∈ ts -> t ∈ ts') ->
    (isPositionOccupied grid ts x z width depth ex = true ->
     isPositionOccupied grid ts' x z width depth ex = true) /\
    (isValidGridPosition grid ts' x z width depth ex = true ->
     isValidGridPosition grid ts x z width depth ex = true).
Proof.
  intros grid ts ts' x z width depth ex Hsub.
  assert (Hmono : isPositionOccupied grid ts x z width depth ex = true ->
                  isPositionOccupied grid ts' x z width depth ex = true).
  { apply isPositionOccupied_mono. intros t Hin _. exact (Hsub t Hin). }
  split; [exact Hmono|].
  intros Hvalid. apply isValidGridPosition_true in Hvalid as (Hx & Hz & Hfree).
  apply isValidGridPosition_true. split; [exact Hx|]. split; [exact Hz|].
  destruct (isPositionOccupied grid ts x z width depth ex) eqn:Hocc; [|reflexivity].
  rewrite (Hmono eq_refl) in Hfree. discriminate.
Qed.

(** ** Placement with no other terrain *)

Lemma isPositionOccupied_all_excluded (grid : Grid.t) (ts : list Terrain.t)
    (x z width depth ex : Z) :
  (forall t, t ∈ ts -> Terrain.id t = ex) ->
  isPositionOccupied grid ts x z width depth ex = false.
Proof.
  intros Hall. apply isPositionOccupied_false.
  intros t Hin Hne. exfalso. exact (Hne (Hall t Hin)).
Qed.

(** X3.  When the registry holds no terrain with another id, the search
    returns the corner [(-size, -size)] of the scanned square if the
    footprint is at most [2 * size] cells on both axes, and the fallback
    [(0,0)] otherwise. *)
Theorem placement_without_other_terrains :
  forall (grid : Grid.t) (ts : list Terrain.t) (terrain : Terrain.t),
    (forall t, t ∈ ts -> Terrain.id t = Terrain.id terrain) ->
    findAvailableGridPosition grid ts terrain
    = if (cellsWide grid terrain <=? 2 * Grid.size grid)
         && (cellsDeep grid terrain <=? 2 * Grid.size grid)
      then GridPosition.mk (- Grid.size grid) (- Grid.size grid)
      else GridPosition.mk 0 0.
Proof.
  intros grid ts terrain Hall.
  assert (Hfree : forall x z,
             isPositionOccupied grid ts x z (cellsWide grid terrain)
               (cellsDeep grid terrain) (Terrain.id terrain) = false)
    by (intros; apply isPositionOccupied_all_excluded; exact Hall).
  destruct ((cellsWide grid terrain <=? 2 * Grid.size grid)
            && (cellsDeep grid terrain <=? 2 * Grid.size grid)) eqn:Hfit.
  - apply andb_true_iff in Hfit as [Hw Hd]. apply Z.leb_le in Hw, Hd.
    assert (Hcorner : inScanRange grid (cellsWide grid terrain) (cellsDeep grid terrain)
                        (- Grid.size grid) (- Grid.size grid))
      by (unfold inScanRange; lia).
    pose proof (findAvailableGridPosition_found grid ts terrain _ _ Hcorner
                  (Hfree _ _)) as Hscan.
    apply scanGrid_Some in Hscan as ([Hx Hz] & _ & Hbefore).
    destruct (findAvailableGridPosition grid ts terrain) as [px pz]. simpl in *.
    destruct (Z.eq_dec pz (- Grid.size grid)) as [->|Hnz].
    + destruct (Z.eq_dec px (- Grid.size grid)) as [->|Hnx]; [reflexivity|].
      specialize (Hbefore _ _ Hcorner). rewrite Hfree in Hbefore.
      assert (Hlt : scannedBefore (- Grid.size grid) (- Grid.size grid) px
                      (- Grid.size grid)) by (right; lia).
      specialize (Hbefore Hlt). discriminate.
    + specialize (Hbefore _ _ Hcorner). rewrite Hfree in Hbefore.
      assert (Hlt : scannedBefore (- Grid.size grid) (- Grid.size grid) px pz)
        by (left; lia).
      specialize (Hbefore Hlt). discriminate.
  - apply findAvailableGridPosition_fallback. intros x z [Hx Hz].
    apply andb_false_iff in Hfit as [Hw|Hd]; apply Z.leb_gt in Hw || apply Z.leb_gt in Hd; lia.
Qed.

(** ** Room below the scanned range *)

Lemma free_far_left (grid : Grid.t) (ts : list Terrain.t) (width depth ex : Z) :
  exists x0, forall x z, x <= x0 ->
    isPositionOccupied grid ts x z width depth ex = false.
Proof.
  induction ts as [|t ts [x0 IH]].
  - exists 0. reflexivity.
  - exists (Z.min x0 (GridPosition.x (Terrain.gridPosition t) - width)).
    intros x z Hx. simpl.
    assert (Hno : noOverlap grid x z width depth t = true).
    { apply noOverlap_edges. left. lia. }
    rewrite Hno. simpl. rewrite IH by lia.
    destruct (Terrain.id t =? ex); reflexivity.
Qed.

(** X4.  There is no lower bound on positions, so the plane is never
    full: for every registry and footprint, all positions far enough to
    the left are valid in every row that respects the upper bound. *)
Theorem valid_positions_always_exist :
  forall (grid : Grid.t) (ts : list Terrain.t) (width depth ex : Z),
    exists x0, forall x z,
      x <= x0 -> z + depth <= Grid.size grid ->
      isValidGridPosition grid ts x z width depth ex = true.
Proof.
  intros grid ts width depth ex.
  destruct (free_far_left grid ts width depth ex) as [x0 Hfree].
  exists (Z.min x0 (Grid.size grid - width)). intros x z Hx Hz.
  apply isValidGridPosition_true. split; [lia|]. split; [exact Hz|].
  apply Hfree. lia.
Qed.

(** ** References stay well formed *)

Lemma loadTerrain_eq (grid : Grid.t) (now : Z) (size : Dimensions.t) (model : Model.t)
    (name : string) (st : State) :
  let t0 := createTerrainObject now size model name in
  let position := findAvailableGridPosition grid (registry (pushTerrain t0 st)) t0 in
  loadTerrain grid now size model name st
  = store (length (heap st))
      (updateTerrainPosition grid (Terrain.set_gridPosition position t0))
      (pushTerrain t0 st).
Proof.
  intros t0 position. unfold loadTerrain, positionTerrainOnGrid. fold t0.
  assert (Ha : heap (pushTerrain t0 st) !! length (heap st) = Some t0)
    by (simpl; apply list_lookup_middle; reflexivity).
  rewrite Ha. reflexivity.
Qed.

Lemma removeTerrain_wellFormed (terrainId : Z) (st : State) :
  wellFormed st -> wellFormed (removeTerrain terrainId st).
Proof.
  intros Hwf. pose proof Hwf as [Hnd Hvalid]. unfold removeTerrain.
  destruct (findIndex_terrain _ _ _) as [i|]; [|exact Hwf].
  destruct (terrains st !! i) as [a|]; [|exact Hwf].
  split; simpl.
  - exact (sublist_NoDup _ _ Hnd (sublist_delete _ i)).
  - intros b Hb. apply Hvalid.
    exact (elem_of_sublist _ _ _ Hb (sublist_delete _ i)).
Qed.

Lemma onMouseMove_cases (grid : Grid.t) (point : Q * Q) (st : State) :
  onMouseMove grid point st = st \/
  exists a terrain p,
    selectedTerrain st = Some a /\ isDragging st = true /\
    heap st !! a = Some terrain /\
    isValidGridPosition grid (registry st) (GridPosition.x p) (GridPosition.z p)
      (cellsWide grid terrain) (cellsDeep grid terrain) (Terrain.id terrain) = true /\
    p = GridPosition.mk
          (Math_round ((fst point - fst (dragOffset st))
                       / inject_Z (Z.pos (Grid.cellSize grid))))
          (Math_round ((snd point - snd (dragOffset st))
                       / inject_Z (Z.pos (Grid.cellSize grid)))) /\
    onMouseMove grid point st
    = store a (updateTerrainPosition grid (Terrain.set_gridPosition p terrain)) st.
Proof.
  unfold onMouseMove.
  destruct (isDragging st) eqn:Hdrag; simpl; [|left; reflexivity].
  destruct (selectedTerrain st) as [a|] eqn:Hsel; [|left; reflexivity].
  destruct (heap st !! a) as [terrain|] eqn:Ha; [|left; reflexivity].
  destruct (isValidGridPosition grid (registry st) _ _ _ _ _) eqn:Hvalid;
    [|left; reflexivity].
  right.
  exists a, terrain,
    (GridPosition.mk
       (Math_round ((fst point - fst (dragOffset st))
                    / inject_Z (Z.pos (Grid.cellSize grid))))
       (Math_round ((snd point - snd (dragOffset st))
                    / inject_Z (Z.pos (Grid.cellSize grid))))).
  split; [reflexivity|]. split; [reflexivity|]. split; [exact Ha|].
  split; [exact Hvalid|]. split; reflexivity.
Qed.

Lemma rotateTerrain_cases (grid : Grid.t) (terrainId : Z) (st : State) :
  rotateTerrain grid terrainId st = st \/
  exists a t p,
    find_terrain (heap st) (terrains st) (fun u => Terrain.id u =? terrainId) = Some a /\
    heap st !! a = Some t /\
    rotateTerrain grid terrainId st
    = store a (updateTerrainPosition grid (Terrain.set_gridPosition p (rotateObject t))) st.
Proof.
  destruct (find_terrain (heap st) (terrains st) (fun u => Terrain.id u =? terrainId))
    as [a|] eqn:Hfind.
  - destruct (heap st !! a) as [t|] eqn:Ha.
    + right. destruct (rotateTerrain_found grid terrainId st a t Hfind Ha) as (Heq & _).
      eexists a, t, _. split; [reflexivity|]. split; [exact Ha|exact Heq].
    + left. unfold rotateTerrain. rewrite Hfind, Ha. reflexivity.
  - left. unfold rotateTerrain. rewrite Hfind. reflexivity.
Qed.

Lemma handle_wellFormed (grid : Grid.t) (st : State) (e : Event) :
  wellFormed st -> wellFormed (handle grid st e).
Proof.
  intros Hwf. destruct e; simpl.
  - rewrite loadTerrain_eq. apply wellFormed_store, wellFormed_pushTerrain, Hwf.
  - unfold onMouseDown. destruct hit as [[found [px pz]]|]; [|exact Hwf].
    destruct (_ ≫= _); exact Hwf.
  - destruct (onMouseMove_cases grid point st) as [->|(a & t & p & _ & _ & _ & _ & _ & ->)];
      [exact Hwf|apply wellFormed_store, Hwf].
  - exact Hwf.
  - destruct (rotateTerrain_cases grid terrainId st) as [->|(a & t & p & _ & _ & ->)];
      [exact Hwf|apply wellFormed_store, Hwf].
  - unfold centerOnTerrain. destruct (find_terrain _ _ _) as [a|]; [|exact Hwf].
    destruct (heap st !! a); exact Hwf.
  - apply removeTerrain_wellFormed, Hwf.
Qed.

Lemma run_wellFormed_from (grid : Grid.t) (events : list Event) (st : State) :
  wellFormed st -> wellFormed (run grid st events).
Proof.
  revert st. induction events as [|e events IH]; intros st Hwf; [exact Hwf|].
  simpl. apply IH, handle_wellFormed, Hwf.
Qed.

Lemma initialState_wellFormed : wellFormed initialState.
Proof.
  split; [apply NoDup_nil; exact I|]. intros a Ha. inversion Ha.
Qed.

Lemma run_wellFormed (grid : Grid.t) (events : list Event) :
  wellFormed (run grid initialState events).
Proof. apply run_wellFormed_from, initialState_wellFormed. Qed.

Lemma run_synchronized (grid : Grid.t) (events : list Event) :
  Forall (synchronized grid) (heap (run grid initialState events)).
Proof.
  apply run_heap_Forall.
  - intros. split; [apply updateTerrainPosition_positioned|reflexivity].
  - intros. split; [apply updateTerrainPosition_positioned|reflexivity].
  - intros. split; [apply updateTerrainPosition_positioned|reflexivity].
  - constructor.
Qed.

(** ** Loading a terrain *)

Lemma isPositionOccupied_app_excluded (grid : Grid.t) (ts : list Terrain.t)
    (t : Terrain.t) (x z width depth : Z) :
  isPositionOccupied grid (ts ++ [t]) x z width depth (Terrain.id t)
  = isPositionOccupied grid ts x z width depth (Terrain.id t).
Proof.
  apply isPositionOccupied_same_others. intros u Hne. split.
  - intros Hin. apply elem_of_app in Hin as [Hin|Hin]; [exact Hin|].
    apply list_elem_of_singleton in Hin. subst u. contradiction.
  - intros Hin. apply elem_of_app. left. exact Hin.
Qed.

Lemma findAvailableGridPosition_app_self (grid : Grid.t) (ts : list Terrain.t)
    (t : Terrain.t) :
  findAvailableGridPosition grid (ts ++ [t]) t = findAvailableGridPosition grid ts t.
Proof.
  unfold findAvailableGridPosition.
  rewrite (scanGrid_ext grid (ts ++ [t]) ts); [reflexivity|].
  intros. apply isPositionOccupied_app_excluded.
Qed.

(** The state after a load: the new object is the created one at the
    position found for the registry as it was before. *)
Lemma loadTerrain_shape (grid : Grid.t) (now : Z) (size : Dimensions.t) (model : Model.t)
    (name : string) (st : State) :
  wellFormed st ->
  heap (loadTerrain grid now size model name st)
  = heap st ++
    [updateTerrainPosition grid
       (Terrain.set_gridPosition
          (findAvailableGridPosition grid (registry st)
             (createTerrainObject now size model name))
          (createTerrainObject now size model name))] /\
  terrains (loadTerrain grid now size model name st)
  = terrains st ++ [length (heap st)] /\
  registry (loadTerrain grid now size model name st)
  = registry st ++
    [updateTerrainPosition grid
       (Terrain.set_gridPosition
          (findAvailableGridPosition grid (registry st)
             (createTerrainObject now size model name))
          (createTerrainObject now size model name))].
Proof.
  intros Hwf.
  set (t0 := createTerrainObject now size model name).
  rewrite <- (findAvailableGridPosition_app_self grid (registry st) t0).
  rewrite <- (registry_pushTerrain t0 st Hwf).
  split; [apply loadTerrain_heap|]. split.
  - rewrite loadTerrain_eq. reflexivity.
  - unfold registry at 1. rewrite loadTerrain_heap, loadTerrain_eq. simpl.
    destruct Hwf as [_ Hvalid]. exact (deref_push _ _ _ Hvalid).
Qed.

Lemma loadTerrain_entry (grid : Grid.t) (now : Z) (size : Dimensions.t) (model : Model.t)
    (name : string) (st : State) :
  wellFormed st ->
  exists t',
    heap (loadTerrain grid now size model name st) = heap st ++ [t'] /\
    terrains (loadTerrain grid now size model name st)
    = terrains st ++ [length (heap st)] /\
    registry (loadTerrain grid now size model name st) = registry st ++ [t'] /\
    Terrain.id t' = now /\
    Terrain.dimensions t'
    = Dimensions.mk (Dimensions.width size) (Dimensions.depth size)
                    (Dimensions.height size) /\
    Terrain.gridPosition t'
    = findAvailableGridPosition grid (registry st)
        (createTerrainObject now size model name).
Proof.
  intros Hwf.
  destruct (loadTerrain_shape grid now size model name st Hwf) as (Hheap & Hterr & Hreg).
  eexists. split; [exact Hheap|]. split; [exact Hterr|]. split; [exact Hreg|].
  split; [reflexivity|]. split; reflexivity.
Qed.

(** X5.  Loading a terrain appends one object to the heap and one entry
    to the end of the registry and leaves every earlier terrain as it was.
    The new terrain has the id, name and bounding box it was created with,
    rotation 0, and the position that [findAvailableGridPosition] gives
    for the registry as it was before: the new object, already in the
    registry during the search, does not stand in its own way. *)
Theorem loadTerrain_appends :
  forall (grid : Grid.t) (now : Z) (size : Dimensions.t) (model : Model.t)
         (name : string) (st : State),
    wellFormed st ->
    exists t',
      heap (loadTerrain grid now size model name st) = heap st ++ [t'] /\
      terrains (loadTerrain grid now size model name st)
      = terrains st ++ [length (heap st)] /\
      registry (loadTerrain grid now size model name st) = registry st ++ [t'] /\
      Terrain.id t' = now /\ Terrain.name t' = name /\
      Terrain.dimensions t'
      = Dimensions.mk (Dimensions.width size) (Dimensions.depth size)
                      (Dimensions.height size) /\
      Terrain.rotation t' = 0%float /\ Terrain.visible t' = true /\
      Terrain.gridPosition t'
      = findAvailableGridPosition grid (registry st)
          (createTerrainObject now size model name) /\
      synchronized grid t'.
Proof.
  intros grid now size model name st Hwf.
  destruct (loadTerrain_shape grid now size model name st Hwf) as (Hheap & Hterr & Hreg).
  eexists. split; [exact Hheap|]. split; [exact Hterr|]. split; [exact Hreg|].
  do 6 (split; [reflexivity|]).
  split; [apply updateTerrainPosition_positioned|reflexivity].
Qed.

(** X6.  The collision test tells terrains apart by id only.  Two
    terrains loaded one after the other with the same id and the same
    bounding box get the same grid position, one on top of the other. *)
Theorem same_id_terrains_are_stacked :
  forall (grid : Grid.t) (now : Z) (size : Dimensions.t) (model1 model2 : Model.t)
         (name1 name2 : string) (st : State),
    wellFormed st ->
    exists t1 t2,
      registry (loadTerrain grid now size model2 name2
                  (loadTerrain grid now size model1 name1 st))
      = registry st ++ [t1; t2] /\
      Terrain.gridPosition t2 = Terrain.gridPosition t1 /\
      cellsWide grid t2 = cellsWide grid t1 /\
      cellsDeep grid t2 = cellsDeep grid t1.
Proof.
  intros grid now size model1 model2 name1 name2 st Hwf.
  destruct (loadTerrain_entry grid now size model1 name1 st Hwf)
    as (t1 & _ & _ & Hreg1 & Hid1 & Hdim1 & Hpos1).
  assert (Hwf1 : wellFormed (loadTerrain grid now size model1 name1 st)).
  { rewrite loadTerrain_eq. apply wellFormed_store, wellFormed_pushTerrain, Hwf. }
  destruct (loadTerrain_entry grid now size model2 name2 _ Hwf1)
    as (t2 & _ & _ & Hreg2 & Hid2 & Hdim2 & Hpos2).
  exists t1, t2. split; [rewrite Hreg2, Hreg1, <- app_assoc; reflexivity|].
  assert (Hcells : cellsWide grid t2 = cellsWide grid t1
                   /\ cellsDeep grid t2 = cellsDeep grid t1).
  { unfold cellsWide, cellsDeep. rewrite Hdim1, Hdim2. auto. }
  split; [|exact Hcells].
  rewrite Hpos2, Hpos1, Hreg1. unfold findAvailableGridPosition.
  change (cellsWide grid (createTerrainObject now size model2 name2))
    with (cellsWide grid (createTerrainObject now size model1 name1)).
  change (cellsDeep grid (createTerrainObject now size model2 name2))
    with (cellsDeep grid (createTerrainObject now size model1 name1)).
  change (Terrain.id (createTerrainObject now size model2 name2)) with now.
  change (Terrain.id (createTerrainObject now size model1 name1)) with now.
  rewrite <- Hid1.
  rewrite (scanGrid_ext grid (registry st ++ [t1]) (registry st)); [reflexivity|].
  intros. apply isPositionOccupied_app_excluded.
Qed.

(** ** Removing a terrain *)

Lemma findIndex_terrain_spec (h : list Terrain.t) (refs : list nat)
    (p : Terrain.t -> bool) (i : nat) :
  (forall b, b ∈ refs -> (b < length h)%nat) ->
  findIndex_terrain h refs p = Some i ->
  exists a t,
    refs !! i = Some a /\ h !! a = Some t /\ p t = true /\
    forall j u, (j < i)%nat -> deref h refs !! j = Some u -> p u = false.
Proof.
  revert i. induction refs as [|b refs IH]; intros i Hvalid;
    cbn [findIndex_terrain]; [discriminate|].
  assert (Hlt : (b < length h)%nat) by (apply Hvalid; left).
  destruct (lookup_lt_is_Some_2 h b Hlt) as [tb Htb]. rewrite Htb.
  destruct (p tb) eqn:Hp.
  - intros [= <-]. exists b, tb. repeat split; auto. intros j u Hj. lia.
  - intros Hfind.
    destruct (findIndex_terrain h refs p) as [k|] eqn:Hk; simpl in Hfind;
      [|discriminate].
    injection Hfind as <-.
    destruct (IH k) as (a & t & Ha & Ht & Hpt & Hbefore); [|reflexivity|].
    { intros c Hc. apply Hvalid. right. exact Hc. }
    exists a, t. split; [exact Ha|]. split; [exact Ht|]. split; [exact Hpt|].
    intros j u Hj Hu. rewrite deref_cons, Htb in Hu.
    destruct j as [|j]; simpl in Hu.
    + injection Hu as <-. exact Hp.
    + apply (Hbefore j u); [lia|exact Hu].
Qed.

Lemma findIndex_terrain_present (h : list Terrain.t) (refs : list nat)
    (p : Terrain.t -> bool) (t : Terrain.t) :
  t ∈ deref h refs -> p t = true -> is_Some (findIndex_terrain h refs p).
Proof.
  intros Hin Hp.
  destruct (findIndex_terrain h refs p) as [i|] eqn:Hfind; [eauto|].
  apply (proj1 (findIndex_terrain_None _ _ _)) in Hfind.
  pose proof (proj1 (find_terrain_None _ _ _) Hfind t Hin) as Hfalse.
  rewrite Hfalse in Hp. discriminate.
Qed.

(** The state after the removal of a registered terrain. *)
Lemma removeTerrain_first_match (terrainId : Z) (st : State) (t : Terrain.t) :
  wellFormed st ->
  t ∈ registry st -> Terrain.id t = terrainId ->
  exists i t0,
    registry st !! i = Some t0 /\ Terrain.id t0 = terrainId /\
    (forall j u, (j < i)%nat -> registry st !! j = Some u -> Terrain.id u <> terrainId) /\
    registry (removeTerrain terrainId st) = delete i (registry st) /\
    terrains (removeTerrain terrainId st) = delete i (terrains st) /\
    heap (removeTerrain terrainId st) = heap st.
Proof.
  intros Hwf Hin Hid. pose proof Hwf as [Hnd Hvalid].
  destruct (findIndex_terrain_present (heap st) (terrains st)
              (fun u => Terrain.id u =? terrainId) t Hin) as [i Hfind].
  { apply Z.eqb_eq. exact Hid. }
  destruct (findIndex_terrain_spec _ _ _ i Hvalid Hfind)
    as (a & t0 & Hi & Ha & Hp & Hbefore).
  apply Z.eqb_eq in Hp.
  assert (Hreg : registry st !! i = Some t0)
    by (rewrite (registry_lookup a i st Hwf Hi); exact Ha).
  assert (Hdel : registry (removeTerrain terrainId st) = delete i (registry st)).
  { unfold removeTerrain. rewrite Hfind, Hi. exact (deref_delete _ _ _ Hvalid). }
  exists i, t0. split; [exact Hreg|]. split; [exact Hp|]. split.
  { intros j u Hj Hu. apply Z.eqb_neq. exact (Hbefore j u Hj Hu). }
  split; [exact Hdel|]. split.
  { unfold removeTerrain. rewrite Hfind, Hi. reflexivity. }
  unfold removeTerrain. rewrite Hfind, Hi. reflexivity.
Qed.

(** X7.  Removing by an id that a terrain of the registry has takes out
    the first registry entry with that id and nothing else: the other
    entries keep their order, no terrain object is modified, and when ids
    are unique no terrain with that id remains. *)
Theorem removeTerrain_removes_first_match :
  forall (terrainId : Z) (st : State) (t : Terrain.t),
    wellFormed st ->
    t ∈ registry st -> Terrain.id t = terrainId ->
    exists i t0,
      registry st !! i = Some t0 /\ Terrain.id t0 = terrainId /\
      (forall j u, (j < i)%nat -> registry st !! j = Some u -> Terrain.id u <> terrainId) /\
      registry (removeTerrain terrainId st) = delete i (registry st) /\
      terrains (removeTerrain terrainId st) = delete i (terrains st) /\
      heap (removeTerrain terrainId st) = heap st /\
      (uniqueIds (registry st) ->
       forall u, u ∈ registry (removeTerrain terrainId st) -> Terrain.id u <> terrainId).
Proof.
  intros terrainId st t Hwf Hin Hid.
  destruct (removeTerrain_first_match terrainId st t Hwf Hin Hid)
    as (i & t0 & Hreg & Hp & Hbefore & Hdel & Hterr & Hheap).
  exists i, t0. do 6 (split; [assumption|]).
  intros Huniq u Hu Hidu. rewrite Hdel in Hu.
  apply list_elem_of_lookup in Hu as [j Hj].
  destruct (decide (j < i)%nat) as [Hlt|Hge].
  - rewrite list_lookup_delete_lt in Hj by exact Hlt.
    assert (j = i) by (apply (uniqueIds_lookup _ j i u t0 Huniq Hj Hreg); congruence).
    lia.
  - rewrite list_lookup_delete_ge in Hj by lia.
    assert (S j = i) by (apply (uniqueIds_lookup _ (S j) i u t0 Huniq Hj Hreg); congruence).
    lia.
Qed.

Lemma findIndex_terrain_app_last (h : list Terrain.t) (refs : list nat) (a : nat)
    (p : Terrain.t -> bool) (t : Terrain.t) :
  (forall b, b ∈ refs -> (b < length h)%nat) ->
  (forall u, u ∈ deref h refs -> p u = false) ->
  h !! a = Some t -> p t = true ->
  findIndex_terrain h (refs ++ [a]) p = Some (length refs).
Proof.
  intros Hvalid Hnone Ha Hp.
  induction refs as [|b refs IH]; simpl.
  - rewrite Ha, Hp. reflexivity.
  - assert (Hlt : (b < length h)%nat) by (apply Hvalid; left).
    destruct (lookup_lt_is_Some_2 h b Hlt) as [tb Htb]. rewrite Htb.
    assert (Hpb : p tb = false).
    { apply Hnone. rewrite deref_cons, Htb. left. }
    rewrite Hpb, IH; [reflexivity| |].
    + intros c Hc. apply Hvalid. right. exact Hc.
    + intros u Hu. apply Hnone. rewrite deref_cons, Htb. right. exact Hu.
Qed.

Lemma scene_remove_app_last (a : nat) (children : list nat) :
  a ∉ children -> scene_remove a (children ++ [a]) = children.
Proof.
  induction children as [|c children IH]; intros Hnotin; simpl.
  - rewrite Nat.eqb_refl. reflexivity.
  - apply not_elem_of_cons in Hnotin as [Hne Hnotin].
    destruct (Nat.eqb c a) eqn:Hc; [apply Nat.eqb_eq in Hc; congruence|].
    rewrite IH by exact Hnotin. reflexivity.
Qed.

Lemma delete_app_last {A : Type} (l : list A) (x : A) :
  delete (length l) (l ++ [x]) = l.
Proof. induction l as [|y l IH]; simpl; [reflexivity|]. rewrite IH. reflexivity. Qed.

(** X8.  Loading a terrain with a fresh id and removing it again by that
    id restores the [terrains] array, the registry with every terrain
    object in it, the scene and the drag state; only the heap keeps the
    unreachable object. *)
Theorem load_then_remove_restores :
  forall (grid : Grid.t) (now : Z) (size : Dimensions.t) (model : Model.t)
         (name : string) (st : State),
    wellFormed st -> sceneAllocated st ->
    freshId st (TerrainLoaded now size model name) = true ->
    let st' := removeTerrain now (loadTerrain grid now size model name st) in
    terrains st' = terrains st /\
    registry st' = registry st /\
    scene st' = scene st /\
    selectedTerrain st' = selectedTerrain st /\
    isDragging st' = isDragging st /\
    dragOffset st' = dragOffset st /\
    controls_enabled st' = controls_enabled st /\
    controls_target st' = controls_target st /\
    exists t', heap st' = heap st ++ [t'].
Proof.
  intros grid now size model name st Hwf Hscene Hfresh st'.
  pose proof Hwf as [Hnd Hvalid].
  destruct (loadTerrain_entry grid now size model name st Hwf)
    as (t' & Hheap & Hterr & Hreg & Hid & _).
  assert (Hnone : forall u, u ∈ deref (heap st ++ [t']) (terrains st) ->
                    (Terrain.id u =? now) = false).
  { intros u Hu. rewrite (deref_app_heap _ _ _ Hvalid) in Hu.
    simpl in Hfresh. rewrite forallb_forall in Hfresh.
    specialize (Hfresh u (proj1 (list_elem_of_In _ _) Hu)).
    apply negb_true_iff in Hfresh. exact Hfresh. }
  assert (Hfind : findIndex_terrain (heap st ++ [t']) (terrains st ++ [length (heap st)])
                    (fun u => Terrain.id u =? now) = Some (length (terrains st))).
  { apply (findIndex_terrain_app_last _ _ _ _ t').
    - intros b Hb. rewrite length_app. specialize (Hvalid b Hb). lia.
    - exact Hnone.
    - apply list_lookup_middle. reflexivity.
    - apply Z.eqb_eq. exact Hid. }
  assert (Hlast : (terrains st ++ [length (heap st)]) !! length (terrains st)
                  = Some (length (heap st)))
    by (apply list_lookup_middle; reflexivity).
  assert (Hst' : st' = mkState (heap st ++ [t']) (terrains st) (scene st)
                         (selectedTerrain st) (isDragging st) (dragOffset st)
                         (controls_enabled st) (controls_target st)).
  { subst st'. unfold removeTerrain. rewrite Hheap, Hterr, Hfind, Hlast.
    rewrite delete_app_last. rewrite loadTerrain_eq. simpl.
    rewrite scene_remove_app_last; [reflexivity|].
    intros Hin. specialize (Hscene _ Hin). lia. }
  rewrite Hst'. simpl. do 1 (split; [reflexivity|]). split.
  - unfold registry. simpl. exact (deref_app_heap _ _ _ Hvalid).
  - repeat (split; [reflexivity|]). exists t'. reflexivity.
Qed.

(** ** The drag state *)

Lemma scene_remove_subset (a b : nat) (children : list nat) :
  b ∈ scene_remove a children -> b ∈ children.
Proof.
  induction children as [|c children IH]; simpl; [intros H; exact H|].
  destruct (Nat.eqb c a).
  - intros Hin. right. exact Hin.
  - intros Hin. apply elem_of_cons in Hin as [->|Hin]; [left|right; apply IH, Hin].
Qed.

Lemma onMouseDown_cases (hit : option (option nat * (Q * Q))) (st : State) :
  wellFormed st -> dragState st ->
  onMouseDown hit st = st \/
  exists found px pz a terrain,
    hit = Some (found, (px, pz)) /\
    heap st !! a = Some terrain /\
    (found ≫= (fun i => terrains st !! i) = Some a \/
     found ≫= (fun i => terrains st !! i) = None /\ selectedTerrain st = Some a) /\
    onMouseDown hit st
    = mkState (heap st) (terrains st) (scene st) (Some a) true
              ((px - Model.position_x (Terrain.model terrain))%Q,
               (pz - Model.position_z (Terrain.model terrain))%Q)
              false (controls_target st).
Proof.
  intros [_ Hvalid] (_ & _ & Hsel). unfold onMouseDown.
  destruct hit as [[found [px pz]]|]; [|left; reflexivity].
  destruct (found ≫= (fun i => terrains st !! i)) as [a|] eqn:Hfound.
  - assert (Hlt : (a < length (heap st))%nat).
    { apply Hvalid. destruct found as [i|]; simpl in Hfound; [|discriminate].
      apply list_elem_of_lookup. eauto. }
    destruct (lookup_lt_is_Some_2 _ _ Hlt) as [terrain Ha].
    right. exists found, px, pz, a, terrain. simpl. rewrite Ha.
    split; [reflexivity|]. split; [reflexivity|]. split; [left; exact Hfound|reflexivity].
  - destruct (selectedTerrain st) as [a|] eqn:Hs; simpl.
    + destruct (lookup_lt_is_Some_2 _ _ (Hsel a eq_refl)) as [terrain Ha].
      right. exists found, px, pz, a, terrain. rewrite Ha.
      split; [reflexivity|]. split; [reflexivity|]. split; [right; auto|reflexivity].
    + left. destruct st; simpl in *. rewrite Hs. reflexivity.
Qed.

Lemma handle_dragState (grid : Grid.t) (st : State) (e : Event) :
  wellFormed st -> dragState st -> dragState (handle grid st e).
Proof.
  intros Hwf Hdrag. pose proof Hdrag as (Hctl & Hiff & Hsel).
  assert (Hstore : forall a t, dragState (store a t st)).
  { intros a t. split; [exact Hctl|]. split; [exact Hiff|].
    intros b Hb. simpl. rewrite length_insert. exact (Hsel b Hb). }
  destruct e; simpl.
  - rewrite loadTerrain_eq. split; [exact Hctl|]. split; [exact Hiff|].
    intros b Hb. simpl. rewrite length_insert, length_app. simpl.
    specialize (Hsel b Hb). lia.
  - destruct (onMouseDown_cases hit st Hwf Hdrag)
      as [->|(found & px & pz & a & terrain & _ & Ha & _ & ->)]; [exact Hdrag|].
    split; [reflexivity|]. split; simpl.
    + split; [eauto|reflexivity].
    + intros b [= <-]. eapply lookup_lt_Some. exact Ha.
  - destruct (onMouseMove_cases grid point st) as [->|(a & t & p & _ & _ & _ & _ & _ & ->)];
      [exact Hdrag|apply Hstore].
  - split; [reflexivity|]. split; simpl.
    + split; [discriminate|]. intros [x Hx]. discriminate.
    + intros b Hb. discriminate.
  - destruct (rotateTerrain_cases grid terrainId st) as [->|(a & t & p & _ & _ & ->)];
      [exact Hdrag|apply Hstore].
  - unfold centerOnTerrain. destruct (find_terrain _ _ _) as [a|]; [|exact Hdrag].
    destruct (heap st !! a); exact Hdrag.
  - unfold removeTerrain. destruct (findIndex_terrain _ _ _) as [i|]; [|exact Hdrag].
    destruct (terrains st !! i); exact Hdrag.
Qed.

Lemma handle_sceneAllocated (grid : Grid.t) (st : State) (e : Event) :
  sceneAllocated st -> sceneAllocated (handle grid st e).
Proof.
  intros Hscene.
  assert (Hstore : forall a t, sceneAllocated (store a t st)).
  { intros a t b Hb. simpl. rewrite length_insert. exact (Hscene b Hb). }
  destruct e; simpl.
  - rewrite loadTerrain_eq. intros b Hb. simpl in Hb |- *.
    rewrite length_insert, length_app. simpl.
    apply elem_of_app in Hb as [Hb|Hb].
    + specialize (Hscene b Hb). lia.
    + apply list_elem_of_singleton in Hb. subst b. lia.
  - unfold onMouseDown. destruct hit as [[found [px pz]]|]; [|exact Hscene].
    destruct (_ ≫= _); exact Hscene.
  - destruct (onMouseMove_cases grid point st) as [->|(a & t & p & _ & _ & _ & _ & _ & ->)];
      [exact Hscene|apply Hstore].
  - exact Hscene.
  - destruct (rotateTerrain_cases grid terrainId st) as [->|(a & t & p & _ & _ & ->)];
      [exact Hscene|apply Hstore].
  - unfold centerOnTerrain. destruct (find_terrain _ _ _) as [a|]; [|exact Hscene].
    destruct (heap st !! a); exact Hscene.
  - unfold removeTerrain. destruct (findIndex_terrain _ _ _) as [i|]; [|exact Hscene].
    destruct (terrains st !! i) as [a|]; [|exact Hscene].
    intros b Hb. simpl in Hb |- *. apply Hscene. exact (scene_remove_subset a b _ Hb).
Qed.

Lemma run_sceneAllocated (grid : Grid.t) (events : list Event) :
  sceneAllocated (run grid initialState events).
Proof.
  assert (Hgen : forall st, sceneAllocated st -> sceneAllocated (run grid st events)).
  { induction events as [|e events IH]; intros st Hs; [exact Hs|].
    simpl. apply IH, handle_sceneAllocated, Hs. }
  apply Hgen. intros a Ha. inversion Ha.
Qed.

(** X9.  In every state reached from the initial one, the orbit controls
    are enabled exactly when no drag is in progress, a drag is in progress
    exactly when a terrain is selected, the selected reference points to
    an object, and the [terrains] array holds distinct references to
    objects. *)
Theorem drag_state_invariant :
  forall (grid : Grid.t) (events : list Event),
    dragState (run grid initialState events) /\
    wellFormed (run grid initialState events).
Proof.
  intros grid events. split; [|apply run_wellFormed].
  assert (Hgen : forall st, wellFormed st -> dragState st ->
                            dragState (run grid st events)).
  { induction events as [|e events IH]; intros st Hwf Hd; [exact Hd|].
    simpl. apply IH; [apply handle_wellFormed, Hwf|apply handle_dragState; assumption]. }
  apply Hgen; [apply initialState_wellFormed|].
  split; [reflexivity|]. split.
  - split; [discriminate|]. intros [x Hx]. discriminate.
  - intros a Ha. discriminate.
Qed.

(** ** Snapping to the grid *)

Lemma Qfloor_unique (q : Q) (k : Z) :
  (inject_Z k <= q)%Q -> (q < inject_Z (k + 1))%Q -> Qfloor q = k.
Proof.
  intros Hle Hlt.
  pose proof (Qfloor_le q) as Hfl. pose proof (Qlt_floor q) as Hfu.
  assert (H1 : (inject_Z (Qfloor q) < inject_Z (k + 1))%Q)
    by (eapply Qle_lt_trans; eassumption).
  assert (H2 : (inject_Z k < inject_Z (Qfloor q + 1))%Q)
    by (eapply Qle_lt_trans; eassumption).
  rewrite <- Zlt_Qlt in H1, H2. lia.
Qed.

Lemma cellSize_nonzero (grid : Grid.t) : ~ (inject_Z (Z.pos (Grid.cellSize grid)) == 0)%Q.
Proof.
  pose proof (cellSize_pos grid) as Hc. intros H0. rewrite H0 in Hc.
  exact (Qlt_irrefl 0 Hc).
Qed.

Lemma Math_round_nearest (grid : Grid.t) (world : Q) :
  let cellSize := inject_Z (Z.pos (Grid.cellSize grid)) in
  let g := Math_round (world / cellSize) in
  (inject_Z g * cellSize - cellSize / 2 <= world)%Q /\
  (world < inject_Z g * cellSize + cellSize / 2)%Q.
Proof.
  intros cellSize g. pose proof (cellSize_pos grid) as Hc. fold cellSize in Hc.
  pose proof (cellSize_nonzero grid) as Hne. fold cellSize in Hne.
  unfold g, Math_round.
  pose proof (Qfloor_le (world / cellSize + (1 # 2))) as Hlo.
  pose proof (Qlt_floor (world / cellSize + (1 # 2))) as Hhi.
  set (f := Qfloor (world / cellSize + (1 # 2))) in *.
  rewrite inject_Z_plus in Hhi. change (inject_Z 1) with 1%Q in Hhi.
  assert (Hw : (world == world / cellSize * cellSize)%Q) by (field; exact Hne).
  assert (H1 : ((inject_Z f - (1 # 2)) * cellSize <= world / cellSize * cellSize)%Q).
  { apply Qmult_le_compat_r; [lra|apply Qlt_le_weak, Hc]. }
  assert (H2 : (world / cellSize * cellSize < (inject_Z f + (1 # 2)) * cellSize)%Q).
  { apply Qmult_lt_compat_r; [exact Hc|lra]. }
  rewrite <- Hw in H1, H2. split.
  - eapply Qle_trans; [|exact H1]. apply Qle_lteq. right. field.
  - eapply Qlt_le_trans; [exact H2|]. apply Qle_lteq. right. field.
Qed.

(** X10.  An accepted drag move commits the cell whose corner is nearest
    to the dragged world position: on each axis the committed grid line
    is within half a cell of the pointer position minus the drag offset.
    The terrain then lies under the upper bound and its model is at the
    centered position of the new cell. *)
Theorem accepted_drag_snaps_to_nearest_cell :
  forall (grid : Grid.t) (point : Q * Q) (st : State) (a : nat) (terrain : Terrain.t),
    isDragging st = true ->
    selectedTerrain st = Some a ->
    heap st !! a = Some terrain ->
    let cellSize := inject_Z (Z.pos (Grid.cellSize grid)) in
    let worldX := (fst point - fst (dragOffset st))%Q in
    let worldZ := (snd point - snd (dragOffset st))%Q in
    let gridX := Math_round (worldX / cellSize) in
    let gridZ := Math_round (worldZ / cellSize) in
    isValidGridPosition grid (registry st) gridX gridZ (cellsWide grid terrain)
      (cellsDeep grid terrain) (Terrain.id terrain) = true ->
    exists t',
      heap (onMouseMove grid point st) !! a = Some t' /\
      Terrain.gridPosition t' = GridPosition.mk gridX gridZ /\
      (inject_Z gridX * cellSize - cellSize / 2 <= worldX)%Q /\
      (worldX < inject_Z gridX * cellSize + cellSize / 2)%Q /\
      (inject_Z gridZ * cellSize - cellSize / 2 <= worldZ)%Q /\
      (worldZ < inject_Z gridZ * cellSize + cellSize / 2)%Q /\
      withinUpperBound grid t' /\
      synchronized grid t'.
Proof.
  intros grid point st a terrain Hdrag Hsel Ha cellSize worldX worldZ gridX gridZ Hvalid.
  eexists. split.
  - unfold onMouseMove. rewrite Hdrag, Hsel, Ha. simpl.
    fold cellSize worldX worldZ gridX gridZ. rewrite Hvalid. simpl.
    apply list_lookup_insert_eq. eapply lookup_lt_Some. exact Ha.
  - split; [reflexivity|].
    destruct (Math_round_nearest grid worldX) as [Hx1 Hx2].
    destruct (Math_round_nearest grid worldZ) as [Hz1 Hz2].
    fold cellSize in Hx1, Hx2, Hz1, Hz2.
    do 4 (split; [assumption|]).
    apply isValidGridPosition_true in Hvalid as (Hx & Hz & _).
    split; [split; assumption|].
    split; [apply updateTerrainPosition_positioned|reflexivity].
Qed.

(** ** Recomputing the position of a terrain *)

Lemma updateTerrainPosition_synchronized_id (grid : Grid.t) (t : Terrain.t) :
  synchronized grid t ->
  updateTerrainPosition grid
    (Terrain.set_gridPosition
       (GridPosition.mk (GridPosition.x (Terrain.gridPosition t))
                        (GridPosition.z (Terrain.gridPosition t))) t) = t.
Proof.
  intros [[Hx Hz] Hrot].
  destruct t as [i n [m px pz ry] [gx gz] d r v]. simpl in *.
  unfold updateTerrainPosition, Terrain.set_model, Terrain.set_gridPosition. simpl.
  unfold centeredCoordinate, cellsWide, cellsDeep, Math_ceil in *. simpl in *.
  rewrite <- Hx, <- Hz, Hrot. reflexivity.
Qed.

(** ** What a terrain object keeps *)

Lemma sameTerrain_refl (t : Terrain.t) : sameTerrain t t.
Proof. unfold sameTerrain. auto 10. Qed.

Lemma sameTerrain_trans (t1 t2 t3 : Terrain.t) :
  sameTerrain t1 t2 -> sameTerrain t2 t3 -> sameTerrain t1 t3.
Proof.
  intros (Hi & Hn & Hv & Hm & Hh & Hd) (Hi' & Hn' & Hv' & Hm' & Hh' & Hd').
  unfold sameTerrain.
  split; [congruence|]. split; [congruence|]. split; [congruence|].
  split; [congruence|]. split; [congruence|].
  destruct Hd as [[Hw Hdp]|[Hw Hdp]]; destruct Hd' as [[Hw' Hdp']|[Hw' Hdp']];
    [left|right|right|left]; split; congruence.
Qed.

Lemma handle_sameTerrain (grid : Grid.t) (st : State) (e : Event) (a : nat)
    (t : Terrain.t) :
  heap st !! a = Some t ->
  exists t', heap (handle grid st e) !! a = Some t' /\ sameTerrain t t'.
Proof.
  intros Ha.
  assert (Hkeep : heap (handle grid st e) = heap st ->
                  exists t', heap (handle grid st e) !! a = Some t' /\ sameTerrain t t').
  { intros ->. exists t. split; [exact Ha|apply sameTerrain_refl]. }
  assert (Hstore : forall b u p (f : Terrain.t -> Terrain.t),
             heap st !! b = Some u ->
             (forall v, sameTerrain v (f v)) ->
             exists t', <[b := updateTerrainPosition grid
                                (Terrain.set_gridPosition p (f u))]> (heap st) !! a
                        = Some t' /\ sameTerrain t t').
  { intros b u p f Hb Hf. destruct (decide (b = a)) as [->|Hne].
    - rewrite list_lookup_insert_eq by (eapply lookup_lt_Some; exact Ha).
      eexists. split; [reflexivity|]. rewrite Ha in Hb. injection Hb as <-.
      apply (sameTerrain_trans t (f t)); [apply Hf|].
      unfold sameTerrain. simpl. auto 10.
    - rewrite list_lookup_insert_ne by exact Hne. exists t.
      split; [exact Ha|apply sameTerrain_refl]. }
  destruct e; simpl in *.
  - rewrite loadTerrain_heap. exists t.
    split; [|apply sameTerrain_refl].
    rewrite lookup_app_l by (eapply lookup_lt_Some; exact Ha). exact Ha.
  - apply Hkeep. unfold onMouseDown. destruct hit as [[found [px pz]]|]; [|reflexivity].
    destruct (_ ≫= _); reflexivity.
  - destruct (onMouseMove_cases grid point st) as [Heq|(b & u & p & _ & _ & Hb & _ & _ & Heq)].
    + apply Hkeep. rewrite Heq. reflexivity.
    + rewrite Heq. simpl. apply (Hstore b u p (fun v => v) Hb). apply sameTerrain_refl.
  - apply Hkeep. reflexivity.
  - destruct (rotateTerrain_cases grid terrainId st) as [Heq|(b & u & p & _ & Hb & Heq)].
    + apply Hkeep. rewrite Heq. reflexivity.
    + rewrite Heq. simpl. apply (Hstore b u p rotateObject Hb).
      intros v. unfold sameTerrain. simpl. auto 10.
  - apply Hkeep. unfold centerOnTerrain. destruct (find_terrain _ _ _) as [b|]; [|reflexivity].
    destruct (heap st !! b); reflexivity.
  - apply Hkeep. unfold removeTerrain. destruct (findIndex_terrain _ _ _) as [i|]; [|reflexivity].
    destruct (terrains st !! i); reflexivity.
Qed.

(** X12.  No event frees or replaces a terrain object, and none assigns
    its id, name, visibility, height or mesh: over any sequence of
    events an object stays at its address with these fields as they were,
    and with its width and depth either as they were or exchanged. *)
Theorem terrain_identity_is_kept :
  forall (grid : Grid.t) (events : list Event) (st : State) (a : nat) (t : Terrain.t),
    heap st !! a = Some t ->
    exists t', heap (run grid st events) !! a = Some t' /\ sameTerrain t t'.
Proof.
  intros grid events. induction events as [|e events IH]; intros st a t Ha.
  - exists t. split; [exact Ha|apply sameTerrain_refl].
  - destruct (handle_sameTerrain grid st e a t Ha) as (t1 & Ha1 & Hs1).
    destruct (IH _ a t1 Ha1) as (t' & Ha' & Hs').
    exists t'. split; [exact Ha'|]. exact (sameTerrain_trans t t1 t' Hs1 Hs').
Qed.

(** ** The rotation angle *)

Lemma iter_quarterTurn_values (k : nat) :
  let r := Nat.iter k quarterTurn 0%float in
  r = 0%float \/ r = (Math_PI / 2)%float \/ r = Math_PI \/ r = (Math_PI * 3 / 2)%float.
Proof.
  induction k as [|k IH]; simpl; [left; reflexivity|].
  destruct IH as [-> | [-> | [-> | ->]]].
  - right. left. vm_compute. reflexivity.
  - right. right. left. vm_compute. reflexivity.
  - right. right. right. vm_compute. reflexivity.
  - left. vm_compute. reflexivity.
Qed.

(** X13.  In every state reached from the initial one the rotation of a
    terrain is one of the four binary64 numbers 0, [Math.PI / 2],
    [Math.PI] and [Math.PI * 3 / 2], so it is never negative and always
    below [Math.PI * 2], and the rotation of its model is that angle. *)
Theorem rotation_is_a_quarter_turn :
  forall (grid : Grid.t) (events : list Event) (t : Terrain.t),
    t ∈ heap (run grid initialState events) ->
    (Terrain.rotation t = 0%float \/
     Terrain.rotation t = (Math_PI / 2)%float \/
     Terrain.rotation t = Math_PI \/
     Terrain.rotation t = (Math_PI * 3 / 2)%float) /\
    (0 <=? Terrain.rotation t)%float = true /\
    (Terrain.rotation t <? Math_PI * 2)%float = true /\
    Model.rotation_y (Terrain.model t) = Terrain.rotation t.
Proof.
  intros grid events t Hin.
  pose proof (proj1 (Forall_forall _ _) (run_rotationInRange grid events) t Hin)
    as [k Hk].
  pose proof (proj1 (Forall_forall _ _) (run_model_rotation grid events) t Hin) as Hm.
  pose proof (iter_quarterTurn_values k) as Hvalues. simpl in Hvalues.
  rewrite <- Hk in Hvalues.
  split; [exact Hvalues|]. split; [|split; [|exact Hm]];
    destruct Hvalues as [-> | [-> | [-> | ->]]]; vm_compute; reflexivity.
Qed.

(** ** Rotation of a terrain with no other terrain around *)

Lemma elem_of_registry_store (a : nat) (r : Terrain.t) (st : State) (u : Terrain.t) :
  u ∈ registry (store a r st) -> u ∈ registry st \/ u = r.
Proof.
  intros Hu. apply elem_of_deref in Hu as (b & Hb & Hlook). simpl in Hlook.
  apply list_lookup_insert_Some in Hlook as [(_ & -> & _)|(_ & Hold)]; [right; reflexivity|].
  left. apply elem_of_deref. eauto.
Qed.

(** X14.  When the registry holds no terrain with another id, a rotation
    keeps the grid position whenever the exchanged footprint stays under
    the upper bound at that position; the footprint is exchanged. *)
Theorem lone_terrain_rotates_in_place :
  forall (grid : Grid.t) (terrainId : Z) (st : State) (a : nat) (t : Terrain.t),
    find_terrain (heap st) (terrains st) (fun u => Terrain.id u =? terrainId) = Some a ->
    heap st !! a = Some t ->
    (forall u, u ∈ registry st -> Terrain.id u = terrainId) ->
    GridPosition.x (Terrain.gridPosition t) + cellsDeep grid t <= Grid.size grid ->
    GridPosition.z (Terrain.gridPosition t) + cellsWide grid t <= Grid.size grid ->
    exists t',
      heap (rotateTerrain grid terrainId st) !! a = Some t' /\
      Terrain.gridPosition t' = Terrain.gridPosition t /\
      cellsWide grid t' = cellsDeep grid t /\
      cellsDeep grid t' = cellsWide grid t.
Proof.
  intros grid terrainId st a t Hfind Ha Hlone Hx Hz.
  destruct (find_terrain_Some _ _ _ _ Hfind) as (_ & t0 & _ & Ha0 & Hid).
  rewrite Ha in Ha0. injection Ha0 as <-. apply Z.eqb_eq in Hid.
  destruct (rotateTerrain_found grid terrainId st a t Hfind Ha) as (_ & Hlook & _).
  eexists. split; [exact Hlook|]. split; [|split; reflexivity].
  simpl. unfold resolveAfterRotation.
  assert (Hvalid : isValidGridPosition grid (registry (store a (rotateObject t) st))
                     (GridPosition.x (Terrain.gridPosition t))
                     (GridPosition.z (Terrain.gridPosition t))
                     (cellsWide grid (rotateObject t)) (cellsDeep grid (rotateObject t))
                     (Terrain.id (rotateObject t)) = true).
  { apply isValidGridPosition_true. split; [exact Hx|]. split; [exact Hz|].
    apply isPositionOccupied_all_excluded. intros u Hu.
    apply elem_of_registry_store in Hu as [Hu| ->].
    - rewrite (Hlone u Hu). symmetry. exact Hid.
    - reflexivity. }
  rewrite Hvalid. reflexivity.
Qed.

(** ** The footprint as a covering number *)

Lemma Math_ceil_least (q : Q) (n : Z) : Math_ceil q <= n <-> (q <= inject_Z n)%Q.
Proof.
  unfold Math_ceil. split.
  - intros Hle. eapply Qle_trans; [apply Qle_ceiling|].
    rewrite <- Zle_Qle. exact Hle.
  - intros Hq. pose proof (Qceiling_lt q) as Hlt.
    assert (H : (inject_Z (Qceiling q - 1) < inject_Z n)%Q)
      by (eapply Qlt_le_trans; eassumption).
    rewrite <- Zlt_Qlt in H. lia.
Qed.

Lemma div_cellSize_le (grid : Grid.t) (d : Q) (n : Z) :
  (d / inject_Z (Z.pos (Grid.cellSize grid)) <= inject_Z n)%Q <->
  (d <= inject_Z n * inject_Z (Z.pos (Grid.cellSize grid)))%Q.
Proof.
  pose proof (cellSize_pos grid) as Hc. pose proof (cellSize_nonzero grid) as Hne.
  set (c := inject_Z (Z.pos (Grid.cellSize grid))) in *. split.
  - intros Hle. apply (Qmult_le_compat_r _ _ c) in Hle; [|apply Qlt_le_weak, Hc].
    assert (Heq : (d / c * c == d)%Q) by (field; exact Hne).
    rewrite Heq in Hle. exact Hle.
  - intros Hle. apply Qle_shift_div_r; assumption.
Qed.

(** X15.  The footprint of a terrain is, on each axis, the least number
    of cells that covers its dimension: [n] cells are enough exactly when
    [n] is at least [cellsWide] (or [cellsDeep]). *)
Theorem footprint_is_least_cover :
  forall (grid : Grid.t) (terrain : Terrain.t) (n : Z),
    (cellsWide grid terrain <= n <->
     (Dimensions.width (Terrain.dimensions terrain)
      <= inject_Z n * inject_Z (Z.pos (Grid.cellSize grid)))%Q) /\
    (cellsDeep grid terrain <= n <->
     (Dimensions.depth (Terrain.dimensions terrain)
      <= inject_Z n * inject_Z (Z.pos (Grid.cellSize grid)))%Q).
Proof.
  intros grid terrain n. unfold cellsWide, cellsDeep.
  split; rewrite Math_ceil_least; apply div_cellSize_le.
Qed.

(** ** The frame of a rotation *)

(** X16.  A rotation changes the rotated terrain object only: the
    [terrains] array, the scene, the drag state and every other object
    are as before, also when the rotated terrain is moved to another
    position. *)
Theorem rotation_changes_one_object :
  forall (grid : Grid.t) (terrainId : Z) (st : State),
    let st' := rotateTerrain grid terrainId st in
    terrains st' = terrains st /\ scene st' = scene st /\
    selectedTerrain st' = selectedTerrain st /\ isDragging st' = isDragging st /\
    dragOffset st' = dragOffset st /\ controls_enabled st' = controls_enabled st /\
    controls_target st' = controls_target st /\
    length (heap st') = length (heap st) /\
    forall b,
      find_terrain (heap st) (terrains st) (fun u => Terrain.id u =? terrainId) <> Some b ->
      heap st' !! b = heap st !! b.
Proof.
  intros grid terrainId st st'. subst st'.
  destruct (rotateTerrain_cases grid terrainId st) as [->|(a & t & p & Hfind & _ & ->)].
  - repeat (split; [reflexivity|]). reflexivity.
  - simpl. repeat (split; [reflexivity|]). split; [apply length_insert|].
    intros b Hb. apply list_lookup_insert_ne. congruence.
Qed.

(** ** Dragging a terrain that is no longer in the registry *)

(** X17.  Once the selected terrain has been removed from the registry,
    a drag move can still write to the detached object but never changes
    the registry: the removed terrain is not put back and no registered
    terrain moves. *)
Theorem detached_terrain_cannot_disturb_registry :
  forall (grid : Grid.t) (point : Q * Q) (st : State) (a : nat) (t : Terrain.t),
    wellFormed st -> uniqueIds (registry st) ->
    selectedTerrain st = Some a ->
    a ∈ terrains st ->
    heap st !! a = Some t ->
    let st' := removeTerrain (Terrain.id t) st in
    (a ∉ terrains st') /\
    selectedTerrain st' = Some a /\
    terrains (onMouseMove grid point st') = terrains st' /\
    registry (onMouseMove grid point st') = registry st'.
Proof.
  intros grid point st a t Hwf Huniq Hsel Hin Ha st'.
  pose proof Hwf as [Hnd Hvalid].
  apply list_elem_of_lookup in Hin as [j Hj].
  assert (Hreg : registry st !! j = Some t)
    by (rewrite (registry_lookup a j st Hwf Hj); exact Ha).
  assert (Hmem : t ∈ registry st) by (apply list_elem_of_lookup; eauto).
  destruct (removeTerrain_first_match (Terrain.id t) st t Hwf Hmem eq_refl)
    as (i & t0 & Hi & Hid & _ & _ & Hterr & _).
  assert (i = j) by exact (uniqueIds_lookup _ i j t0 t Huniq Hi Hreg Hid). subst i.
  assert (Hnotin : a ∉ terrains st').
  { subst st'. rewrite Hterr. intros Hmem'.
    apply list_elem_of_lookup in Hmem' as [k Hk].
    destruct (decide (k < j)%nat) as [Hlt|Hge].
    - rewrite list_lookup_delete_lt in Hk by exact Hlt.
      pose proof (NoDup_lookup _ _ _ _ Hnd Hk Hj). lia.
    - rewrite list_lookup_delete_ge in Hk by lia.
      pose proof (NoDup_lookup _ _ _ _ Hnd Hk Hj). lia. }
  assert (Hsel' : selectedTerrain st' = Some a).
  { subst st'. unfold removeTerrain.
    destruct (findIndex_terrain _ _ _) as [i|]; [|exact Hsel].
    destruct (terrains st !! i); exact Hsel. }
  split; [exact Hnotin|]. split; [exact Hsel'|].
  destruct (onMouseMove_cases grid point st')
    as [->|(b & u & p & Hselb & _ & _ & _ & _ & ->)]; [split; reflexivity|].
  rewrite Hsel' in Hselb. injection Hselb as <-.
  split; [reflexivity|]. apply registry_store_notin. exact Hnotin.
Qed.

(** ** Pointer coordinates *)

(** X18.  For a pointer inside a window of positive size,
    [updateMousePosition] gives coordinates between -1 and 1 on both
    axes, growing to the right and upward, from which the client
    coordinates are recovered. *)
Theorem updateMousePosition_normalizes :
  forall clientX clientY innerWidth innerHeight : Q,
    (0 < innerWidth)%Q -> (0 < innerHeight)%Q ->
    (0 <= clientX)%Q -> (clientX <= innerWidth)%Q ->
    (0 <= clientY)%Q -> (clientY <= innerHeight)%Q ->
    let mouse := updateMousePosition clientX clientY innerWidth innerHeight in
    (-1 <= fst mouse)%Q /\ (fst mouse <= 1)%Q /\
    (-1 <= snd mouse)%Q /\ (snd mouse <= 1)%Q /\
    (clientX == (fst mouse + 1) * (1 # 2) * innerWidth)%Q /\
    (clientY == (1 - snd mouse) * (1 # 2) * innerHeight)%Q.
Proof.
  intros cx cy W H HW HH Hx0 Hx1 Hy0 Hy1 mouse. subst mouse. simpl.
  assert (HWne : ~ (W == 0)%Q) by (intros E; rewrite E in HW; exact (Qlt_irrefl 0 HW)).
  assert (HHne : ~ (H == 0)%Q) by (intros E; rewrite E in HH; exact (Qlt_irrefl 0 HH)).
  assert (Hqx0 : (0 <= cx / W)%Q)
    by (apply Qle_shift_div_l; [exact HW|rewrite Qmult_0_l; exact Hx0]).
  assert (Hqx1 : (cx / W <= 1)%Q)
    by (apply Qle_shift_div_r; [exact HW|rewrite Qmult_1_l; exact Hx1]).
  assert (Hqy0 : (0 <= cy / H)%Q)
    by (apply Qle_shift_div_l; [exact HH|rewrite Qmult_0_l; exact Hy0]).
  assert (Hqy1 : (cy / H <= 1)%Q)
    by (apply Qle_shift_div_r; [exact HH|rewrite Qmult_1_l; exact Hy1]).
  split; [|split; [|split; [|split; [|split]]]];
    try (field; assumption);
    set (qx := (cx / W)%Q) in *; set (qy := (cy / H)%Q) in *;
    clearbody qx qy; lra.
Qed.

(** ** Highlighting *)

Lemma highlightChild_roundtrip (child : Object3D) :
  material (highlightChild false (highlightChild true child)) = material child /\
  isMesh (highlightChild false (highlightChild true child)) = isMesh child.
Proof.
  destruct child as [mesh m original]. destruct mesh; simpl; auto.
Qed.

(** X19.  Highlighting a terrain and then removing the highlight gives
    every node its material back, whatever was stored in the nodes
    before; nodes that are not meshes are never touched, and removing the
    highlight of nodes that were never highlighted changes nothing. *)
Theorem highlight_then_unhighlight_restores :
  forall nodes : list Object3D,
    map material (highlightTerrain false (highlightTerrain true nodes))
    = map material nodes /\
    (forall highlight node,
        node ∈ nodes -> isMesh node = false -> highlightChild highlight node = node) /\
    ((forall node, node ∈ nodes -> originalMaterial node = None) ->
     highlightTerrain false nodes = nodes).
Proof.
  intros nodes. split; [|split].
  - unfold highlightTerrain. rewrite !map_map.
    apply map_ext. intros child. apply highlightChild_roundtrip.
  - intros highlight node _ Hmesh. unfold highlightChild. rewrite Hmesh. reflexivity.
  - intros Hnever. unfold highlightTerrain.
    rewrite <- (map_id nodes) at 2. apply map_ext_in. intros node Hin.
    unfold highlightChild.
    rewrite (Hnever node (proj2 (list_elem_of_In _ _) Hin)).
    destruct (isMesh node); reflexivity.
Qed.

(** X20.  A second highlight before the first one is removed overwrites
    the stored material with the highlight material: removing the
    highlight afterwards leaves every mesh with the highlight material
    and the material of the asset is lost. *)
Theorem double_highlight_loses_material :
  forall nodes : list Object3D,
    map material
      (highlightTerrain false (highlightTerrain true (highlightTerrain true nodes)))
    = map material (highlightTerrain true nodes) /\
    forall node,
      node ∈ highlightTerrain false (highlightTerrain true (highlightTerrain true nodes)) ->
      isMesh node = true ->
      exists color,
        material node = PhongMaterial color 0x00ff00 (3 # 10) /\
        originalMaterial node = Some (material node).
Proof.
  intros nodes. unfold highlightTerrain. split.
  - rewrite !map_map. apply map_ext. intros child.
    apply (proj1 (highlightChild_roundtrip (highlightChild true child))).
  - intros node Hin Hmesh. rewrite !map_map in Hin.
    apply list_elem_of_In, in_map_iff in Hin as (child & <- & _).
    destruct child as [mesh m original].
    destruct mesh; simpl in *; [|discriminate].
    eexists. split; reflexivity.
Qed.

(** ** A drag does not depend on where the dragged terrain is *)

Lemma isPositionOccupied_insert_excluded (grid : Grid.t) (ts : list Terrain.t) (i : nat)
    (t t' : Terrain.t) (x z width depth : Z) :
  ts !! i = Some t -> Terrain.id t' = Terrain.id t ->
  isPositionOccupied grid (<[i := t']> ts) x z width depth (Terrain.id t)
  = isPositionOccupied grid ts x z width depth (Terrain.id t).
Proof.
  intros Hi Hid. apply isPositionOccupied_same_others. intros u Hne. split.
  - intros Hu. apply list_elem_of_lookup in Hu as [j Hj].
    apply list_lookup_insert_Some in Hj as [(_ & <- & _)|(_ & Hj)]; [congruence|].
    apply list_elem_of_lookup. eauto.
  - intros Hu. apply list_elem_of_lookup in Hu as [j Hj].
    apply list_elem_of_lookup. exists j.
    destruct (decide (i = j)) as [->|Hij]; [congruence|].
    rewrite list_lookup_insert_ne by exact Hij. exact Hj.
Qed.

Lemma store_same (a : nat) (t : Terrain.t) (st : State) :
  heap st !! a = Some t -> store a t st = st.
Proof.
  intros Ha. destruct st as [h ts sc sel drag off en tg]. unfold store, set_heap.
  simpl in *. rewrite list_insert_id by exact Ha. reflexivity.
Qed.

Lemma store_store (a : nat) (t t' : Terrain.t) (st : State) :
  store a t (store a t' st) = store a t st.
Proof. unfold store, set_heap. simpl. rewrite list_insert_insert_eq. reflexivity. Qed.

Lemma onMouseMove_dragging (grid : Grid.t) (point : Q * Q) (st : State) (a : nat)
    (t : Terrain.t) :
  isDragging st = true -> selectedTerrain st = Some a -> heap st !! a = Some t ->
  onMouseMove grid point st
  = if isValidGridPosition grid (registry st)
         (Math_round ((fst point - fst (dragOffset st))
                      / inject_Z (Z.pos (Grid.cellSize grid))))
         (Math_round ((snd point - snd (dragOffset st))
                      / inject_Z (Z.pos (Grid.cellSize grid))))
         (cellsWide grid t) (cellsDeep grid t) (Terrain.id t)
    then store a
           (updateTerrainPosition grid
              (Terrain.set_gridPosition
                 (GridPosition.mk
                    (Math_round ((fst point - fst (dragOffset st))
                                 / inject_Z (Z.pos (Grid.cellSize grid))))
                    (Math_round ((snd point - snd (dragOffset st))
                                 / inject_Z (Z.pos (Grid.cellSize grid))))) t)) st
    else st.
Proof.
  intros Hdrag Hsel Ha. unfold onMouseMove. rewrite Hdrag, Hsel, Ha. reflexivity.
Qed.

Lemma onMouseMove_keeps_validity (grid : Grid.t) (point : Q * Q) (st : State) (a : nat)
    (t : Terrain.t) (x z width depth : Z) :
  wellFormed st -> selectedTerrain st = Some a -> heap st !! a = Some t ->
  isValidGridPosition grid (registry (onMouseMove grid point st)) x z width depth
    (Terrain.id t)
  = isValidGridPosition grid (registry st) x z width depth (Terrain.id t).
Proof.
  intros Hwf Hsel Ha.
  destruct (onMouseMove_cases grid point st)
    as [->|(b & u & p & Hselb & _ & Hb & _ & _ & ->)]; [reflexivity|].
  rewrite Hsel in Hselb. injection Hselb as <-.
  rewrite Ha in Hb. injection Hb as <-.
  destruct (decide (a ∈ terrains st)) as [Hin|Hnotin].
  - apply list_elem_of_lookup in Hin as [i Hi].
    rewrite (registry_store_in a i _ st Hwf Hi).
    unfold isValidGridPosition.
    rewrite (isPositionOccupied_insert_excluded grid (registry st) i t); [reflexivity| |].
    + rewrite (registry_lookup a i st Hwf Hi). exact Ha.
    + reflexivity.
  - rewrite (registry_store_notin _ _ _ Hnotin). reflexivity.
Qed.

(** X21.  For the dragged terrain, which cells are valid does not depend
    on where it currently is: a drag move, accepted or not, leaves the
    validity of every candidate position for that terrain as it was.  So
    a further move whose candidate is the cell the terrain came from is
    accepted exactly when that cell is a valid position for it: if it is,
    the move back restores the state (for a terrain whose model is where
    [updateTerrainPosition] puts it); if it is not, as after the [(0,0)]
    fallback, the move back is rejected and changes nothing. *)
Theorem drag_keeps_validity_of_positions :
  forall (grid : Grid.t) (point : Q * Q) (st : State) (a : nat) (t : Terrain.t),
    wellFormed st ->
    selectedTerrain st = Some a ->
    heap st !! a = Some t ->
    (forall x z width depth,
        isValidGridPosition grid (registry (onMouseMove grid point st)) x z width depth
          (Terrain.id t)
        = isValidGridPosition grid (registry st) x z width depth (Terrain.id t)) /\
    (forall back : Q * Q,
        Math_round ((fst back - fst (dragOffset st))
                    / inject_Z (Z.pos (Grid.cellSize grid)))
        = GridPosition.x (Terrain.gridPosition t) ->
        Math_round ((snd back - snd (dragOffset st))
                    / inject_Z (Z.pos (Grid.cellSize grid)))
        = GridPosition.z (Terrain.gridPosition t) ->
        (isValidGridPosition grid (registry st)
           (GridPosition.x (Terrain.gridPosition t))
           (GridPosition.z (Terrain.gridPosition t))
           (cellsWide grid t) (cellsDeep grid t) (Terrain.id t) = true ->
         synchronized grid t ->
         onMouseMove grid back (onMouseMove grid point st) = st) /\
        (isValidGridPosition grid (registry st)
           (GridPosition.x (Terrain.gridPosition t))
           (GridPosition.z (Terrain.gridPosition t))
           (cellsWide grid t) (cellsDeep grid t) (Terrain.id t) = false ->
         onMouseMove grid back (onMouseMove grid point st)
         = onMouseMove grid point st)).
Proof.
  intros grid point st a t Hwf Hsel Ha.
  split; [intros x z width depth; exact (onMouseMove_keeps_validity _ _ _ _ _ _ _ _ _ Hwf Hsel Ha)|].
  intros back Hbx Hbz.
  destruct (isDragging st) eqn:Hdrag.
  2:{ assert (Hid : forall q, onMouseMove grid q st = st)
        by (intros q; unfold onMouseMove; rewrite Hdrag; reflexivity).
      rewrite !Hid. split; reflexivity. }
  pose proof (onMouseMove_keeps_validity grid point st a t
                (GridPosition.x (Terrain.gridPosition t))
                (GridPosition.z (Terrain.gridPosition t))
                (cellsWide grid t) (cellsDeep grid t) Hwf Hsel Ha) as Hsame.
  rewrite (onMouseMove_dragging grid point st a t Hdrag Hsel Ha) in Hsame |- *.
  destruct (isValidGridPosition grid (registry st)
              (Math_round ((fst point - fst (dragOffset st))
                           / inject_Z (Z.pos (Grid.cellSize grid))))
              (Math_round ((snd point - snd (dragOffset st))
                           / inject_Z (Z.pos (Grid.cellSize grid))))
              (cellsWide grid t) (cellsDeep grid t) (Terrain.id t)) eqn:Hmove.
  - set (t' := updateTerrainPosition grid
                 (Terrain.set_gridPosition
                    (GridPosition.mk
                       (Math_round ((fst point - fst (dragOffset st))
                                    / inject_Z (Z.pos (Grid.cellSize grid))))
                       (Math_round ((snd point - snd (dragOffset st))
                                    / inject_Z (Z.pos (Grid.cellSize grid))))) t)) in *.
    assert (Ha' : heap (store a t' st) !! a = Some t').
    { simpl. apply list_lookup_insert_eq. eapply lookup_lt_Some. exact Ha. }
    rewrite (onMouseMove_dragging grid back (store a t' st) a t' Hdrag Hsel Ha').
    change (dragOffset (store a t' st)) with (dragOffset st).
    rewrite Hbx, Hbz.
    change (cellsWide grid t') with (cellsWide grid t).
    change (cellsDeep grid t') with (cellsDeep grid t).
    change (Terrain.id t') with (Terrain.id t).
    rewrite Hsame.
    split; intros Hvalid; rewrite Hvalid; [|reflexivity].
    intros Hsync. rewrite store_store.
    change (updateTerrainPosition grid
              (Terrain.set_gridPosition
                 (GridPosition.mk (GridPosition.x (Terrain.gridPosition t))
                                  (GridPosition.z (Terrain.gridPosition t))) t'))
      with (updateTerrainPosition grid
              (Terrain.set_gridPosition
                 (GridPosition.mk (GridPosition.x (Terrain.gridPosition t))
                                  (GridPosition.z (Terrain.gridPosition t))) t)).
    rewrite (updateTerrainPosition_synchronized_id grid t Hsync).
    exact (store_same a t st Ha).
  - rewrite (onMouseMove_dragging grid back st a t Hdrag Hsel Ha).
    rewrite Hbx, Hbz.
    split; intros Hvalid; rewrite Hvalid; [|reflexivity].
    intros Hsync.
    rewrite (updateTerrainPosition_synchronized_id grid t Hsync).
    exact (store_same a t st Ha).
Qed.

End Commands.

(** ** The theorems at concrete inputs *)

(** The invariants hold after [sessionEvents], which relocate the second
    terrain at its rotation. *)
Lemma registry_invariants_preserved_witness :
  admissible modelOrigin 20 squareRing defaultGrid initialState sessionEvents = true /\
  NO_OVERLAP defaultGrid
    (registry (run modelOrigin 20 squareRing defaultGrid initialState sessionEvents)) /\
  UPPER_BOUND defaultGrid
    (registry (run modelOrigin 20 squareRing defaultGrid initialState sessionEvents)).
Proof.
  assert (Hadm : admissible modelOrigin 20 squareRing defaultGrid initialState
                   sessionEvents = true) by (vm_compute; reflexivity).
  split; [exact Hadm|].
  exact (proj1 (proj2 (registry_invariants_preserved modelOrigin 20 squareRing
                         defaultGrid))
           sessionEvents Hadm).
Defined.

(** C1, the claim as stated fails: the collision test skips terrains by
    id, and nothing keeps the ids of two terrains apart.  After
    [sameIdEvents] no fallback has been taken, both terrains are at
    [(-10,-10)] with a footprint of 2 by 1 cells, and the cell
    [(-10,-10)] belongs to both. *)
Lemma same_id_placements_overlap :
  fallbackFree modelOrigin 20 squareRing defaultGrid initialState sameIdEvents = true /\
  map (fun t => (Terrain.gridPosition t, cellsWide defaultGrid t, cellsDeep defaultGrid t))
      (registry (run modelOrigin 20 squareRing defaultGrid initialState sameIdEvents))
  = [(GridPosition.mk (-10) (-10), 2, 1); (GridPosition.mk (-10) (-10), 2, 1)] /\
  ~ NO_OVERLAP defaultGrid
      (registry (run modelOrigin 20 squareRing defaultGrid initialState sameIdEvents)).
Proof.
  split; [vm_compute; reflexivity|]. split; [vm_compute; reflexivity|].
  intros Hno.
  refine (Hno 0%nat 1%nat _ _ _ eq_refl eq_refl (-10) (-10) _); [discriminate|].
  split; vm_compute; repeat split; discriminate.
Qed.


(** Scenario B through the rejection theorem. *)
Lemma rejected_drag_leaves_state_unchanged_witness :
  selectedTerrain scenarioB = Some 1%nat /\
  onMouseMove defaultGrid (10%Q, 0%Q) scenarioB = scenarioB.
Proof.
  split; [reflexivity|].
  apply (proj1 rejected_drag_leaves_state_unchanged defaultGrid (10%Q, 0%Q) scenarioB
           1%nat (updateTerrainPosition defaultGrid (terrainAt 2 20 20 2 0))).
  - reflexivity.
  - reflexivity.
  - right. right. vm_compute. reflexivity.
Defined.

(** Commands for the id 3 after [sessionEvents], where the ids are 1 and
    2. *)
Lemma unknown_id_is_noop_witness :
  (Terrain.id <$>
     registry (run modelOrigin 20 squareRing defaultGrid initialState sessionEvents))
  = [1; 2] /\
  rotateTerrain 20 squareRing defaultGrid 3
    (run modelOrigin 20 squareRing defaultGrid initialState sessionEvents)
  = run modelOrigin 20 squareRing defaultGrid initialState sessionEvents /\
  centerOnTerrain modelOrigin 3
    (run modelOrigin 20 squareRing defaultGrid initialState sessionEvents)
  = run modelOrigin 20 squareRing defaultGrid initialState sessionEvents /\
  removeTerrain 3
    (run modelOrigin 20 squareRing defaultGrid initialState sessionEvents)
  = run modelOrigin 20 squareRing defaultGrid initialState sessionEvents.
Proof.
  split; [vm_compute; reflexivity|].
  apply (unknown_id_is_noop modelOrigin 20 squareRing defaultGrid 3
           (run modelOrigin 20 squareRing defaultGrid initialState sessionEvents)).
  assert (H : forallb (fun t => negb (Terrain.id t =? 3))
                (registry (run modelOrigin 20 squareRing defaultGrid initialState
                             sessionEvents)) = true)
    by (vm_compute; reflexivity).
  rewrite forallb_forall in H. intros t Ht.
  specialize (H t (proj1 (list_elem_of_In _ _) Ht)).
  apply negb_true_iff, Z.eqb_neq in H. exact H.
Defined.

(** Four rotations of the terrain with id 2 after [sessionEvents]. *)
Lemma four_rotations_restore_witness :
  find_terrain
    (heap (run modelOrigin 20 squareRing defaultGrid initialState sessionEvents))
    (terrains (run modelOrigin 20 squareRing defaultGrid initialState sessionEvents))
    (fun u => Terrain.id u =? 2) = Some 1%nat /\
  exists t t4,
    heap (run modelOrigin 20 squareRing defaultGrid initialState sessionEvents) !! 1%nat
    = Some t /\
    heap (rotateTerrain 20 squareRing defaultGrid 2
            (rotateTerrain 20 squareRing defaultGrid 2
               (rotateTerrain 20 squareRing defaultGrid 2
                  (rotateTerrain 20 squareRing defaultGrid 2
                     (run modelOrigin 20 squareRing defaultGrid initialState
                          sessionEvents))))) !! 1%nat
    = Some t4 /\
    Terrain.rotation t4 = Terrain.rotation t /\
    Dimensions.width (Terrain.dimensions t4) = Dimensions.width (Terrain.dimensions t) /\
    Dimensions.depth (Terrain.dimensions t4) = Dimensions.depth (Terrain.dimensions t).
Proof.
  assert (Hfind :
            find_terrain
              (heap (run modelOrigin 20 squareRing defaultGrid initialState sessionEvents))
              (terrains (run modelOrigin 20 squareRing defaultGrid initialState
                             sessionEvents))
              (fun u => Terrain.id u =? 2) = Some 1%nat) by (vm_compute; reflexivity).
  split; [exact Hfind|].
  destruct (heap (run modelOrigin 20 squareRing defaultGrid initialState sessionEvents)
              !! 1%nat) as [t|] eqn:Ha; [|vm_compute in Ha; discriminate].
  destruct (four_rotations_restore modelOrigin 20 squareRing defaultGrid sessionEvents
              2 1%nat t Hfind Ha) as (t4 & Ha4 & _ & Hrot & Hw & Hd & _).
  exists t, t4. auto.
Defined.

(** ** The further properties at concrete inputs *)

Lemma placement_ignores_registry_order_witness :
  findAvailableGridPosition defaultGrid [(terrainAt 1 20 20 0 0); (terrainAt 2 20 20 2 0)] (terrainAt 3 10 10 0 0)
  = findAvailableGridPosition defaultGrid [(terrainAt 2 20 20 2 0); (terrainAt 1 20 20 0 0); (terrainAt 1 20 20 0 0)] (terrainAt 3 10 10 0 0).
Proof.
  apply (placement_ignores_registry_order defaultGrid [(terrainAt 1 20 20 0 0); (terrainAt 2 20 20 2 0)] [(terrainAt 2 20 20 2 0); (terrainAt 1 20 20 0 0); (terrainAt 1 20 20 0 0)]).
  intros t. rewrite !elem_of_cons. split; intros H; decompose [or] H; auto;
    match goal with H : _ ∈ [] |- _ => inversion H end.
Defined.

Lemma fewer_terrains_keep_positions_valid_witness :
  isValidGridPosition defaultGrid [(terrainAt 1 20 20 0 0); (terrainAt 2 20 20 2 0)] 4 0 2 2 3 = true /\
  isValidGridPosition defaultGrid [(terrainAt 1 20 20 0 0)] 4 0 2 2 3 = true.
Proof.
  assert (H : isValidGridPosition defaultGrid [(terrainAt 1 20 20 0 0); (terrainAt 2 20 20 2 0)] 4 0 2 2 3 = true)
    by (vm_compute; reflexivity).
  split; [exact H|].
  apply (proj2 (fewer_terrains_keep_positions_valid defaultGrid [(terrainAt 1 20 20 0 0)] [(terrainAt 1 20 20 0 0); (terrainAt 2 20 20 2 0)]
                  4 0 2 2 3 ltac:(intros t Ht; apply list_elem_of_singleton in Ht; subst t; left))).
  exact H.
Defined.

Lemma placement_without_other_terrains_witness :
  findAvailableGridPosition defaultGrid [(terrainAt 7 15 5 0 0)] (terrainAt 7 15 5 0 0) = GridPosition.mk (-10) (-10).
Proof.
  apply (placement_without_other_terrains defaultGrid [(terrainAt 7 15 5 0 0)] (terrainAt 7 15 5 0 0)).
  intros t Ht. apply list_elem_of_singleton in Ht. rewrite Ht. reflexivity.
Defined.

Lemma loadTerrain_appends_witness :
  exists t',
    registry (loadTerrain defaultGrid 3 (Dimensions.mk 10 10 1) (Model.mk 2%nat 0 0 0)
                EmptyString (run modelOrigin 20 squareRing defaultGrid initialState sessionEvents))
    = registry (run modelOrigin 20 squareRing defaultGrid initialState sessionEvents) ++ [t'] /\
    Terrain.id t' = 3.
Proof.
  destruct (loadTerrain_appends defaultGrid 3 (Dimensions.mk 10 10 1)
              (Model.mk 2%nat 0 0 0) EmptyString (run modelOrigin 20 squareRing defaultGrid initialState sessionEvents)
              (run_wellFormed modelOrigin 20 squareRing defaultGrid sessionEvents))
    as (t' & _ & _ & Hreg & Hid & _).
  exists t'. split; assumption.
Defined.

Lemma same_id_terrains_are_stacked_witness :
  exists t1 t2,
    registry (loadTerrain defaultGrid 1 (Dimensions.mk 15 5 1) (Model.mk 1%nat 0 0 0)
                EmptyString
                (loadTerrain defaultGrid 1 (Dimensions.mk 15 5 1) (Model.mk O 0 0 0)
                   EmptyString initialState))
    = registry initialState ++ [t1; t2] /\
    Terrain.gridPosition t2 = Terrain.gridPosition t1.
Proof.
  destruct (same_id_terrains_are_stacked defaultGrid 1 (Dimensions.mk 15 5 1)
              (Model.mk O 0 0 0) (Model.mk 1%nat 0 0 0) EmptyString EmptyString
              initialState initialState_wellFormed)
    as (t1 & t2 & Hreg & Hpos & _).
  exists t1, t2. split; assumption.
Defined.

Lemma removeTerrain_removes_first_match_witness :
  exists i t0,
    registry (run modelOrigin 20 squareRing defaultGrid initialState sessionEvents) !! i = Some t0 /\ Terrain.id t0 = 1 /\
    registry (removeTerrain 1 (run modelOrigin 20 squareRing defaultGrid initialState sessionEvents)) = delete i (registry (run modelOrigin 20 squareRing defaultGrid initialState sessionEvents)).
Proof.
  destruct (registry (run modelOrigin 20 squareRing defaultGrid initialState sessionEvents) !! O) as [t|] eqn:Hlook; [|vm_compute in Hlook; discriminate].
  assert (Hid : Terrain.id <$> registry (run modelOrigin 20 squareRing defaultGrid initialState sessionEvents) !! O = Some 1) by (vm_compute; reflexivity).
  rewrite Hlook in Hid. injection Hid as Hid.
  destruct (removeTerrain_removes_first_match 1 (run modelOrigin 20 squareRing defaultGrid initialState sessionEvents) t
              (run_wellFormed modelOrigin 20 squareRing defaultGrid sessionEvents)
              (proj2 (list_elem_of_lookup _ _) (ex_intro _ O Hlook)) Hid)
    as (i & t0 & Hi & Hid0 & _ & Hdel & _).
  exists i, t0. auto.
Defined.

Lemma load_then_remove_restores_witness :
  freshId (run modelOrigin 20 squareRing defaultGrid initialState sessionEvents) (TerrainLoaded 3 (Dimensions.mk 10 10 1) (Model.mk 2%nat 0 0 0) EmptyString)
  = true /\
  terrains (removeTerrain 3
              (loadTerrain defaultGrid 3 (Dimensions.mk 10 10 1) (Model.mk 2%nat 0 0 0)
                 EmptyString (run modelOrigin 20 squareRing defaultGrid initialState sessionEvents)))
  = terrains (run modelOrigin 20 squareRing defaultGrid initialState sessionEvents) /\
  registry (removeTerrain 3
              (loadTerrain defaultGrid 3 (Dimensions.mk 10 10 1) (Model.mk 2%nat 0 0 0)
                 EmptyString (run modelOrigin 20 squareRing defaultGrid initialState sessionEvents)))
  = registry (run modelOrigin 20 squareRing defaultGrid initialState sessionEvents).
Proof.
  assert (Hfresh : freshId (run modelOrigin 20 squareRing defaultGrid initialState sessionEvents)
                     (TerrainLoaded 3 (Dimensions.mk 10 10 1) (Model.mk 2%nat 0 0 0)
                        EmptyString) = true) by (vm_compute; reflexivity).
  split; [exact Hfresh|].
  destruct (load_then_remove_restores defaultGrid 3 (Dimensions.mk 10 10 1)
              (Model.mk 2%nat 0 0 0) EmptyString (run modelOrigin 20 squareRing defaultGrid initialState sessionEvents)
              (run_wellFormed modelOrigin 20 squareRing defaultGrid sessionEvents)
              (run_sceneAllocated modelOrigin 20 squareRing defaultGrid sessionEvents)
              Hfresh)
    as (Hterr & Hreg & _).
  split; assumption.
Defined.

Lemma accepted_drag_snaps_to_nearest_cell_witness :
  isDragging (run modelOrigin 20 squareRing defaultGrid initialState dragEvents) = true /\
  selectedTerrain (run modelOrigin 20 squareRing defaultGrid initialState dragEvents) = Some 1%nat /\
  exists t',
    heap (onMouseMove defaultGrid (87%Q, 4%Q) (run modelOrigin 20 squareRing defaultGrid initialState dragEvents)) !! 1%nat = Some t' /\
    Terrain.gridPosition t' = GridPosition.mk 9 0.
Proof.
  assert (Hdrag : isDragging (run modelOrigin 20 squareRing defaultGrid initialState dragEvents) = true) by (vm_compute; reflexivity).
  assert (Hsel : selectedTerrain (run modelOrigin 20 squareRing defaultGrid initialState dragEvents) = Some 1%nat) by (vm_compute; reflexivity).
  split; [exact Hdrag|]. split; [exact Hsel|].
  destruct (heap (run modelOrigin 20 squareRing defaultGrid initialState dragEvents) !! 1%nat) as [t|] eqn:Ha; [|vm_compute in Ha; discriminate].
  assert (Hvalid :
            match heap (run modelOrigin 20 squareRing defaultGrid initialState dragEvents) !! 1%nat with
            | Some u =>
                isValidGridPosition defaultGrid (registry (run modelOrigin 20 squareRing defaultGrid initialState dragEvents)) 9 0
                  (cellsWide defaultGrid u) (cellsDeep defaultGrid u) (Terrain.id u)
            | None => false
            end = true) by (vm_compute; reflexivity).
  rewrite Ha in Hvalid.
  destruct (accepted_drag_snaps_to_nearest_cell defaultGrid (87%Q, 4%Q) (run modelOrigin 20 squareRing defaultGrid initialState dragEvents) 1%nat t
              Hdrag Hsel Ha) as (t' & Ha' & Hpos & _).
  - assert (Hx : Math_round ((fst (87%Q, 4%Q) - fst (dragOffset (run modelOrigin 20 squareRing defaultGrid initialState dragEvents)))
                             / inject_Z (Z.pos (Grid.cellSize defaultGrid))) = 9)
      by (vm_compute; reflexivity).
    assert (Hz : Math_round ((snd (87%Q, 4%Q) - snd (dragOffset (run modelOrigin 20 squareRing defaultGrid initialState dragEvents)))
                             / inject_Z (Z.pos (Grid.cellSize defaultGrid))) = 0)
      by (vm_compute; reflexivity).
    rewrite Hx, Hz. exact Hvalid.
  - assert (Hx : Math_round ((fst (87%Q, 4%Q) - fst (dragOffset (run modelOrigin 20 squareRing defaultGrid initialState dragEvents)))
                             / inject_Z (Z.pos (Grid.cellSize defaultGrid))) = 9)
      by (vm_compute; reflexivity).
    assert (Hz : Math_round ((snd (87%Q, 4%Q) - snd (dragOffset (run modelOrigin 20 squareRing defaultGrid initialState dragEvents)))
                             / inject_Z (Z.pos (Grid.cellSize defaultGrid))) = 0)
      by (vm_compute; reflexivity).
    rewrite Hx, Hz in Hpos. exists t'. split; assumption.
Defined.

Lemma terrain_identity_is_kept_witness :
  exists t t',
    heap (run modelOrigin 20 squareRing defaultGrid initialState dragEvents) !! 1%nat = Some t /\
    heap (run modelOrigin 20 squareRing defaultGrid (run modelOrigin 20 squareRing defaultGrid initialState dragEvents)
            [PointerMove (90%Q, 0%Q); PointerUp; Rotate 2]) !! 1%nat = Some t' /\
    Terrain.id t' = Terrain.id t.
Proof.
  destruct (heap (run modelOrigin 20 squareRing defaultGrid initialState dragEvents) !! 1%nat) as [t|] eqn:Ha; [|vm_compute in Ha; discriminate].
  destruct (terrain_identity_is_kept modelOrigin 20 squareRing defaultGrid
              [PointerMove (90%Q, 0%Q); PointerUp; Rotate 2] (run modelOrigin 20 squareRing defaultGrid initialState dragEvents) 1%nat t Ha)
    as (t' & Ha' & Hid & _).
  exists t, t'. auto.
Defined.

Lemma rotation_is_a_quarter_turn_witness :
  exists t,
    heap (run modelOrigin 20 squareRing defaultGrid initialState sessionEvents) !! 1%nat = Some t /\
    (Terrain.rotation t <? Math_PI * 2)%float = true.
Proof.
  destruct (heap (run modelOrigin 20 squareRing defaultGrid initialState sessionEvents) !! 1%nat) as [t|] eqn:Ha; [|vm_compute in Ha; discriminate].
  exists t. split; [reflexivity|].
  apply (rotation_is_a_quarter_turn modelOrigin 20 squareRing defaultGrid sessionEvents t).
  apply list_elem_of_lookup. exists 1%nat. exact Ha.
Defined.

Lemma lone_terrain_rotates_in_place_witness :
  exists t t',
    heap (run modelOrigin 20 squareRing defaultGrid initialState loneEvents) !! O = Some t /\
    heap (rotateTerrain 20 squareRing defaultGrid 1 (run modelOrigin 20 squareRing defaultGrid initialState loneEvents)) !! O = Some t' /\
    Terrain.gridPosition t' = Terrain.gridPosition t.
Proof.
  assert (Hfind : find_terrain (heap (run modelOrigin 20 squareRing defaultGrid initialState loneEvents)) (terrains (run modelOrigin 20 squareRing defaultGrid initialState loneEvents)) (fun u => Terrain.id u =? 1)
                  = Some O) by (vm_compute; reflexivity).
  assert (Hlone : forall u, u ∈ registry (run modelOrigin 20 squareRing defaultGrid initialState loneEvents) -> Terrain.id u = 1).
  { assert (H : forallb (fun u => Terrain.id u =? 1) (registry (run modelOrigin 20 squareRing defaultGrid initialState loneEvents)) = true)
      by (vm_compute; reflexivity).
    rewrite forallb_forall in H. intros u Hu.
    apply Z.eqb_eq, H, list_elem_of_In, Hu. }
  assert (Hfit :
            match heap (run modelOrigin 20 squareRing defaultGrid initialState loneEvents) !! O with
            | Some u =>
                (GridPosition.x (Terrain.gridPosition u) + cellsDeep defaultGrid u
                 <=? Grid.size defaultGrid)
                && (GridPosition.z (Terrain.gridPosition u) + cellsWide defaultGrid u
                    <=? Grid.size defaultGrid)
            | None => false
            end = true) by (vm_compute; reflexivity).
  destruct (heap (run modelOrigin 20 squareRing defaultGrid initialState loneEvents) !! O) as [t|] eqn:Ha; [|discriminate].
  apply andb_true_iff in Hfit as [Hx Hz]. apply Z.leb_le in Hx, Hz.
  destruct (lone_terrain_rotates_in_place 20 squareRing defaultGrid 1 (run modelOrigin 20 squareRing defaultGrid initialState loneEvents) O t
              Hfind Ha Hlone Hx Hz) as (t' & Ha' & Hpos & _).
  exists t, t'. auto.
Defined.

Lemma detached_terrain_cannot_disturb_registry_witness :
  exists t,
    heap (run modelOrigin 20 squareRing defaultGrid initialState dragEvents) !! 1%nat = Some t /\
    registry (onMouseMove defaultGrid (90%Q, 0%Q) (removeTerrain (Terrain.id t) (run modelOrigin 20 squareRing defaultGrid initialState dragEvents)))
    = registry (removeTerrain (Terrain.id t) (run modelOrigin 20 squareRing defaultGrid initialState dragEvents)).
Proof.
  assert (Hadm : admissible modelOrigin 20 squareRing defaultGrid initialState dragEvents
                 = true) by (vm_compute; reflexivity).
  destruct (run_consistent modelOrigin 20 squareRing defaultGrid dragEvents initialState
              (initialState_consistent defaultGrid) Hadm) as (Hwf & Huniq & _).
  assert (Hsel : selectedTerrain (run modelOrigin 20 squareRing defaultGrid initialState dragEvents) = Some 1%nat) by (vm_compute; reflexivity).
  assert (Hin : 1%nat ∈ terrains (run modelOrigin 20 squareRing defaultGrid initialState dragEvents)).
  { apply list_elem_of_lookup. exists 1%nat. vm_compute. reflexivity. }
  destruct (heap (run modelOrigin 20 squareRing defaultGrid initialState dragEvents) !! 1%nat) as [t|] eqn:Ha; [|vm_compute in Ha; discriminate].
  exists t. split; [reflexivity|].
  exact (proj2 (proj2 (proj2
           (detached_terrain_cannot_disturb_registry defaultGrid (90%Q, 0%Q) (run modelOrigin 20 squareRing defaultGrid initialState dragEvents) 1%nat t
              Hwf Huniq Hsel Hin Ha)))).
Defined.

Lemma updateMousePosition_normalizes_witness :
  (-1 <= fst (updateMousePosition 200 150 800 600))%Q /\
  (fst (updateMousePosition 200 150 800 600) <= 1)%Q /\
  (-1 <= snd (updateMousePosition 200 150 800 600))%Q /\
  (snd (updateMousePosition 200 150 800 600) <= 1)%Q.
Proof.
  destruct (updateMousePosition_normalizes 200 150 800 600) as (H1 & H2 & H3 & H4 & _);
    try (vm_compute; reflexivity); try (vm_compute; discriminate).
  auto.
Defined.

Lemma drag_keeps_validity_of_positions_witness :
  selectedTerrain (run modelOrigin 20 squareRing defaultGrid initialState dragEvents)
  = Some 1%nat /\
  isValidGridPosition defaultGrid
    (registry (onMouseMove defaultGrid (90%Q, 0%Q)
                 (run modelOrigin 20 squareRing defaultGrid initialState dragEvents)))
    (-8) (-10) 1 3 2
  = isValidGridPosition defaultGrid
      (registry (run modelOrigin 20 squareRing defaultGrid initialState dragEvents))
      (-8) (-10) 1 3 2 /\
  onMouseMove defaultGrid (90%Q, 0%Q)
    (run modelOrigin 20 squareRing defaultGrid initialState dragEvents)
  <> run modelOrigin 20 squareRing defaultGrid initialState dragEvents /\
  onMouseMove defaultGrid ((-80)%Q, (-100)%Q)
    (onMouseMove defaultGrid (90%Q, 0%Q)
       (run modelOrigin 20 squareRing defaultGrid initialState dragEvents))
  = run modelOrigin 20 squareRing defaultGrid initialState dragEvents.
Proof.
  assert (Hsel : selectedTerrain
                   (run modelOrigin 20 squareRing defaultGrid initialState dragEvents)
                 = Some 1%nat) by (vm_compute; reflexivity).
  assert (Ha : heap (run modelOrigin 20 squareRing defaultGrid initialState dragEvents)
                 !! 1%nat
               = Some (updateTerrainPosition defaultGrid
                         (Terrain.set_gridPosition (GridPosition.mk (-8) (-10))
                            (createTerrainObject 2 (Dimensions.mk 10 30 1)
                               (Model.mk 1%nat 0 0 0) EmptyString))))
    by (vm_compute; reflexivity).
  destruct (drag_keeps_validity_of_positions defaultGrid (90%Q, 0%Q)
              (run modelOrigin 20 squareRing defaultGrid initialState dragEvents)
              1%nat _
              (run_wellFormed modelOrigin 20 squareRing defaultGrid dragEvents) Hsel Ha)
    as [Hvalid Hback].
  split; [exact Hsel|]. split; [exact (Hvalid (-8) (-10) 1 3)|].
  split; [vm_compute; discriminate|].
  apply (proj1 (Hback ((-80)%Q, (-100)%Q) ltac:(vm_compute; reflexivity)
                  ltac:(vm_compute; reflexivity))).
  - vm_compute. reflexivity.
  - exact (proj1 (Forall_lookup _ _)
             (run_synchronized modelOrigin 20 squareRing defaultGrid dragEvents)
             1%nat _ Ha).
Defined.

(** After the fallback placement of a terrain of 21 cells at [(0,0)], a
    move to [(-30,0)] is accepted and the move back to [(0,0)] is
    rejected. *)
Lemma move_back_rejected_after_fallback :
  (Terrain.gridPosition <$>
     registry (run modelOrigin 20 squareRing defaultGrid initialState oversizeDragEvents))
  = [GridPosition.mk 0 0] /\
  (Terrain.gridPosition <$>
     registry (onMouseMove defaultGrid ((-300)%Q, 0%Q)
                 (run modelOrigin 20 squareRing defaultGrid initialState
                    oversizeDragEvents)))
  = [GridPosition.mk (-30) 0] /\
  onMouseMove defaultGrid (0%Q, 0%Q)
    (onMouseMove defaultGrid ((-300)%Q, 0%Q)
       (run modelOrigin 20 squareRing defaultGrid initialState oversizeDragEvents))
  = onMouseMove defaultGrid ((-300)%Q, 0%Q)
      (run modelOrigin 20 squareRing defaultGrid initialState oversizeDragEvents).
Proof. split; [|split]; vm_compute; reflexivity. Qed.

